(** * Geometry components: conic builders, oblique solids, edge visibility

    A shallow embedding of the numeric core of the scene-graph components
    ([components/math] and [components/solid_geometry]) and the proofs of
    the properties their specification states.

    Numbers.  The source computes with binary64 floats.  The embedding
    computes with the real numbers of the Standard Library: every
    arithmetic expression of the source is kept as written, and rounding,
    overflow, infinities and NaN are absent.  The Python-level exceptions
    of the arithmetic ([math.sqrt] on a negative number, division of a
    Python float by zero) are modelled as results; numpy operations, which
    return NaN or an infinity instead of raising, are modelled by the real
    operation, and the theorems that depend on them carry the hypothesis
    that keeps their argument in the domain.

    Rounding.  Equalities proved over the reals hold in the program up to
    rounding.  A strict inequality need not survive rounding: the focal
    distances of the ellipse and of the hyperbola are therefore also
    embedded in binary64 itself ([c_binary64], on the kernel's primitive
    floats), which is where the program's c = a at a = 1e8, b = 1 is
    computed.  What is stated of the real-number model about these
    distances is the non-strict inequality.

    Rendering.  Drawable primitives are records of the coordinates and the
    stroke style the source passes to the rendering engine; the engine
    itself (curve smoothing, labels, animation) is outside the embedding. *)

From Stdlib Require Import Floats.
From Stdlib Require Import Reals Lra Lia Ascii String.
From stdpp Require Import gmap strings list.

Open Scope R_scope.

(** ** Numbers, exceptions, vectors *)

Inductive exn : Type :=
  | ValueError
  | ZeroDivisionError
  | KeyError
  | IndexError
  | TypeError.

Inductive result (A : Type) : Type :=
  | Ok (a : A)
  | Raise (e : exn).

Arguments Ok {A} a.
Arguments Raise {A} e.

Definition rbind {A B : Type} (r : result A) (k : A -> result B) : result B :=
  match r with
  | Ok a => k a
  | Raise e => Raise e
  end.

Notation "'let*' x ':=' r 'in' k" := (rbind r (fun x => k))
  (at level 10, x name, r at level 100, k at level 200).

(** A loop that appends one computed item per element and stops at the
    first exception. *)
Fixpoint rmap {A B : Type} (f : A -> result B) (l : list A) : result (list B) :=
  match l with
  | [] => Ok []
  | x :: l' => let* y := f x in let* ys := rmap f l' in Ok (y :: ys)
  end.

Definition raises {A : Type} (r : result A) : Prop :=
  match r with
  | Ok _ => False
  | Raise _ => True
  end.

(** The comparisons of the source, as booleans. *)
Definition Rltb (x y : R) : bool := if Rlt_dec x y then true else false.
Definition Rleb (x y : R) : bool := if Rle_dec x y then true else false.
Definition Rgtb (x y : R) : bool := Rltb y x.
Definition Reqb (x y : R) : bool := if Req_dec_T x y then true else false.

(** [math.sqrt]: raises ValueError (math domain error) below zero. *)
Definition math_sqrt (x : R) : result R :=
  if Rltb x 0 then Raise ValueError else Ok (sqrt x).

(** [x / y] on Python floats: raises ZeroDivisionError when [y] is zero. *)
Definition py_div (x y : R) : result R :=
  if Reqb y 0 then Raise ZeroDivisionError else Ok (x / y).

(** A point or vector, as the 3-component arrays of the source. *)
Record vec : Type := V3 { vx : R; vy : R; vz : R }.

Definition vadd (u v : vec) : vec := V3 (vx u + vx v) (vy u + vy v) (vz u + vz v).
Definition vsub (u v : vec) : vec := V3 (vx u - vx v) (vy u - vy v) (vz u - vz v).
Definition vscale (u : vec) (k : R) : vec := V3 (vx u * k) (vy u * k) (vz u * k).
Definition vdiv (u : vec) (k : R) : vec := V3 (vx u / k) (vy u / k) (vz u / k).
Definition vneg (u : vec) : vec := V3 (- vx u) (- vy u) (- vz u).

(** [np.dot], [np.cross] and [np.linalg.norm] on 3-vectors. *)
Definition dot (u v : vec) : R := vx u * vx v + vy u * vy v + vz u * vz v.
Definition cross (u v : vec) : vec :=
  V3 (vy u * vz v - vz u * vy v)
     (vz u * vx v - vx u * vz v)
     (vx u * vy v - vy u * vx v).
Definition norm (u : vec) : R := sqrt (vx u * vx u + vy u * vy u + vz u * vz u).

(** [np.linspace start stop num]: [num] samples, the first at [start],
    consecutive ones [(stop - start) / (num - 1)] apart. *)
Definition linspace (start stop : R) (num : nat) : list R :=
  map (fun i : nat => start + INR i * ((stop - start) / INR (num - 1)))
      (seq 0 num).

(** [str.upper] on strings of ASCII characters: the letters a-z go to A-Z
    and every other character is unchanged.  Python's [str.upper] is
    defined on all of Unicode (it sends the dotless i, U+0131, to I, for
    one); this function is that method on ASCII strings only.  It is used
    for the cube's vertex names, which no character outside ASCII
    upper-cases to, and for the ASCII instances of the parabola's
    direction; the parabola's constructor itself takes the upper-casing
    function as an argument. *)
Definition upper_ascii (ch : ascii) : ascii :=
  let n := nat_of_ascii ch in
  if (Nat.leb 97 n && Nat.leb n 122)%bool then ascii_of_nat (n - 32) else ch.

Fixpoint upper (s : string) : string :=
  match s with
  | EmptyString => EmptyString
  | String ch s' => String (upper_ascii ch) (upper s')
  end.

(** Modelled from the spec: the rendering engine's direction constants and
    angle unit, which the source imports and the repository does not
    define.  The spec places the foci at (±c, 0) where the source writes
    [LEFT * c] and [RIGHT * c], and the cube's axes give [UP] and [OUT]. *)
Definition ORIGIN : vec := V3 0 0 0.
Definition RIGHT : vec := V3 1 0 0.
Definition LEFT : vec := V3 (-1) 0 0.
Definition UP : vec := V3 0 1 0.
Definition DOWN : vec := V3 0 (-1) 0.
Definition OUT : vec := V3 0 0 1.
Definition DEGREES : R := PI / 180.

(** ** components/math/analytic_geometry.py *)

Module StandardEllipse.

(** What the constructor computes and hands to the renderer: the
    semi-axes, the focal distance, the focus and vertex dots (when
    shown) and the abscissa of the right directrix (when shown). *)
Record t : Type := Build {
  a : R;
  b : R;
  c : R;
  foci : option (vec * vec);
  vertices : option (vec * vec * vec * vec);
  directrix_x : option R
}.

(** [_get_directrix]: [self.a ** 2 / self.c] on Python floats. *)
Definition _get_directrix (a c : R) : result R := py_div (a ^ 2) c.

(** The constructor, over the reals.  Two things the binary64 program does
    are not in this model: the rounding of [math.sqrt(a**2 - b**2)], by
    which the stored c can equal a although b > 0 (see [c_binary64]), and
    the OverflowError of [a**2] for a beyond about 1e154. *)
Definition __init__ (a b : R) (show_foci show_vertices show_directrix : bool)
  : result t :=
  if Rltb a b then Raise ValueError
  else
    let* c := math_sqrt (a ^ 2 - b ^ 2) in
    let foci :=
      if show_foci then Some (vscale LEFT c, vscale RIGHT c) else None in
    let vertices :=
      if show_vertices
      then Some (vscale LEFT a, vscale RIGHT a, vscale DOWN b, vscale UP b)
      else None in
    let* dx :=
      (if show_directrix
       then let* x := _get_directrix a c in Ok (Some x)
       else Ok None) in
    Ok (Build a b c foci vertices dx).

(** The focal distance as the program computes it,
    [math.sqrt(a**2 - b**2)] in binary64, for a >= b whose squares do not
    overflow: each operation rounds to nearest, ties to even.  [a**2] is
    taken as the correctly rounded square. *)
Definition c_binary64 (a b : float) : float :=
  PrimFloat.sqrt (PrimFloat.sub (PrimFloat.mul a a) (PrimFloat.mul b b)).

End StandardEllipse.

Module StandardHyperbola.

Inductive side : Type := SLeft | SRight.

(** [_create_hyperbola_branch_upper]: the corner points handed to the
    curve, 80 samples of x over [a, a + 4].  The division [x**2 / a**2]
    is numpy's, which does not raise: for a = 0 it gives nan or an
    infinity, of which [math.sqrt] returns nan or an infinity.  These
    have no counterpart in the reals, so the helper is embedded for a
    other than 0, where the division is the real one; every statement
    about the branches carries 0 < a. *)
Definition _create_hyperbola_branch_upper (a b : R) (direction : side)
  : result (list vec) :=
  rmap
    (fun x : R =>
       let* s := math_sqrt (x ^ 2 / a ^ 2 - 1) in
       let y := b * s in
       let x' := match direction with SLeft => - x | SRight => x end in
       Ok (V3 x' y 0))
    (linspace a (a + 4) 80).

(** [_create_hyperbola_branch_lower]. *)
Definition _create_hyperbola_branch_lower (a b : R) (direction : side)
  : result (list vec) :=
  rmap
    (fun x : R =>
       let* s := math_sqrt (x ^ 2 / a ^ 2 - 1) in
       let y := - b * s in
       let x' := match direction with SLeft => - x | SRight => x end in
       Ok (V3 x' y 0))
    (linspace a (a + 4) 80).

Definition both_halves (a b : R) (direction : side) : result (list (list vec)) :=
  let* up := _create_hyperbola_branch_upper a b direction in
  let* lo := _create_hyperbola_branch_lower a b direction in
  Ok [up; lo].

(** A dashed segment of the renderer: its start and its end. *)
Abbreviation segment := (vec * vec)%type (only parsing).

(** One coordinate of an asymptote's end point, as the source writes it:
    [line_length * u / math.sqrt(self.a**2 + self.b**2)], a division of
    Python floats. *)
Definition asymptote_coord (a b line_length u : R) : result R :=
  let* r := math_sqrt (a ^ 2 + b ^ 2) in
  py_div (line_length * u) r.

(** [_get_asymptotes]: four dashed segments from the origin, one into each
    quadrant.  The source writes the two coordinate expressions out for
    each of the four end points; they are evaluated once here, since they
    are the same expressions of [self.a] and [self.b] every time. *)
Definition _get_asymptotes (a b : R) : result (list segment) :=
  let line_length := Rmax a b * 2.5 in
  let* ex := asymptote_coord a b line_length a in
  let* ey := asymptote_coord a b line_length b in
  let line1_end := vadd (vscale RIGHT ex) (vscale UP ey) in
  let line2_end := vadd (vscale RIGHT ex) (vscale DOWN ey) in
  let line3_end := vadd (vscale LEFT ex) (vscale UP ey) in
  let line4_end := vadd (vscale LEFT ex) (vscale DOWN ey) in
  Ok [ (ORIGIN, line1_end); (ORIGIN, line2_end);
       (ORIGIN, line3_end); (ORIGIN, line4_end) ].

(** [_get_asymptote_labels]: where the two labels are put, after the
    shift the source applies to each. *)
Definition _get_asymptote_labels (a b : R) : result (vec * vec) :=
  let line_length := Rmax a b * 2.0 in
  let* ex := asymptote_coord a b line_length a in
  let* ey := asymptote_coord a b line_length b in
  let pos1 := vadd (vscale (vscale RIGHT ex) 1.1) (vscale (vscale UP ey) 1.1) in
  let pos2 := vadd (vscale (vscale RIGHT ex) 1.1) (vscale (vscale DOWN ey) 1.1) in
  Ok (vadd pos1 (vadd (vscale RIGHT 0.3) (vscale UP 0.3)),
      vadd pos2 (vadd (vscale RIGHT 0.3) (vscale DOWN 0.3))).

(** [_get_directrices]: the left and the right directrix, two vertical
    dashed segments at x = -a²/c and x = a²/c. *)
Definition _get_directrices (a b c : R) : result (segment * segment) :=
  let* directrix_x := py_div (a ^ 2) c in
  let left_directrix :=
    (vadd (vscale LEFT directrix_x) (vscale UP (b * 2)),
     vadd (vscale LEFT directrix_x) (vscale DOWN (b * 2))) in
  let right_directrix :=
    (vadd (vscale RIGHT directrix_x) (vscale UP (b * 2)),
     vadd (vscale RIGHT directrix_x) (vscale DOWN (b * 2))) in
  Ok (left_directrix, right_directrix).

(** [_get_directrix_labels]: where the two labels are put. *)
Definition _get_directrix_labels (a b c : R) : result (vec * vec) :=
  let* directrix_x := py_div (a ^ 2) c in
  Ok (V3 (- (directrix_x + 0.5)) (b * 1.5) 0,
      V3 (directrix_x + 0.5) (b * 1.5) 0).

(** The constructor's result: semi-axes, focal distance, the corner
    points of each drawn half-branch in the order they are added, the
    focus dots, the vertex dots, and the asymptotes, directrices and the
    positions of their labels (each when requested). *)
Record t : Type := Build {
  a : R;
  b : R;
  c : R;
  branches : list (list vec);
  foci : option (vec * vec);
  vertices : option (vec * vec);
  asymptotes : option (list segment);
  asymptote_label_positions : option (vec * vec);
  directrices : option (segment * segment);
  directrix_label_positions : option (vec * vec)
}.

(** The constructor, over the reals, in the order of the source: focal
    distance, branches, foci, vertices, asymptotes (on by default) with
    their labels, directrices with their labels.  [branch] is the source's
    string, one of "left", "right", "both"; any other string draws no
    branch.  The rounding of [math.sqrt(a**2 + b**2)], by which the stored
    c can equal a although b > 0 (see [c_binary64]), and the OverflowError
    of [a**2] for a beyond about 1e154 are not in this model. *)
Definition __init__ (a b : R) (branch : string) (show_foci show_vertices : bool)
    (show_asymptotes asymptote_labels show_directrices directrix_labels : bool)
  : result t :=
  let* c := math_sqrt (a ^ 2 + b ^ 2) in
  let* left :=
    (if bool_decide (branch = "left"%string \/ branch = "both"%string)
     then both_halves a b SLeft else Ok []) in
  let* right :=
    (if bool_decide (branch = "right"%string \/ branch = "both"%string)
     then both_halves a b SRight else Ok []) in
  let foci :=
    if show_foci then Some (vscale LEFT c, vscale RIGHT c) else None in
  let vertices :=
    if show_vertices then Some (vscale LEFT a, vscale RIGHT a) else None in
  let* asy :=
    (if show_asymptotes
     then
       let* lines := _get_asymptotes a b in
       let* labels :=
         (if asymptote_labels
          then let* l := _get_asymptote_labels a b in Ok (Some l)
          else Ok None) in
       Ok (Some lines, labels)
     else Ok (None, None)) in
  let* dir :=
    (if show_directrices
     then
       let* lines := _get_directrices a b c in
       let* labels :=
         (if directrix_labels
          then let* l := _get_directrix_labels a b c in Ok (Some l)
          else Ok None) in
       Ok (Some lines, labels)
     else Ok (None, None)) in
  Ok (Build a b c (left ++ right) foci vertices
        (fst asy) (snd asy) (fst dir) (snd dir)).

(** The focal distance as the program computes it,
    [math.sqrt(a**2 + b**2)] in binary64, for a and b whose squares do not
    overflow: each operation rounds to nearest, ties to even.  [a**2] is
    taken as the correctly rounded square. *)
Definition c_binary64 (a b : float) : float :=
  PrimFloat.sqrt (PrimFloat.add (PrimFloat.mul a a) (PrimFloat.mul b b)).

End StandardHyperbola.

Module StandardParabola.

Inductive orientation : Type := Vertical | Horizontal.

(** [_calculate_positions] on the stored (upper-cased) direction:
    focus position, directrix position, directrix orientation. *)
Definition _calculate_positions (p : R) (direction : string)
  : result (vec * vec * orientation) :=
  let p_half := p / 2 in
  if String.eqb direction "RIGHT" then
    Ok (vscale RIGHT p_half, vscale LEFT p_half, Vertical)
  else if String.eqb direction "LEFT" then
    Ok (vscale LEFT p_half, vscale RIGHT p_half, Vertical)
  else if String.eqb direction "UP" then
    Ok (vscale UP p_half, vscale DOWN p_half, Horizontal)
  else if String.eqb direction "DOWN" then
    Ok (vscale DOWN p_half, vscale UP p_half, Horizontal)
  else Raise ValueError.

(** [_create_directrix_line]: the two end points of the directrix. *)
Definition _create_directrix_line (position : vec) (o : orientation) : vec * vec :=
  let line_length := 6 in
  match o with
  | Vertical =>
      (vadd position (vscale UP (line_length / 2)),
       vadd position (vscale DOWN (line_length / 2)))
  | Horizontal =>
      (vadd position (vscale LEFT (line_length / 2)),
       vadd position (vscale RIGHT (line_length / 2)))
  end.

(** [_get_directrix_label] builds a label and moves it next to the
    directrix, and ends without a return statement: what the caller gets
    is None. *)
Definition _get_directrix_label (directrix_pos : vec) (o : orientation)
  : option vec := None.

(** [self.add] of the rendering engine on what a helper returned: the
    engine accepts drawable objects only and raises TypeError on None. *)
Definition add_to_group {A : Type} (m : option A) : result A :=
  match m with
  | Some x => Ok x
  | None => Raise TypeError
  end.

(** The constructor's result: the stored direction, the focus dot, the
    vertex dot and the directrix segment (each when shown).  The sampled
    curve, which is computed by numpy and cannot raise, is embedded on its
    own as [_create_parabola_curve]. *)
Record t : Type := Build {
  p : R;
  direction : string;
  focus : option vec;
  vertex : option vec;
  directrix : option (vec * vec);
  focus_pos : vec;
  directrix_pos : vec
}.

(** The constructor.  [str_upper] stands for the [upper] method of
    Python's strings, by which the direction is stored: the constructor is
    embedded for whatever that method returns, so that no statement about
    it rests on a table of upper-case letters.  With both [show_directrix]
    and [directrix_label] set, the label helper's None is added to the
    group. *)
Definition __init__ (str_upper : string -> string) (p : R) (direction : string)
    (show_vertex show_focus show_directrix directrix_label : bool) : result t :=
  let direction := str_upper direction in
  let* pos := _calculate_positions p direction in
  let '(focus_pos, directrix_pos, directrix_orientation) := pos in
  let focus := if show_focus then Some focus_pos else None in
  let vertex := if show_vertex then Some ORIGIN else None in
  let* directrix :=
    (if show_directrix
     then
       let line := _create_directrix_line directrix_pos directrix_orientation in
       let* _ :=
         (if directrix_label
          then
            let* label :=
              add_to_group (_get_directrix_label directrix_pos directrix_orientation) in
            Ok (Some label)
          else Ok None) in
       Ok (Some line)
     else Ok None) in
  Ok (Build p direction focus vertex directrix focus_pos directrix_pos).

(** [_create_parabola_curve] on the stored direction: the corner points
    handed to the curve, 100 samples of the parameter over [y_range]
    (opening right or left) or over [x_range] (any other direction).  The
    division is numpy's, which does not raise. *)
Definition _create_parabola_curve (p : R) (direction : string)
    (x_range y_range : R * R) : list vec :=
  if (String.eqb direction "RIGHT" || String.eqb direction "LEFT")%bool then
    map (fun t : R =>
           let x := t ^ 2 / (2 * p) in
           let x := if String.eqb direction "LEFT" then - x else x in
           V3 x t 0)
        (linspace (fst y_range) (snd y_range) 100)
  else
    map (fun t : R =>
           let y := t ^ 2 / (2 * p) in
           let y := if String.eqb direction "DOWN" then - y else y in
           V3 t y 0)
        (linspace (fst x_range) (snd x_range) 100).

End StandardParabola.

Module StandardCircle.

(** [circle_func], the parametrisation handed to the renderer: it uses
    the first two coordinates of the centre and puts the curve in the
    plane z = 0. *)
Definition circle_func (radius : R) (center_point : vec) (t : R) : vec :=
  V3 (vx center_point + radius * cos t) (vy center_point + radius * sin t) 0.

(** [_create_radius_line]: the start and the end of the dashed radius
    line, drawn at 45 degrees. *)
Definition _create_radius_line (radius : R) (center_point : vec) : vec * vec :=
  let angle := 45 * DEGREES in
  let direction := V3 (cos angle) (sin angle) 0 in
  let end_point := vadd center_point (vscale direction radius) in
  (center_point, end_point).

(** [_create_radius_label]: the point [mid_point] the label is moved to,
    before its fixed shift by [UP * 0.3 + RIGHT * 0.2]. *)
Definition _create_radius_label (center_point radius_line_end : vec) : vec :=
  vadd center_point (vdiv radius_line_end 2).

End StandardCircle.

(** ** components/math/analytic_line.py *)

Module StandardLine.

(** A point argument: a list of two or of three coordinates. *)
Inductive point : Type :=
  | P2 (x y : R)
  | P3 (x y z : R).

(** [np.array(point, dtype=float)], padded with 0.0 when it has two
    components. *)
Definition to_array (pt : point) : vec :=
  match pt with
  | P2 x y => V3 x y 0
  | P3 x y z => V3 x y z
  end.

(** [np.allclose(p, [0, 0, 0], atol=0.001)]. *)
Definition allclose_origin (p : vec) : bool :=
  Rleb (Rabs (vx p)) 0.001 && Rleb (Rabs (vy p)) 0.001 && Rleb (Rabs (vz p)) 0.001.

Record t : Type := Build {
  p1 : vec;
  p2 : vec;
  length : R;
  is_vertical : bool;
  is_horizontal : bool;
  is_through_origin : bool;
  slope : R;
  y_intercept : R;
  A : R;
  B : R;
  C : R;
  x_intercept : option R;
  y_intercept_point : option R;
  line_start : vec;
  line_end : vec
}.

Definition __init__ (point1 point2 : option point) (length : R) : t :=
  let p1 := match point1 with Some pt => to_array pt | None => V3 0 0 0 end in
  let p2 := match point2 with Some pt => to_array pt | None => V3 length 0 0 end in
  let delta := vsub p2 p1 in
  let direction_norm := norm delta in
  let direction :=
    if Rltb direction_norm 0.001 then RIGHT else vdiv delta direction_norm in
  let is_vertical := Rltb (Rabs (vx delta)) 0.001 in
  let is_horizontal := Rltb (Rabs (vy delta)) 0.001 in
  let is_through_origin := allclose_origin p1 in
  let '(slope, y_intercept) :=
    if negb is_vertical then
      if Rgtb (Rabs (vx delta)) 0.001 then
        let slope := vy delta / vx delta in
        (slope, vy p1 - slope * vx p1)
      else (0, 0)
    else (0, 0) in
  let '(A, B, C) :=
    if is_vertical then (1, 0, - vx p1)
    else if is_horizontal then (0, 1, - vy p1)
    else (slope, -1, y_intercept) in
  let y_intercept_point :=
    if Rgtb (Rabs B) 0.001 then Some (- C / B) else None in
  let x_intercept :=
    if Rgtb (Rabs A) 0.001 then Some (- C / A) else None in
  let center := vdiv (vadd p1 p2) 2 in
  let actual_length := Rmin length direction_norm in
  let line_start := vsub center (vscale direction (actual_length / 2)) in
  let line_end := vadd center (vscale direction (actual_length / 2)) in
  Build p1 p2 length is_vertical is_horizontal is_through_origin
        slope y_intercept A B C x_intercept y_intercept_point
        line_start line_end.

(** [_create_intercepts]: the positions of the intercept dots, the one on
    the x-axis first.  The labels are rendering and are left out. *)
Definition _create_intercepts (l : t) : list vec :=
  (match x_intercept l with
   | Some x => if Rltb (Rabs x) 20 then [V3 x 0 0] else []
   | None => []
   end) ++
  (match y_intercept_point l with
   | Some y => if Rltb (Rabs y) 20 then [V3 0 y 0] else []
   | None => []
   end).

(** The five forms of the equation the panel can show. *)
Inductive equation_form : Type :=
  | General
  | SlopeIntercept
  | PointSlope
  | TwoPoint
  | InterceptForm.

(** [_create_equation_panel]: which forms are added to the panel, in
    order.  The text of each equation is formatting and is left out. *)
Definition _create_equation_panel (l : t) : list equation_form :=
  [General] ++
  (if (negb (is_vertical l) && Rltb (Rabs (slope l)) 100)%bool
   then [SlopeIntercept] else []) ++
  (if (negb (is_vertical l) && Rltb (Rabs (slope l)) 100)%bool
   then [PointSlope] else []) ++
  (if (negb (is_vertical l) && negb (is_horizontal l))%bool
   then [TwoPoint] else []) ++
  (match x_intercept l, y_intercept_point l with
   | Some xi, Some yi =>
       if (Rgtb (Rabs xi) 0.01 && Rgtb (Rabs yi) 0.01 &&
           Rltb (Rabs xi) 20 && Rltb (Rabs yi) 20)%bool
       then [InterceptForm] else []
   | _, _ => []
   end).

End StandardLine.

(** ** components/solid_geometry/cone.py *)

Module ConeOblique.

Record t : Type := Build {
  radius : R;
  _height : R;
  skew_factor : R;
  p_center : vec;
  p_left : vec;
  p_right : vec;
  p_apex : vec;
  tangent_x_offset : R;
  tangent_y_offset : R;
  p_tangent_left : vec;
  p_tangent_right : vec
}.

(** Step B of the constructor: the offsets of the tangent points from
    the base centre. *)
Definition tangent_offsets (a b h : R) : result (R * R) :=
  if Rleb h (b + 0.001) then Ok (a, 0)
  else
    let* tangent_y_offset := py_div (b ^ 2) h in
    let tangent_x_offset := a * sqrt (1 - b ^ 2 / h ^ 2) in
    Ok (tangent_x_offset, tangent_y_offset).

Definition __init__ (radius height skew_factor : R) (center : vec) : result t :=
  let p_center := center in
  let p_left := vadd p_center (vscale LEFT radius) in
  let p_right := vadd p_center (vscale RIGHT radius) in
  let p_apex := vadd p_center (vscale UP height) in
  let a := radius in
  let b := radius * skew_factor in
  let h := height in
  let* off := tangent_offsets a b h in
  let '(tangent_x_offset, tangent_y_offset) := off in
  Ok (Build radius height skew_factor p_center p_left p_right p_apex
        tangent_x_offset tangent_y_offset
        (vadd (vadd p_center (vscale LEFT tangent_x_offset))
              (vscale UP tangent_y_offset))
        (vadd (vadd p_center (vscale RIGHT tangent_x_offset))
              (vscale UP tangent_y_offset))).

End ConeOblique.

(** ** components/solid_geometry/sphere.py *)

Module SphereOblique.

(** The points [_create_axes] stores. *)
Record axes : Type := BuildAxes {
  p_y_intersect : vec;
  p_z_intersect : vec;
  x_intersect : R;
  y_intersect : R;
  p_x_intersect : vec
}.

Definition _create_axes (radius skew_factor x_axis_angle : R) (p_center : vec)
  : axes :=
  let p_y := vadd p_center (vscale RIGHT radius) in
  let p_z := vadd p_center (vscale UP radius) in
  let k := tan x_axis_angle in
  let a := radius in
  let b := radius * skew_factor in
  let x_intersect := - (a * b) / sqrt (b ^ 2 + a ^ 2 * k ^ 2) in
  let y_intersect := k * x_intersect in
  BuildAxes p_y p_z x_intersect y_intersect
            (vadd p_center (V3 x_intersect y_intersect 0)).

Record t : Type := Build {
  radius : R;
  skew_factor : R;
  x_axis_angle : R;
  p_center : vec;
  the_axes : option axes
}.

Definition __init__ (radius skew_factor x_axis_angle : R) (show_axes : bool)
    (center : vec) : t :=
  Build radius skew_factor x_axis_angle center
        (if show_axes
         then Some (_create_axes radius skew_factor x_axis_angle center)
         else None).

(** [get_north_pole]. *)
Definition get_north_pole (s : t) : vec :=
  vadd (p_center s) (vscale UP (radius s)).

(** [get_key_points]: the dictionary of the named points, as the list of
    its items in insertion order; the axis intersections are present when
    the axes were created. *)
Definition get_key_points (s : t) : list (string * vec) :=
  [("p_center"%string, p_center s)] ++
  match the_axes s with
  | Some ax =>
      [ ("p_x_intersect"%string, p_x_intersect ax);
        ("p_y_intersect"%string, p_y_intersect ax);
        ("p_z_intersect"%string, p_z_intersect ax) ]
  | None => []
  end.

End SphereOblique.

(** ** components/solid_geometry/solid_base.py *)

(** [l[i]] on a Python list: IndexError out of range.  Indices are
    natural numbers; Python's negative indices are not modelled. *)
Definition index {A : Type} (l : list A) (i : nat) : result A :=
  match l !! i with
  | Some x => Ok x
  | None => Raise IndexError
  end.

(** [d[k]] on a Python dict: KeyError on a missing key. *)
Definition getitem {A : Type} (d : gmap (nat * nat) A) (k : nat * nat) : result A :=
  match d !! k with
  | Some x => Ok x
  | None => Raise KeyError
  end.

(** A loop that threads a state through the elements of a list and stops
    at the first exception. *)
Fixpoint rfold {A S : Type} (f : S -> A -> result S) (l : list A) (s : S) : result S :=
  match l with
  | [] => Ok s
  | x :: l' => let* s' := f s x in rfold f l' s'
  end.

Module PolyhedronBase.

(** An edge: the pair of its end-point indices, the smaller first. *)
Abbreviation edge := (nat * nat)%type (only parsing).

(** A line primitive of the renderer: its end points and stroke style. *)
Record Line : Type := BuildLine {
  line_start : vec;
  line_end : vec;
  stroke_color : string;
  stroke_opacity : R;
  line_stroke_width : R
}.

(** [line.set_style(stroke_color=..., stroke_opacity=..., stroke_width=...)]. *)
Definition set_style (l : Line) (color : string) (opacity width : R) : Line :=
  BuildLine (line_start l) (line_end l) color opacity width.

(** The state of a polyhedron.  [edge_objects] is the store of the Line
    objects; the group [edge_lines] of the source holds the same objects,
    in the order of [edges].  [center] is what the renderer's
    [get_center()] returns for the group: it depends on the points of the
    group's members only, which [set_style] leaves alone. *)
Record t : Type := Build {
  vertices_local : list vec;
  n_vertices : nat;
  faces : list (list nat);
  n_faces : nat;
  edge_color : string;
  vertex_color : string;
  dashed_color : string;
  stroke_width : R;
  edges : list edge;
  edge_to_faces : gmap (nat * nat) (list nat);
  edge_objects : gmap (nat * nat) Line;
  vertex_dots : list vec;
  center : vec
}.

Definition edge_lines (s : t) : list Line :=
  omap (fun e => edge_objects s !! e) (edges s).

(** The edge between two vertex indices, the smaller index first. *)
Definition mk_edge (v1 v2 : nat) : edge :=
  if (v2 <? v1)%nat then (v2, v1) else (v1, v2).

(** The edges of one face, in the order of the inner loop of
    [_build_edge_topology]: [face[i]] to [face[(i + 1) % n]]. *)
Definition face_edges (face : list nat) : list edge :=
  let n := List.length face in
  map (fun i : nat => mk_edge (nth i face 0%nat) (nth ((i + 1) mod n) face 0%nat))
      (seq 0 n).

(** One pass of the inner loop body: add the edge to the set and append
    the face index to its list. *)
Definition record_edge (face_idx : nat)
    (st : gset (nat * nat) * gmap (nat * nat) (list nat)) (e : edge)
  : gset (nat * nat) * gmap (nat * nat) (list nat) :=
  let '(edge_set, edge_to_faces) := st in
  ({[ e ]} ∪ edge_set,
   <[ e := default [] (edge_to_faces !! e) ++ [face_idx] ]> edge_to_faces).

Definition record_face
    (st : gset (nat * nat) * gmap (nat * nat) (list nat)) (p : nat * list nat)
  : gset (nat * nat) * gmap (nat * nat) (list nat) :=
  foldl (record_edge (fst p)) st (face_edges (snd p)).

(** [_build_edge_topology]: the edge list (the elements of the set, in
    the set's own order) and the edge-to-faces dictionary. *)
Definition _build_edge_topology (faces : list (list nat))
  : list edge * gmap (nat * nat) (list nat) :=
  let '(edge_set, edge_to_faces) :=
    foldl record_face (∅, ∅) (imap (fun i f => (i, f)) faces) in
  (elements edge_set, edge_to_faces).

(** [_create_edges]: one solid Line per edge. *)
Definition _create_edges (vertices_local : list vec) (edges : list edge)
    (edge_color : string) (stroke_width : R) : result (gmap (nat * nat) Line) :=
  rfold
    (fun objs e =>
       let* start := index vertices_local (fst e) in
       let* end_ := index vertices_local (snd e) in
       Ok (<[ e := BuildLine start end_ edge_color 1 stroke_width ]> objs))
    edges ∅.

Definition __init__ (vertices : list vec) (faces : list (list nat))
    (edge_color vertex_color dashed_color : string) (stroke_width : R)
    (get_center : vec) : result t :=
  let '(edges, edge_to_faces) := _build_edge_topology faces in
  let* edge_objects := _create_edges vertices edges edge_color stroke_width in
  Ok (Build vertices (List.length vertices) faces (List.length faces)
        edge_color vertex_color dashed_color stroke_width
        edges edge_to_faces edge_objects vertices get_center).

(** [_compute_face_normal]. *)
Definition _compute_face_normal (s : t) (face : list nat) : result vec :=
  if (List.length face <? 3)%nat then Ok (V3 0 0 1)
  else
    let* i0 := index face 0 in
    let* i1 := index face 1 in
    let* i2 := index face 2 in
    let* v0 := index (vertices_local s) i0 in
    let* v1 := index (vertices_local s) i1 in
    let* v2 := index (vertices_local s) i2 in
    let vec1 := vsub v1 v0 in
    let vec2 := vsub v2 v0 in
    let normal := cross vec1 vec2 in
    let nrm := norm normal in
    if Rltb nrm 1e-6 then Ok (V3 0 0 1) else Ok (vdiv normal nrm).

(** [_compute_face_center]: the mean of the face's vertices. *)
Definition _compute_face_center (s : t) (face : list nat) : result vec :=
  let* total :=
    rfold (fun acc vertex_idx =>
             let* v := index (vertices_local s) vertex_idx in
             Ok (vadd acc v))
          face (V3 0 0 0) in
  Ok (vdiv total (INR (List.length face))).

(** [_is_face_visible].  The first assignment to [face_center_world] in
    the source takes its else-branch (a group has no points of its own)
    and is overwritten two lines later; it is left out.  A face with no
    vertex has a NaN centre in the source, and a comparison with NaN is
    false. *)
Definition _is_face_visible (s : t) (face_idx : nat) (camera_position : vec)
  : result bool :=
  let* face := index (faces s) face_idx in
  let* face_center_local := _compute_face_center s face in
  let obj_center := center s in
  let face_center_world := vadd obj_center face_center_local in
  let view_vector := vsub face_center_world camera_position in
  let view_vector := vdiv view_vector (norm view_vector + 1e-6) in
  let* normal_local := _compute_face_normal s face in
  let normal_world := normal_local in
  let dot_product := dot view_vector normal_world in
  match face with
  | [] => Ok false
  | _ => Ok (Rltb dot_product 0)
  end.

(** [get_camera_position]: the default camera estimate. *)
Definition get_camera_position : vec :=
  let r := 15 in
  let phi := 30 * DEGREES in
  let theta := -45 * DEGREES in
  V3 (r * sin phi * cos theta) (r * cos phi) (r * sin phi * sin theta).

(** The two branches of the styling in [update_dashed_lines]. *)
Definition hidden_style (s : t) (l : Line) : Line :=
  set_style l (dashed_color s) 0.5 (stroke_width s * 0.7).
Definition solid_style (s : t) (l : Line) : Line :=
  set_style l (edge_color s) 1.0 (stroke_width s).

(** [all(not face_visibility[f] for f in connected_faces)]. *)
Fixpoint all_faces_hidden (face_visibility : list bool) (connected : list nat)
  : result bool :=
  match connected with
  | [] => Ok true
  | f :: rest =>
      let* v := index face_visibility f in
      if negb v then all_faces_hidden face_visibility rest else Ok false
  end.

Definition with_edge_objects (s : t) (objs : gmap (nat * nat) Line) : t :=
  Build (vertices_local s) (n_vertices s) (faces s) (n_faces s)
        (edge_color s) (vertex_color s) (dashed_color s) (stroke_width s)
        (edges s) (edge_to_faces s) objs (vertex_dots s) (center s).

(** [update_dashed_lines]. *)
Definition update_dashed_lines (s : t) (camera_position : option vec) : result t :=
  let camera_position := default get_camera_position camera_position in
  let* face_visibility :=
    rmap (fun face_idx => _is_face_visible s face_idx camera_position)
         (seq 0 (n_faces s)) in
  let* objs :=
    rfold
      (fun objs e =>
         let* line := getitem objs e in
         let* connected_faces := getitem (edge_to_faces s) e in
         let* hidden := all_faces_hidden face_visibility connected_faces in
         if hidden
         then Ok (<[ e := hidden_style s line ]> objs)
         else Ok (<[ e := solid_style s line ]> objs))
      (edges s) (edge_objects s) in
  Ok (with_edge_objects s objs).

End PolyhedronBase.

(** ** components/solid_geometry/cube.py *)

Module CubeGeometry.

(** [self.standard_vertices]: the corners, with A at the origin. *)
Definition standard_vertices (L : R) : list (string * vec) :=
  [ ("A"%string,  V3 0 0 0);
    ("B"%string,  V3 L 0 0);
    ("D"%string,  V3 0 L 0);
    ("C"%string,  V3 L L 0);
    ("A1"%string, V3 0 0 L);
    ("B1"%string, V3 L 0 L);
    ("D1"%string, V3 0 L L);
    ("C1"%string, V3 L L L) ].

Definition vertex_names : list string :=
  [ "A"; "B"; "C"; "D"; "A1"; "B1"; "C1"; "D1" ]%string.

(** [d[name]] on the vertex dictionary: KeyError on an unknown name. *)
Fixpoint lookup_vertex (d : list (string * vec)) (name : string) : result vec :=
  match d with
  | [] => Raise KeyError
  | (k, v) :: d' => if String.eqb k name then Ok v else lookup_vertex d' name
  end.

(** The face list of the constructor, before the orientation pass. *)
Definition initial_faces : list (list nat) :=
  [ [0; 1; 2; 3];
    [4; 5; 6; 7];
    [0; 1; 5; 4];
    [1; 2; 6; 5];
    [2; 3; 7; 6];
    [3; 0; 4; 7] ]%nat.

(** The mean of a list of points, as the accumulate-then-divide loops of
    the source compute it. *)
Definition mean (pts : list vec) : vec :=
  vdiv (foldl vadd (V3 0 0 0) pts) (INR (List.length pts)).

(** The loop body of [_correct_face_normals] for one face. *)
Definition correct_face (vertices : list vec) (center : vec) (face : list nat)
  : result (list nat) :=
  let* i0 := index face 0 in
  let* v0 := index vertices i0 in
  let* i1 := index face 1 in
  let* v1 := index vertices i1 in
  let* i2 := index face 2 in
  let* v2 := index vertices i2 in
  let vec1 := vsub v1 v0 in
  let vec2 := vsub v2 v1 in
  let temp_normal := cross vec1 vec2 in
  let nrm := norm temp_normal in
  if Rltb nrm 1e-6 then Ok face
  else
    let temp_normal := vdiv temp_normal nrm in
    let* pts := rmap (index vertices) face in
    let face_center :=
      vdiv (foldl vadd (V3 0 0 0) pts) (INR (List.length face)) in
    let check_vec := vsub face_center center in
    let check_vec := vdiv check_vec (norm check_vec + 1e-6) in
    if Rltb (dot temp_normal check_vec) 0 then Ok (rev face) else Ok face.

(** [_correct_face_normals]. *)
Definition _correct_face_normals (vertices : list vec) (faces : list (list nat))
  : result (list (list nat)) :=
  let center := mean vertices in
  rmap (correct_face vertices center) faces.

(** The constructor.  [get_center] is the renderer's centre of the
    finished group (edges, dots, anchors and, when shown, the axes);
    the axes and the labels are rendering and are left out.  The colours
    and the stroke width are the keyword arguments passed on to the base
    class. *)
Definition __init__ (side_length : R) (origin_point : string)
    (edge_color vertex_color dashed_color : string) (stroke_width : R)
    (get_center : vec) : result PolyhedronBase.t :=
  let origin_point := upper origin_point in
  let L := side_length in
  let* origin := lookup_vertex (standard_vertices L) origin_point in
  let offset := vneg origin in
  let* vertices :=
    rmap (fun name =>
            let* v := lookup_vertex (standard_vertices L) name in
            Ok (vadd v offset))
         vertex_names in
  let* faces := _correct_face_normals vertices initial_faces in
  PolyhedronBase.__init__ vertices faces
    edge_color vertex_color dashed_color stroke_width get_center.

(** [update_dashed_lines] of the subclass only calls the base class. *)
Definition update_dashed_lines := PolyhedronBase.update_dashed_lines.

(** [get_global_vertices]: the centres the renderer reports for the
    hidden anchor dots, in the order of the vertices.  [anchors] is that
    list: the constructor places one anchor at each vertex, and a
    transformation of the cube moves them with it. *)
Definition get_global_vertices (anchors : list vec) : list vec := anchors.

(** [get_geometric_center]: the mean of the anchors' centres. *)
Definition get_geometric_center (anchors : list vec) : vec :=
  mean (get_global_vertices anchors).

(** [get_vertex_coord]: [self._vertex_anchors[index].get_center()]. *)
Definition get_vertex_coord (anchors : list vec) (i : nat) : result vec :=
  index anchors i.

End CubeGeometry.

(** ** The vocabulary of the stated properties *)

(** *** Conics *)

(** The abscissa of a sample on the left or on the right branch. *)
Definition branch_x (d : StandardHyperbola.side) (x : R) : R :=
  match d with StandardHyperbola.SLeft => - x | StandardHyperbola.SRight => x end.

(** The equation of the hyperbola with semi-axes a and b. *)
Definition on_hyperbola (a b : R) (p : vec) : Prop :=
  vx p ^ 2 / a ^ 2 - vy p ^ 2 / b ^ 2 = 1.

(** The i-th of the 80 abscissae sampled over [a, a + 4]: evenly spaced,
    the first at a and the last at a + 4. *)
Definition sample_x (a : R) (i : nat) : R := a + INR i * (4 / 79).

(** The upper or the lower half of a branch. *)
Inductive half : Type := Upper | Lower.

(** What the specification says of one sampled half-branch: 80 points,
    the i-th at the abscissa x_i (negated on the left branch), with
    y = b·sqrt(x_i²/a² - 1) on the upper half and y = -b·sqrt(x_i²/a² - 1)
    on the lower half, in the plane z = 0 and on the curve. *)
Definition sampled_half (a b : R) (d : StandardHyperbola.side) (h : half)
    (pts : list vec) : Prop :=
  List.length pts = 80%nat /\
  forall i, (i < 80)%nat ->
    exists p,
      pts !! i = Some p /\
      vx p = branch_x d (sample_x a i) /\
      vy p = (match h with Upper => b | Lower => - b end)
             * sqrt (sample_x a i ^ 2 / a ^ 2 - 1) /\
      vz p = 0 /\
      on_hyperbola a b p.

(** The corner points of one half-branch, as one list. *)
Definition half_points (a b : R) (d : StandardHyperbola.side) (h : half) : list vec :=
  map (fun x =>
         V3 (branch_x d x)
            ((match h with Upper => b | Lower => - b end) * sqrt (x ^ 2 / a ^ 2 - 1))
            0)
      (linspace a (a + 4) 80).

(** The half-branches drawn for a branch string, in the order they are
    added: the left pair, the right pair, both pairs, or none. *)
Definition drawn_halves (branch : string) : list (StandardHyperbola.side * half) :=
  if String.eqb branch "left" then
    [(StandardHyperbola.SLeft, Upper); (StandardHyperbola.SLeft, Lower)]
  else if String.eqb branch "right" then
    [(StandardHyperbola.SRight, Upper); (StandardHyperbola.SRight, Lower)]
  else if String.eqb branch "both" then
    [(StandardHyperbola.SLeft, Upper); (StandardHyperbola.SLeft, Lower);
     (StandardHyperbola.SRight, Upper); (StandardHyperbola.SRight, Lower)]
  else [].

(** The four direction names the constructor recognises, with the unit
    vector of each. *)
Definition cardinal_directions : list (string * vec) :=
  [ ("RIGHT"%string, RIGHT); ("LEFT"%string, LEFT);
    ("UP"%string, UP); ("DOWN"%string, DOWN) ].

Definition cardinal_names : list string := map fst cardinal_directions.

(** *** Polyhedra *)

(** The vertex with a given index, the mean of a face's vertices and the
    right-hand-rule cross product on a face's first three vertices, read
    off a vertex list directly.  On a constructed polyhedron every index
    is in range and these agree with what the methods compute. *)
Definition vertex (vs : list vec) (i : nat) : vec := default (V3 0 0 0) (vs !! i).

Definition face_center (vs : list vec) (face : list nat) : vec :=
  vdiv (foldl vadd (V3 0 0 0) (map (vertex vs) face)) (INR (List.length face)).

Definition rh_cross (vs : list vec) (face : list nat) : vec :=
  cross (vsub (vertex vs (nth 1 face 0%nat)) (vertex vs (nth 0 face 0%nat)))
        (vsub (vertex vs (nth 2 face 0%nat)) (vertex vs (nth 0 face 0%nat))).

(** A face is degenerate for the normal computation when it has fewer
    than three vertices or its cross product is shorter than 1e-6. *)
Definition degenerate (vs : list vec) (face : list nat) : Prop :=
  (List.length face < 3)%nat \/ norm (rh_cross vs face) < 1e-6.

(** The unit normal the visibility test uses: the normalised cross
    product, or (0, 0, 1) for a degenerate face. *)
Definition face_normal (vs : list vec) (face : list nat) : vec :=
  if (List.length face <? 3)%nat then V3 0 0 1
  else if Rltb (norm (rh_cross vs face)) 1e-6 then V3 0 0 1
  else vdiv (rh_cross vs face) (norm (rh_cross vs face)).

(** The view vector as [_is_face_visible] computes it: from the camera to
    the group's centre plus the mean of the face's vertices.  The vertices
    are the coordinates the edges are drawn at, so the mean of a face's
    vertices is already where the face is; the source adds the group's
    centre to it. *)
Definition view_raw (s : PolyhedronBase.t) (face : list nat) (cam : vec) : vec :=
  vsub (vadd (PolyhedronBase.center s)
             (face_center (PolyhedronBase.vertices_local s) face)) cam.

(** The view direction: [view_raw] scaled by 1 / (its norm + 1e-6). *)
Definition view_direction (s : PolyhedronBase.t) (face : list nat) (cam : vec) : vec :=
  vdiv (view_raw s face cam) (norm (view_raw s face cam) + 1e-6).

(** Face [f] is front-facing (visible) from [cam]. *)
Definition front_facing (s : PolyhedronBase.t) (f : nat) (cam : vec) : Prop :=
  exists face,
    PolyhedronBase.faces s !! f = Some face /\ face <> [] /\
    dot (view_direction s face cam)
        (face_normal (PolyhedronBase.vertices_local s) face) < 0.

(** The same test without the two normalisations: the sign of the dot
    product of [view_raw] with the right-hand-rule cross product itself. *)
Definition front_facing_rh (s : PolyhedronBase.t) (f : nat) (cam : vec) : Prop :=
  exists face,
    PolyhedronBase.faces s !! f = Some face /\
    dot (view_raw s face cam)
        (rh_cross (PolyhedronBase.vertices_local s) face) < 0.

(** Face [f] is incident to edge [e]: [e] joins two cyclically
    consecutive vertices of the face. *)
Definition incident (faces : list (list nat)) (e : PolyhedronBase.edge) (f : nat) : Prop :=
  exists face, faces !! f = Some face /\ e ∈ PolyhedronBase.face_edges face.

(** The two stroke styles, as properties of a line of the polyhedron. *)
Definition styled_hidden (s : PolyhedronBase.t) (l : PolyhedronBase.Line) : Prop :=
  PolyhedronBase.stroke_color l = PolyhedronBase.dashed_color s /\
  PolyhedronBase.stroke_opacity l = 0.5 /\
  PolyhedronBase.line_stroke_width l = PolyhedronBase.stroke_width s * 0.7.

Definition styled_solid (s : PolyhedronBase.t) (l : PolyhedronBase.Line) : Prop :=
  PolyhedronBase.stroke_color l = PolyhedronBase.edge_color s /\
  PolyhedronBase.stroke_opacity l = 1 /\
  PolyhedronBase.line_stroke_width l = PolyhedronBase.stroke_width s.

(** The camera used by a call: the given one, or the default estimate. *)
Definition camera_of (camera_position : option vec) : vec :=
  default PolyhedronBase.get_camera_position camera_position.

(** The polyhedron states a program can hold: the result of the
    constructor, and the result of [update_dashed_lines] on such a state. *)
Inductive reachable : PolyhedronBase.t -> Prop :=
  | reach_init vertices faces edge_color vertex_color dashed_color stroke_width
               get_center s :
      PolyhedronBase.__init__ vertices faces edge_color vertex_color dashed_color
        stroke_width get_center = Ok s ->
      reachable s
  | reach_update s camera_position s' :
      reachable s ->
      PolyhedronBase.update_dashed_lines s camera_position = Ok s' ->
      reachable s'.

(** The flag [_is_face_visible] returns for a face. *)
Definition visible_flag (s : PolyhedronBase.t) (face : list nat) (cam : vec) : bool :=
  match face with
  | [] => false
  | _ => Rltb (dot (view_direction s face cam)
                   (face_normal (PolyhedronBase.vertices_local s) face)) 0
  end.

(** The condition under which [update_dashed_lines] gives an edge the
    hidden style: none of the faces recorded for the edge is visible. *)
Definition edge_hidden (s : PolyhedronBase.t) (cam : vec) (e : PolyhedronBase.edge) : bool :=
  forallb (fun f => negb (visible_flag s (default [] (PolyhedronBase.faces s !! f)) cam))
          (default [] (PolyhedronBase.edge_to_faces s !! e)).

Definition restyle (s : PolyhedronBase.t) (hidden : bool) (l : PolyhedronBase.Line)
  : PolyhedronBase.Line :=
  if hidden then PolyhedronBase.hidden_style s l else PolyhedronBase.solid_style s l.

(** The invariant the constructor establishes. *)
Definition well_formed (s : PolyhedronBase.t) : Prop :=
  PolyhedronBase.n_faces s = List.length (PolyhedronBase.faces s) /\
  (forall face v, face ∈ PolyhedronBase.faces s -> v ∈ face ->
                  (v < List.length (PolyhedronBase.vertices_local s))%nat) /\
  (forall e, e ∈ PolyhedronBase.edges s <-> exists f, incident (PolyhedronBase.faces s) e f) /\
  (forall e f, f ∈ default [] (PolyhedronBase.edge_to_faces s !! e)
               <-> incident (PolyhedronBase.faces s) e f) /\
  (forall e, is_Some (PolyhedronBase.edge_to_faces s !! e) <-> e ∈ PolyhedronBase.edges s) /\
  (forall e, is_Some (PolyhedronBase.edge_objects s !! e) <-> e ∈ PolyhedronBase.edges s).

(** A small triangle in the plane z = 0, seen from below. *)
Definition tiny_triangle : list vec :=
  [V3 0 0 0; V3 0 (1 / 10000) 0; V3 (1 / 10000) 0 0].

(** Two states differ in nothing but the stroke style of their lines. *)
Definition same_but_styles (s s1 : PolyhedronBase.t) : Prop :=
  PolyhedronBase.vertices_local s1 = PolyhedronBase.vertices_local s /\
  PolyhedronBase.n_vertices s1 = PolyhedronBase.n_vertices s /\
  PolyhedronBase.faces s1 = PolyhedronBase.faces s /\
  PolyhedronBase.n_faces s1 = PolyhedronBase.n_faces s /\
  PolyhedronBase.edge_color s1 = PolyhedronBase.edge_color s /\
  PolyhedronBase.vertex_color s1 = PolyhedronBase.vertex_color s /\
  PolyhedronBase.dashed_color s1 = PolyhedronBase.dashed_color s /\
  PolyhedronBase.stroke_width s1 = PolyhedronBase.stroke_width s /\
  PolyhedronBase.edges s1 = PolyhedronBase.edges s /\
  PolyhedronBase.edge_to_faces s1 = PolyhedronBase.edge_to_faces s /\
  PolyhedronBase.vertex_dots s1 = PolyhedronBase.vertex_dots s /\
  PolyhedronBase.center s1 = PolyhedronBase.center s /\
  forall e,
    match PolyhedronBase.edge_objects s !! e, PolyhedronBase.edge_objects s1 !! e with
    | Some l, Some l1 =>
        PolyhedronBase.line_start l1 = PolyhedronBase.line_start l /\
        PolyhedronBase.line_end l1 = PolyhedronBase.line_end l
    | None, None => True
    | _, _ => False
    end.

(** *** The cube *)

(** The corners of the cube in the order of [vertex_names], before the
    offset that moves the chosen origin corner to (0, 0, 0). *)
Definition cube_base (L : R) : list vec :=
  [ V3 0 0 0; V3 L 0 0; V3 L L 0; V3 0 L 0;
    V3 0 0 L; V3 L 0 L; V3 L L L; V3 0 L L ].

Definition cube_vertices (L : R) (offset : vec) : list vec :=
  map (fun v => vadd v offset) (cube_base L).

(** The face list once the bottom face has been reversed. *)
Definition cube_faces : list (list nat) :=
  [ [3; 2; 1; 0];
    [4; 5; 6; 7];
    [0; 1; 5; 4];
    [1; 2; 6; 5];
    [2; 3; 7; 6];
    [3; 0; 4; 7] ]%nat.

(** The cross product of the first two consecutive edge vectors of a
    face, as [_correct_face_normals] forms it. *)
Definition consecutive_cross (vs : list vec) (face : list nat) : vec :=
  cross (vsub (vertex vs (nth 1 face 0%nat)) (vertex vs (nth 0 face 0%nat)))
        (vsub (vertex vs (nth 2 face 0%nat)) (vertex vs (nth 1 face 0%nat))).

(** The face's normal points away from the centre of the solid. *)
Definition outward (vs : list vec) (face : list nat) : Prop :=
  0 <= dot (consecutive_cross vs face)
           (vsub (face_center vs face) (CubeGeometry.mean vs)).

(** The edges of the cube: those of the face z = L (vertices A1 B1 C1 D1),
    which a camera on the +Z side sees from the front, those of the
    opposite face z = 0 (A B C D), and the four joining the two. *)
Definition front_edges : list (nat * nat) := [(4, 5); (5, 6); (6, 7); (4, 7)]%nat.
Definition back_edges : list (nat * nat) := [(0, 1); (1, 2); (2, 3); (0, 3)]%nat.
Definition lateral_edges : list (nat * nat) := [(0, 4); (1, 5); (2, 6); (3, 7)]%nat.

(** The point the visibility test measures a cube's faces from: the
    group's centre plus the mean of the vertices.  It is the centre of the
    drawn cube only when the group's centre is the origin. *)
Definition cube_world_center (s : PolyhedronBase.t) : vec :=
  vadd (PolyhedronBase.center s) (CubeGeometry.mean (PolyhedronBase.vertices_local s)).

(** A camera within L/2 of [cube_world_center] in x and in y and more than
    L/2 beyond it in z.  This box is laid around the point the test
    measures from, not around the cube as drawn: it is a sufficient
    condition for the test to find the face z = L front-facing and the
    five others back-facing, and nothing more. *)
Definition front_view (L : R) (s : PolyhedronBase.t) (cam : vec) : Prop :=
  Rabs (vx cam - vx (cube_world_center s)) <= L / 2 /\
  Rabs (vy cam - vy (cube_world_center s)) <= L / 2 /\
  vz (cube_world_center s) + L / 2 < vz cam.

(** *** Distances and curves *)

(** The distance between two points. *)
Definition dist (u v : vec) : R := norm (vsub u v).

(** The distance from a point to the directrix of a parabola: the
    vertical or the horizontal line through [dpos]. *)
Definition directrix_distance (o : StandardParabola.orientation) (dpos q : vec) : R :=
  match o with
  | StandardParabola.Vertical => Rabs (vx q - vx dpos)
  | StandardParabola.Horizontal => Rabs (vy q - vy dpos)
  end.

(** The equation of the ellipse with semi-axes a and b around [center],
    in the drawing plane. *)
Definition on_ellipse (a b : R) (center p : vec) : Prop :=
  (vx p - vx center) ^ 2 / a ^ 2 + (vy p - vy center) ^ 2 / b ^ 2 = 1.

(** The mirror image of a point in the x-axis. *)
Definition mirror_x (p : vec) : vec := V3 (vx p) (- vy p) (vz p).

(** *** Lines *)

(** The left-hand side of the general form A·x + B·y + C = 0 of a stored
    line, at a point. *)
Definition general_form (l : StandardLine.t) (q : vec) : R :=
  StandardLine.A l * vx q + StandardLine.B l * vy q + StandardLine.C l.

(** The tangent line at the point [T] of the ellipse with semi-axes a and
    b around [center]: a point [q] lies on it when
    (x - cx)(xT - cx)/a² + (y - cy)(yT - cy)/b² = 1. *)
Definition on_tangent_at (a b : R) (center T q : vec) : Prop :=
  (vx q - vx center) * (vx T - vx center) / a ^ 2
  + (vy q - vy center) * (vy T - vy center) / b ^ 2 = 1.

(** Every vertex index of every face is in range. *)
Definition indices_in_range (vertices : list vec) (faces : list (list nat)) : Prop :=
  Forall (Forall (fun v => (v < List.length vertices)%nat)) faces.

(** A polyhedron state with the vertices and the one face of the small
    triangle, centred at [center], before any edge is recorded. *)
Definition triangle_state (center : vec) : PolyhedronBase.t :=
  PolyhedronBase.Build tiny_triangle 3 [[0; 1; 2]]%nat 1 "WHITE" "YELLOW" "GRAY" 4
    [] ∅ ∅ tiny_triangle center.

(** What the orientation pass may do to a face: keep it or reverse it. *)
Definition kept_or_reversed (face face' : list nat) : Prop :=
  face' = face \/ face' = rev face.

(** The twelve edges of the cube. *)
Definition cube_edges : list (nat * nat) := front_edges ++ back_edges ++ lateral_edges.

(** The reading of front-facing in the statement of C1, on the face as it
    is drawn: the view vector goes from the camera to the mean of the
    face's vertices, and its dot product with the right-hand-rule cross
    product is negative. *)
Definition faces_camera (vs : list vec) (face : list nat) (cam : vec) : Prop :=
  dot (vsub (face_center vs face) cam) (rh_cross vs face) < 0.

(** The edge has a line in the state [s'] and the line has the hidden
    style, or the solid style, of [s]. *)
Definition edge_is_hidden (s s' : PolyhedronBase.t) (e : nat * nat) : Prop :=
  exists line', PolyhedronBase.edge_objects s' !! e = Some line' /\ styled_hidden s line'.

Definition edge_is_solid (s s' : PolyhedronBase.t) (e : nat * nat) : Prop :=
  exists line', PolyhedronBase.edge_objects s' !! e = Some line' /\ styled_solid s line'.

(** The visibility test finds the face z = L of the cube (index 1, the
    face A1 B1 C1 D1) front-facing and no other face. *)
Definition only_front_face_visible (s : PolyhedronBase.t) (cam : vec) : Prop :=
  forall f, PolyhedronBase._is_face_visible s f cam = Ok true <-> f = 1%nat.

(** Modelled from the spec: the ray of the X axis.  The source draws the
    axis along [rotate_vector(RIGHT, x_axis_angle)], a function of the
    rendering engine: the unit vector at that angle in the drawing plane,
    whose slope is the k = tan(x_axis_angle) of the specification's ray
    y = k·x. *)
Definition axis_direction (angle : R) : vec := V3 (cos angle) (sin angle) 0.

(** The offset lies on the ray from the centre along [d], or on the
    opposite ray. *)
Definition on_ray (d offset : vec) : Prop :=
  exists t, 0 < t /\ offset = vscale d t.

Definition on_opposite_ray (d offset : vec) : Prop :=
  exists t, 0 < t /\ offset = vscale d (- t).

(** An edge lies on exactly two faces. *)
Definition on_two_faces (faces : list (list nat)) (e : nat * nat) : Prop :=
  exists f1 f2, f1 <> f2 /\ forall f, incident faces e f <-> f = f1 \/ f = f2.

(** * Properties *)

#[local] Set Warnings "-clear-no-such-hyp".

(** ** Comparisons and square roots *)

Lemma Rltb_true (x y : R) : Rltb x y = true <-> x < y.
Proof. unfold Rltb. destruct (Rlt_dec x y); split; intros; (done || lra). Qed.

Lemma Rltb_false (x y : R) : Rltb x y = false <-> y <= x.
Proof. unfold Rltb. destruct (Rlt_dec x y); split; intros; (done || lra). Qed.

Lemma Rleb_true (x y : R) : Rleb x y = true <-> x <= y.
Proof. unfold Rleb. destruct (Rle_dec x y); split; intros; (done || lra). Qed.

Lemma Rleb_false (x y : R) : Rleb x y = false <-> y < x.
Proof. unfold Rleb. destruct (Rle_dec x y); split; intros; (done || lra). Qed.

Lemma Reqb_true (x y : R) : Reqb x y = true <-> x = y.
Proof. unfold Reqb. destruct (Req_dec_T x y); split; intros; (done || lra). Qed.

Lemma Reqb_false (x y : R) : Reqb x y = false <-> x <> y.
Proof. unfold Reqb. destruct (Req_dec_T x y); split; intros; (done || lra). Qed.

Lemma math_sqrt_ok (x : R) : 0 <= x -> math_sqrt x = Ok (sqrt x).
Proof.
  intros Hx. unfold math_sqrt.
  destruct (Rltb x 0) eqn:E; [apply Rltb_true in E; lra | reflexivity].
Qed.

Lemma math_sqrt_raises (x : R) : x < 0 -> math_sqrt x = Raise ValueError.
Proof.
  intros Hx. unfold math_sqrt.
  destruct (Rltb x 0) eqn:E; [reflexivity | apply Rltb_false in E; lra].
Qed.

Lemma py_div_ok (x y : R) : y <> 0 -> py_div x y = Ok (x / y).
Proof.
  intros Hy. unfold py_div.
  destruct (Reqb y 0) eqn:E; [apply Reqb_true in E; done | reflexivity].
Qed.

Lemma py_div_raises (x : R) : py_div x 0 = Raise ZeroDivisionError.
Proof.
  unfold py_div. destruct (Reqb 0 0) eqn:E; [reflexivity | apply Reqb_false in E; done].
Qed.

(** A square root is below a positive bound exactly when its argument is
    below the bound's square. *)
Lemma sqrt_lt_iff (x y : R) : 0 <= x -> 0 < y -> (sqrt x < y <-> x < y * y).
Proof.
  intros Hx Hy. rewrite <- (sqrt_square y) at 1 by lra. split.
  - intros H. apply sqrt_lt_0_alt in H. exact H.
  - intros H. apply sqrt_lt_1_alt. lra.
Qed.

Lemma vscale_LEFT (k : R) : vscale LEFT k = V3 (- k) 0 0.
Proof. unfold vscale, LEFT; simpl. f_equal; ring. Qed.

Lemma vscale_RIGHT (k : R) : vscale RIGHT k = V3 k 0 0.
Proof. unfold vscale, RIGHT; simpl. f_equal; ring. Qed.

Lemma vscale_UP (k : R) : vscale UP k = V3 0 k 0.
Proof. unfold vscale, UP; simpl. f_equal; ring. Qed.

Lemma vscale_DOWN (k : R) : vscale DOWN k = V3 0 (- k) 0.
Proof. unfold vscale, DOWN; simpl. f_equal; ring. Qed.

(** ** The ellipse *)

Lemma ellipse_focal_inside (a b : R) : 0 < b -> b <= a -> sqrt (a ^ 2 - b ^ 2) < a.
Proof.
  intros Hb Hab. apply sqrt_lt_iff; nra.
Qed.

Lemma ellipse_focal_zero (a b : R) :
  0 < b -> b <= a -> (sqrt (a ^ 2 - b ^ 2) = 0 <-> a = b).
Proof.
  intros Hb Hab. split.
  - intros H. apply sqrt_eq_0 in H; nra.
  - intros ->. replace (b ^ 2 - b ^ 2) with 0 by ring. apply sqrt_0.
Qed.

(** The constructor also raises when a >= b but the radicand a² - b² is
    negative (math domain error), and when a = b and the directrices are
    requested (division by c = 0). *)
Lemma StandardEllipse_raises_beyond_a_lt_b :
  (raises (StandardEllipse.__init__ 1 (-2) true true false) /\ ~ 1 < -2) /\
  (raises (StandardEllipse.__init__ 2 2 true true true) /\ ~ 2 < 2).
Proof.
  split; split; try lra.
  - unfold StandardEllipse.__init__.
    destruct (Rltb 1 (-2)) eqn:E; [exact I |].
    rewrite math_sqrt_raises by lra. exact I.
  - unfold StandardEllipse.__init__.
    destruct (Rltb 2 2) eqn:E; [exact I |].
    rewrite math_sqrt_ok by lra. simpl.
    unfold StandardEllipse._get_directrix.
    replace (sqrt (2 * (2 * 1) - 2 * (2 * 1))) with 0.
    + rewrite py_div_raises. exact I.
    + replace (2 * (2 * 1) - 2 * (2 * 1)) with 0 by ring. symmetry. apply sqrt_0.
Qed.

(** In binary64 the focal distance of the ellipse with a = 1e8 and b = 1
    is a itself: a² - b² = 1e16 - 1 lies half-way between two floats and
    rounds to 1e16, whose square root is 1e8. *)
Lemma ellipse_c_binary64_reaches_a :
  StandardEllipse.c_binary64 1e8%float 1%float = 1e8%float.
Proof. vm_compute. reflexivity. Qed.

(** C5, as stated, fails three times.  The constructor raises although
    a >= b at a = 1, b = -2 (math domain error) and at a = b = 2 with the
    directrices requested (division by c = 0).  And c < a is not what the
    program computes at a = 1e8, b = 1, where a >= b > 0: in binary64 the
    focal distance is equal to a, so the foci are on the ellipse, at its
    vertices. *)
Lemma StandardEllipse_raises_more_and_c_reaches_a :
  (raises (StandardEllipse.__init__ 1 (-2) true true false) /\ ~ 1 < -2) /\
  (raises (StandardEllipse.__init__ 2 2 true true true) /\ ~ 2 < 2) /\
  (PrimFloat.ltb 0%float 1%float = true /\
   PrimFloat.leb 1%float 1e8%float = true /\
   PrimFloat.ltb (StandardEllipse.c_binary64 1e8%float 1%float) 1e8%float = false /\
   PrimFloat.eqb (StandardEllipse.c_binary64 1e8%float 1%float) 1e8%float = true).
Proof.
  split; [exact (proj1 StandardEllipse_raises_beyond_a_lt_b) |].
  split; [exact (proj2 StandardEllipse_raises_beyond_a_lt_b) |].
  rewrite ellipse_c_binary64_reaches_a. vm_compute. tauto.
Qed.

(** C5, amended: for b > 0 the constructor raises exactly when a < b, or
    when a = b and the directrices are requested; whenever it returns,
    a >= b, the focal distance is c = sqrt(a² - b²), the foci (when shown)
    are the dots at (-c, 0) and (c, 0), and 0 <= c <= a: the foci lie
    inside the ellipse or on it. *)
Theorem StandardEllipse_construction (a b : R) (show_foci show_vertices show_directrix : bool) :
  0 < b ->
  (raises (StandardEllipse.__init__ a b show_foci show_vertices show_directrix)
     <-> a < b \/ (show_directrix = true /\ a = b)) /\
  (forall e,
      StandardEllipse.__init__ a b show_foci show_vertices show_directrix = Ok e ->
      b <= a /\
      StandardEllipse.c e = sqrt (a ^ 2 - b ^ 2) /\
      StandardEllipse.foci e =
        (if show_foci
         then Some (V3 (- StandardEllipse.c e) 0 0, V3 (StandardEllipse.c e) 0 0)
         else None) /\
      0 <= StandardEllipse.c e <= a).
Proof.
  intros Hb. unfold StandardEllipse.__init__.
  destruct (Rltb a b) eqn:Hlt.
  - apply Rltb_true in Hlt. split; [simpl; tauto | intros e He; discriminate].
  - apply Rltb_false in Hlt.
    rewrite math_sqrt_ok by nra. cbn [rbind].
    rewrite vscale_LEFT, vscale_RIGHT.
    pose proof (ellipse_focal_inside a b Hb Hlt) as Hin.
    pose proof (sqrt_pos (a ^ 2 - b ^ 2)) as Hpos.
    destruct show_directrix.
    + unfold StandardEllipse._get_directrix.
      destruct (Req_dec_T a b) as [-> | Hne].
      * replace (b ^ 2 - b ^ 2) with 0 by ring. rewrite sqrt_0.
        rewrite py_div_raises. cbn [rbind].
        split; [simpl; split; [right; done | done] | intros e He; discriminate].
      * assert (Hc : sqrt (a ^ 2 - b ^ 2) <> 0).
        { intros H. apply (proj1 (ellipse_focal_zero a b Hb Hlt)) in H. contradiction. }
        rewrite py_div_ok by exact Hc. cbn [rbind].
        split.
        -- simpl. split; [done | intros [H | [_ H]]; [lra | done]].
        -- intros e He. injection He as <-.
           cbn [StandardEllipse.c StandardEllipse.foci].
           repeat split; [exact Hlt | apply sqrt_pos | apply Rlt_le, sqrt_lt_iff; nra].
    + cbn [rbind]. split.
      * simpl. split; [done | intros [H | [H _]]; [lra | done]].
      * intros e He. injection He as <-.
        cbn [StandardEllipse.c StandardEllipse.foci].
        repeat split; [exact Hlt | apply sqrt_pos | apply Rlt_le, sqrt_lt_iff; nra].
Qed.

Lemma StandardEllipse_construction_witness :
  exists e, StandardEllipse.__init__ 3 2 true true false = Ok e /\
            StandardEllipse.c e = sqrt (3 ^ 2 - 2 ^ 2) /\
            0 <= StandardEllipse.c e <= 3.
Proof.
  pose proof (StandardEllipse_construction 3 2 true true false ltac:(lra)) as [_ H].
  unfold StandardEllipse.__init__ in *.
  destruct (Rltb 3 2) eqn:E; [apply Rltb_true in E; lra |].
  rewrite math_sqrt_ok in * by lra. cbn [rbind] in *.
  eexists; split; [reflexivity |].
  specialize (H _ eq_refl). cbn in H. cbn. tauto.
Defined.

(** ** Loops and samples *)

Lemma rmap_ok {A B : Type} (f : A -> result B) (g : A -> B) (l : list A) :
  (forall x, In x l -> f x = Ok (g x)) -> rmap f l = Ok (map g l).
Proof.
  induction l as [| x l IH]; intros H; [reflexivity |].
  cbn [rmap map]. rewrite (H x) by (left; reflexivity). cbn [rbind].
  rewrite IH by (intros y Hy; apply H; right; exact Hy). reflexivity.
Qed.

Lemma linspace_length (start stop : R) (num : nat) :
  List.length (linspace start stop num) = num.
Proof. unfold linspace. rewrite length_map, length_seq. reflexivity. Qed.

Lemma linspace_bounds (start stop : R) (num : nat) (x : R) :
  start <= stop -> In x (linspace start stop num) -> start <= x <= stop.
Proof.
  intros Hle Hin. unfold linspace in Hin.
  apply in_map_iff in Hin as (i & <- & Hi).
  apply in_seq in Hi. destruct Hi as [_ Hi]. simpl in Hi.
  destruct (Nat.eq_dec (num - 1)%nat 0%nat) as [Hz | Hnz].
  - assert (i = 0%nat) by lia. subst i. simpl. lra.
  - assert (Hn : 0 < INR (num - 1)) by (apply lt_0_INR; lia).
    assert (Hi0 : 0 <= INR i) by apply pos_INR.
    assert (Hi1 : INR i <= INR (num - 1)) by (apply le_INR; lia).
    set (n := INR (num - 1)) in *. set (k := INR i) in *.
    assert (Hq : 0 <= k / n <= 1).
    { split.
      - apply Rmult_le_pos; [exact Hi0 | left; apply Rinv_0_lt_compat; exact Hn].
      - apply (Rmult_le_reg_r n); [exact Hn |]. field_simplify; lra. }
    replace (k * ((stop - start) / n)) with ((k / n) * (stop - start)) by (field; lra).
    nra.
Qed.

(** ** The hyperbola *)



Lemma hyperbola_radicand (a x : R) : 0 < a -> a <= x -> 0 <= x ^ 2 / a ^ 2 - 1.
Proof.
  intros Ha Hx.
  assert (H : 1 <= x ^ 2 / a ^ 2).
  { apply (Rmult_le_reg_r (a ^ 2)); [nra |]. field_simplify; nra. }
  lra.
Qed.

Lemma hyperbola_branch_upper (a b : R) (d : StandardHyperbola.side) :
  0 < a ->
  StandardHyperbola._create_hyperbola_branch_upper a b d =
    Ok (map (fun x => V3 (branch_x d x) (b * sqrt (x ^ 2 / a ^ 2 - 1)) 0)
            (linspace a (a + 4) 80)).
Proof.
  intros Ha. unfold StandardHyperbola._create_hyperbola_branch_upper.
  apply rmap_ok. intros x Hx. apply linspace_bounds in Hx; [| lra].
  rewrite math_sqrt_ok by (apply hyperbola_radicand; lra).
  destruct d; reflexivity.
Qed.

Lemma hyperbola_branch_lower (a b : R) (d : StandardHyperbola.side) :
  0 < a ->
  StandardHyperbola._create_hyperbola_branch_lower a b d =
    Ok (map (fun x => V3 (branch_x d x) (- b * sqrt (x ^ 2 / a ^ 2 - 1)) 0)
            (linspace a (a + 4) 80)).
Proof.
  intros Ha. unfold StandardHyperbola._create_hyperbola_branch_lower.
  apply rmap_ok. intros x Hx. apply linspace_bounds in Hx; [| lra].
  rewrite math_sqrt_ok by (apply hyperbola_radicand; lra).
  destruct d; reflexivity.
Qed.


Lemma branch_x_sqr (d : StandardHyperbola.side) (x : R) : branch_x d x ^ 2 = x ^ 2.
Proof. destruct d; simpl; ring. Qed.

Lemma branch_x_abs (d : StandardHyperbola.side) (x : R) : 0 <= x -> Rabs (branch_x d x) = x.
Proof.
  intros Hx. destruct d; simpl.
  - rewrite Rabs_Ropp. apply Rabs_pos_eq. exact Hx.
  - apply Rabs_pos_eq. exact Hx.
Qed.

Lemma linspace_lookup (start stop : R) (num i : nat) :
  (i < num)%nat ->
  linspace start stop num !! i
  = Some (start + INR i * ((stop - start) / INR (num - 1))).
Proof.
  intros Hi. unfold linspace. rewrite list_lookup_fmap.
  rewrite lookup_seq_lt by exact Hi. reflexivity.
Qed.

(** The 80 abscissae of a branch are the [sample_x]. *)
Lemma sample_x_lookup (a : R) (i : nat) :
  (i < 80)%nat -> linspace a (a + 4) 80 !! i = Some (sample_x a i).
Proof.
  intros Hi. rewrite linspace_lookup by exact Hi. unfold sample_x.
  change (80 - 1)%nat with 79%nat. rewrite (INR_IZR_INZ 79).
  change (Z.of_nat 79) with 79%Z. do 2 f_equal. field.
Qed.

Lemma sample_x_ends (a : R) : sample_x a 0 = a /\ sample_x a 79 = a + 4.
Proof.
  unfold sample_x. rewrite (INR_IZR_INZ 79), (INR_IZR_INZ 0).
  change (Z.of_nat 79) with 79%Z. change (Z.of_nat 0) with 0%Z. split; field.
Qed.

Lemma sample_x_ge (a : R) (i : nat) : a <= sample_x a i.
Proof. unfold sample_x. pose proof (pos_INR i). nra. Qed.

Lemma half_points_sampled (a b : R) (d : StandardHyperbola.side) (h : half) :
  0 < a -> 0 < b -> sampled_half a b d h (half_points a b d h).
Proof.
  intros Ha Hb. unfold half_points. split.
  - rewrite length_map. apply linspace_length.
  - intros i Hi. eexists. split.
    + rewrite list_lookup_fmap, (sample_x_lookup a i Hi). reflexivity.
    + cbn [vx vy vz]. split; [reflexivity |]. split; [reflexivity |].
      split; [reflexivity |].
      unfold on_hyperbola. cbn [vx vy]. rewrite branch_x_sqr.
      set (x := sample_x a i).
      pose proof (hyperbola_radicand a x Ha (sample_x_ge a i)) as Hr.
      set (sgn := match h with Upper => b | Lower => - b end).
      assert (Hs : sgn ^ 2 = b ^ 2) by (unfold sgn; destruct h; ring).
      replace ((sgn * sqrt (x ^ 2 / a ^ 2 - 1)) ^ 2)
        with (sgn ^ 2 * (sqrt (x ^ 2 / a ^ 2 - 1) * sqrt (x ^ 2 / a ^ 2 - 1))) by ring.
      rewrite sqrt_sqrt by exact Hr. rewrite Hs. field. lra.
Qed.

Lemma hyperbola_both_halves (a b : R) (d : StandardHyperbola.side) :
  0 < a ->
  StandardHyperbola.both_halves a b d
  = Ok [half_points a b d Upper; half_points a b d Lower].
Proof.
  intros Ha. unfold StandardHyperbola.both_halves.
  rewrite (hyperbola_branch_upper a b d Ha). cbn [rbind].
  rewrite (hyperbola_branch_lower a b d Ha). cbn [rbind].
  reflexivity.
Qed.

Lemma vadd_xy (x y : R) : vadd (V3 x 0 0) (V3 0 y 0) = V3 x y 0.
Proof. unfold vadd. cbn. f_equal; ring. Qed.

Lemma hyperbola_focal_sqr (a b : R) :
  0 < a -> 0 < b ->
  sqrt (a ^ 2 + b ^ 2) * sqrt (a ^ 2 + b ^ 2) = a ^ 2 + b ^ 2 /\
  a < sqrt (a ^ 2 + b ^ 2).
Proof.
  intros Ha Hb. split.
  - apply sqrt_sqrt. nra.
  - rewrite <- (sqrt_square a) at 1 by lra. apply sqrt_lt_1_alt. nra.
Qed.

Lemma asymptote_coord_ok (a b l u : R) :
  0 < a -> 0 < b ->
  StandardHyperbola.asymptote_coord a b l u = Ok (l * u / sqrt (a ^ 2 + b ^ 2)).
Proof.
  intros Ha Hb. destruct (hyperbola_focal_sqr a b Ha Hb) as [_ Hc].
  unfold StandardHyperbola.asymptote_coord.
  rewrite math_sqrt_ok by nra. cbn [rbind]. apply py_div_ok. lra.
Qed.

Lemma get_asymptotes_ok (a b : R) :
  0 < a -> 0 < b -> exists l, StandardHyperbola._get_asymptotes a b = Ok l.
Proof.
  intros Ha Hb. unfold StandardHyperbola._get_asymptotes.
  rewrite !asymptote_coord_ok by assumption. cbn [rbind]. eexists. reflexivity.
Qed.

Lemma get_asymptote_labels_ok (a b : R) :
  0 < a -> 0 < b -> exists l, StandardHyperbola._get_asymptote_labels a b = Ok l.
Proof.
  intros Ha Hb. unfold StandardHyperbola._get_asymptote_labels.
  rewrite !asymptote_coord_ok by assumption. cbn [rbind]. eexists. reflexivity.
Qed.

Lemma get_directrices_ok (a b c : R) :
  c <> 0 ->
  StandardHyperbola._get_directrices a b c
  = Ok ((V3 (- (a ^ 2 / c)) (b * 2) 0, V3 (- (a ^ 2 / c)) (- (b * 2)) 0),
        (V3 (a ^ 2 / c) (b * 2) 0, V3 (a ^ 2 / c) (- (b * 2)) 0)).
Proof.
  intros Hc. unfold StandardHyperbola._get_directrices.
  rewrite py_div_ok by exact Hc. cbn [rbind].
  rewrite vscale_RIGHT, vscale_LEFT, vscale_UP, vscale_DOWN, !vadd_xy. reflexivity.
Qed.

Lemma get_directrix_labels_ok (a b c : R) :
  c <> 0 -> exists l, StandardHyperbola._get_directrix_labels a b c = Ok l.
Proof.
  intros Hc. unfold StandardHyperbola._get_directrix_labels.
  rewrite py_div_ok by exact Hc. cbn [rbind]. eexists. reflexivity.
Qed.

(** What the constructor returns for a, b > 0, whatever is requested. *)
Lemma hyperbola_init_spec (a b : R) (branch : string)
    (show_foci show_vertices show_asymptotes asymptote_labels
       show_directrices directrix_labels : bool) :
  0 < a -> 0 < b ->
  exists h,
    StandardHyperbola.__init__ a b branch show_foci show_vertices show_asymptotes
      asymptote_labels show_directrices directrix_labels = Ok h /\
    StandardHyperbola.c h = sqrt (a ^ 2 + b ^ 2) /\
    StandardHyperbola.branches h =
      (if bool_decide (branch = "left"%string \/ branch = "both"%string)
       then [half_points a b StandardHyperbola.SLeft Upper;
             half_points a b StandardHyperbola.SLeft Lower]
       else []) ++
      (if bool_decide (branch = "right"%string \/ branch = "both"%string)
       then [half_points a b StandardHyperbola.SRight Upper;
             half_points a b StandardHyperbola.SRight Lower]
       else []) /\
    StandardHyperbola.directrices h =
      (if show_directrices
       then Some ((V3 (- (a ^ 2 / sqrt (a ^ 2 + b ^ 2))) (b * 2) 0,
                   V3 (- (a ^ 2 / sqrt (a ^ 2 + b ^ 2))) (- (b * 2)) 0),
                  (V3 (a ^ 2 / sqrt (a ^ 2 + b ^ 2)) (b * 2) 0,
                   V3 (a ^ 2 / sqrt (a ^ 2 + b ^ 2)) (- (b * 2)) 0))
       else None).
Proof.
  intros Ha Hb. destruct (hyperbola_focal_sqr a b Ha Hb) as [_ Hc].
  unfold StandardHyperbola.__init__.
  rewrite math_sqrt_ok by nra. cbn [rbind].
  rewrite !hyperbola_both_halves by exact Ha.
  set (r := sqrt (a ^ 2 + b ^ 2)) in *.
  destruct (get_asymptotes_ok a b Ha Hb) as [asy ->].
  destruct (get_asymptote_labels_ok a b Ha Hb) as [asyl ->].
  rewrite (get_directrices_ok a b r) by lra.
  destruct (get_directrix_labels_ok a b r ltac:(lra)) as [dirl ->].
  destruct (bool_decide (branch = "left"%string \/ branch = "both"%string));
    destruct (bool_decide (branch = "right"%string \/ branch = "both"%string));
    destruct show_asymptotes, asymptote_labels, show_directrices, directrix_labels;
    cbn [rbind fst snd]; eexists; (split; [reflexivity |]);
    cbn [StandardHyperbola.c StandardHyperbola.branches StandardHyperbola.directrices];
    repeat split.
Qed.

Lemma drawn_halves_spec (a b : R) (branch : string) :
  0 < a -> 0 < b ->
  Forall2 (fun dh pts => sampled_half a b (fst dh) (snd dh) pts)
    (drawn_halves branch)
    ((if bool_decide (branch = "left"%string \/ branch = "both"%string)
      then [half_points a b StandardHyperbola.SLeft Upper;
            half_points a b StandardHyperbola.SLeft Lower]
      else []) ++
     (if bool_decide (branch = "right"%string \/ branch = "both"%string)
      then [half_points a b StandardHyperbola.SRight Upper;
            half_points a b StandardHyperbola.SRight Lower]
      else [])).
Proof.
  intros Ha Hb. unfold drawn_halves.
  destruct (String.eqb_spec branch "left") as [-> | Hl].
  { rewrite bool_decide_eq_true_2 by (left; reflexivity).
    rewrite bool_decide_eq_false_2 by (intros [H | H]; discriminate).
    cbn [app]. repeat constructor; apply half_points_sampled; assumption. }
  destruct (String.eqb_spec branch "right") as [-> | Hr].
  { rewrite bool_decide_eq_false_2 by (intros [H | H]; discriminate).
    rewrite bool_decide_eq_true_2 by (left; reflexivity).
    cbn [app]. repeat constructor; apply half_points_sampled; assumption. }
  destruct (String.eqb_spec branch "both") as [-> | Hb'].
  { rewrite !bool_decide_eq_true_2 by (right; reflexivity).
    cbn [app]. repeat constructor; apply half_points_sampled; assumption. }
  rewrite !bool_decide_eq_false_2 by (intros [H | H]; congruence).
  constructor.
Qed.

(** In binary64 the focal distance of the hyperbola with a = 1e8 and
    b = 1 is a itself: a² + b² = 1e16 + 1 lies half-way between two floats
    and rounds to 1e16, whose square root is 1e8. *)
Lemma hyperbola_c_binary64_reaches_a :
  StandardHyperbola.c_binary64 1e8%float 1%float = 1e8%float.
Proof. vm_compute. reflexivity. Qed.

(** C6, as stated, fails: c > a is not what the program computes at
    a = 1e8, b = 1, both positive; in binary64 the focal distance is equal
    to a. *)
Lemma StandardHyperbola_c_reaches_a :
  PrimFloat.ltb 0%float 1e8%float = true /\
  PrimFloat.ltb 0%float 1%float = true /\
  PrimFloat.ltb 1e8%float (StandardHyperbola.c_binary64 1e8%float 1%float) = false /\
  PrimFloat.eqb (StandardHyperbola.c_binary64 1e8%float 1%float) 1e8%float = true.
Proof. rewrite hyperbola_c_binary64_reaches_a. vm_compute. tauto. Qed.

(** C6, amended: for a, b > 0 the constructor returns, whatever is
    requested, with focal distance c = sqrt(a² + b²) >= a.  The abscissae
    sampled are the 80 evenly spaced x_i = a + 4i/79, from x_0 = a to
    x_79 = a + 4.  The half-branches drawn are, in this order, the upper
    and the lower left half for "left", the upper and the lower right half
    for "right", all four for "both" and none for any other string; the
    i-th point of a half is (x_i, ±b·sqrt(x_i²/a² - 1), 0), with x_i
    negated on the left and the sign + on the upper half, and it satisfies
    x²/a² - y²/b² = 1. *)
Theorem StandardHyperbola_focal_and_samples (a b : R) (branch : string)
    (show_foci show_vertices show_asymptotes asymptote_labels
       show_directrices directrix_labels : bool) :
  0 < a -> 0 < b ->
  exists h,
    StandardHyperbola.__init__ a b branch show_foci show_vertices show_asymptotes
      asymptote_labels show_directrices directrix_labels = Ok h /\
    StandardHyperbola.c h = sqrt (a ^ 2 + b ^ 2) /\
    a <= StandardHyperbola.c h /\
    sample_x a 0 = a /\ sample_x a 79 = a + 4 /\
    Forall2 (fun dh pts => sampled_half a b (fst dh) (snd dh) pts)
      (drawn_halves branch) (StandardHyperbola.branches h).
Proof.
  intros Ha Hb.
  destruct (hyperbola_init_spec a b branch show_foci show_vertices show_asymptotes
              asymptote_labels show_directrices directrix_labels Ha Hb)
    as (h & Hh & Hc & Hbr & _).
  exists h. split; [exact Hh |]. split; [exact Hc |].
  split; [rewrite Hc; left; apply (hyperbola_focal_sqr a b Ha Hb) |].
  split; [apply sample_x_ends |]. split; [apply sample_x_ends |].
  rewrite Hbr. apply drawn_halves_spec; assumption.
Qed.

Lemma StandardHyperbola_focal_and_samples_witness :
  exists h,
    StandardHyperbola.__init__ 3 2 "both" true true true false false false = Ok h /\
    StandardHyperbola.c h = sqrt (3 ^ 2 + 2 ^ 2) /\
    3 <= StandardHyperbola.c h /\
    sample_x 3 0 = 3 /\ sample_x 3 79 = 3 + 4 /\
    Forall2 (fun dh pts => sampled_half 3 2 (fst dh) (snd dh) pts)
      (drawn_halves "both") (StandardHyperbola.branches h).
Proof.
  apply (StandardHyperbola_focal_and_samples 3 2 "both" true true true false false false);
    lra.
Defined.

(** ** The parabola *)


Lemma parabola_positions (p : R) (d : string) :
  (In d cardinal_names ->
   exists u o, In (d, u) cardinal_directions /\
     StandardParabola._calculate_positions p d =
       Ok (vscale u (p / 2), vscale (vneg u) (p / 2), o)) /\
  (~ In d cardinal_names ->
   StandardParabola._calculate_positions p d = Raise ValueError).
Proof.
  unfold StandardParabola._calculate_positions, cardinal_names, cardinal_directions.
  cbn [map fst In].
  destruct (String.eqb d "RIGHT") eqn:E1;
    [apply String.eqb_eq in E1; subst d | apply String.eqb_neq in E1].
  { split; [intros _ | intros H; exfalso; apply H; tauto].
    exists RIGHT, StandardParabola.Vertical. split; [tauto |].
    rewrite !vscale_LEFT, !vscale_RIGHT. repeat f_equal.
    unfold vscale, vneg, RIGHT; cbn. f_equal; ring. }
  destruct (String.eqb d "LEFT") eqn:E2;
    [apply String.eqb_eq in E2; subst d | apply String.eqb_neq in E2].
  { split; [intros _ | intros H; exfalso; apply H; tauto].
    exists LEFT, StandardParabola.Vertical. split; [tauto |].
    rewrite !vscale_LEFT, !vscale_RIGHT. repeat f_equal.
    unfold vscale, vneg, LEFT; cbn. f_equal; ring. }
  destruct (String.eqb d "UP") eqn:E3;
    [apply String.eqb_eq in E3; subst d | apply String.eqb_neq in E3].
  { split; [intros _ | intros H; exfalso; apply H; tauto].
    exists UP, StandardParabola.Horizontal. split; [tauto |].
    rewrite !vscale_UP, !vscale_DOWN. repeat f_equal.
    unfold vscale, vneg, UP; cbn. f_equal; ring. }
  destruct (String.eqb d "DOWN") eqn:E4;
    [apply String.eqb_eq in E4; subst d | apply String.eqb_neq in E4].
  { split; [intros _ | intros H; exfalso; apply H; tauto].
    exists DOWN, StandardParabola.Horizontal. split; [tauto |].
    rewrite !vscale_UP, !vscale_DOWN. repeat f_equal.
    unfold vscale, vneg, DOWN; cbn. f_equal; ring. }
  split; [| reflexivity].
  intros [H | [H | [H | [H | []]]]]; congruence.
Qed.

(** The lower-case "right" is not one of the four names RIGHT, LEFT, UP,
    DOWN, and the constructor accepts it. *)
Lemma StandardParabola_accepts_lower_case :
  ~ In "right"%string cardinal_names /\
  ~ raises (StandardParabola.__init__ upper 2 "right" true true true false).
Proof.
  split.
  - unfold cardinal_names, cardinal_directions. cbn [map fst In].
    intros [H | [H | [H | [H | []]]]]; discriminate.
  - unfold StandardParabola.__init__.
    replace (upper "right") with "RIGHT"%string by reflexivity.
    unfold StandardParabola._calculate_positions.
    replace (String.eqb "RIGHT" "RIGHT") with true by reflexivity.
    cbn [rbind raises]. tauto.
Qed.

(** With the directrix shown and its label requested the constructor
    raises TypeError: the label helper returns None, which the group
    refuses. *)
Lemma parabola_label_raises (str_upper : string -> string) (p : R) (direction : string)
    (show_vertex show_focus : bool) :
  In (str_upper direction) cardinal_names ->
  StandardParabola.__init__ str_upper p direction show_vertex show_focus true true
  = Raise TypeError.
Proof.
  intros Hd. unfold StandardParabola.__init__.
  destruct (parabola_positions p (str_upper direction)) as [Hin _].
  destruct (Hin Hd) as (u & o & _ & ->). reflexivity.
Qed.

(** C7, as stated, fails twice: the lower-case "right" is not one of the
    four names and the constructor accepts it; and RIGHT is one of the
    four names and the constructor raises on it, with a TypeError, when
    the directrix is shown and its label is requested. *)
Lemma StandardParabola_lower_case_and_label :
  (~ In "right"%string cardinal_names /\
   ~ raises (StandardParabola.__init__ upper 2 "right" true true true false)) /\
  (In "RIGHT"%string cardinal_names /\
   StandardParabola.__init__ upper 2 "RIGHT" true true true true = Raise TypeError).
Proof.
  split; [exact StandardParabola_accepts_lower_case |].
  assert (H : In (upper "RIGHT") cardinal_names) by (cbn; tauto).
  split; [exact H |]. apply parabola_label_raises. exact H.
Qed.

(** C7, amended: whatever the upper-casing of strings returns, the
    constructor matches the upper-cased direction against RIGHT, LEFT, UP,
    DOWN.  When the directrix label is not requested next to a shown
    directrix, it raises exactly when the upper-cased direction is none of
    the four; it then raises ValueError, and no default direction replaces
    the unrecognised one.  On a recognised direction with the directrix
    shown and its label requested it raises TypeError.  When it returns,
    the stored direction is the upper-cased one, the focus is at p/2 from
    the vertex (the origin) along the direction's unit vector and the
    directrix position is at p/2 along the opposite one. *)
Theorem StandardParabola_direction (str_upper : string -> string) (p : R)
    (direction : string)
    (show_vertex show_focus show_directrix directrix_label : bool) :
  let made :=
    StandardParabola.__init__ str_upper p direction show_vertex show_focus
      show_directrix directrix_label in
  ((show_directrix && directrix_label)%bool = false ->
   (raises made <-> ~ In (str_upper direction) cardinal_names)) /\
  (~ In (str_upper direction) cardinal_names -> made = Raise ValueError) /\
  (In (str_upper direction) cardinal_names ->
   (show_directrix && directrix_label)%bool = true -> made = Raise TypeError) /\
  (forall r,
      made = Ok r ->
      exists u,
        In (str_upper direction, u) cardinal_directions /\
        StandardParabola.direction r = str_upper direction /\
        StandardParabola.focus_pos r = vscale u (p / 2) /\
        StandardParabola.directrix_pos r = vscale (vneg u) (p / 2) /\
        StandardParabola.focus r =
          (if show_focus then Some (vscale u (p / 2)) else None) /\
        StandardParabola.vertex r = (if show_vertex then Some ORIGIN else None)).
Proof.
  cbv zeta. unfold StandardParabola.__init__.
  destruct (parabola_positions p (str_upper direction)) as [Hin Hout].
  destruct (in_dec string_dec (str_upper direction) cardinal_names) as [Hd | Hd].
  - destruct (Hin Hd) as (u & o & Hu & ->). cbn [rbind].
    destruct show_directrix, directrix_label;
      cbn [rbind raises andb StandardParabola.add_to_group
           StandardParabola._get_directrix_label];
      (split;
         [intros Hl;
          first [discriminate
                | split; [tauto | intros H; exfalso; apply H; exact Hd]] |]);
      (split; [intros H; exfalso; apply H; exact Hd |]);
      (split; [intros _ Hl; first [discriminate | reflexivity] |]);
      intros r Hr; first [discriminate | injection Hr as <-; exists u; cbn; tauto].
  - rewrite (Hout Hd). cbn [rbind raises].
    split; [intros _; tauto |]. split; [reflexivity |].
    split; [intros H; exfalso; apply Hd; exact H |].
    intros r Hr. discriminate.
Qed.

(** ** The line *)

Lemma Rltb_abs_false (x e : R) : e <= x -> Rltb (Rabs x) e = false.
Proof.
  intros H. apply Rltb_false. unfold Rabs. destruct (Rcase_abs x); lra.
Qed.

Lemma Rgtb_abs_true (x e : R) : e < x -> Rgtb (Rabs x) e = true.
Proof.
  intros H. unfold Rgtb. apply Rltb_true. unfold Rabs. destruct (Rcase_abs x); lra.
Qed.

(** C8: the line through (-3, -2) and (3, 4) has slope 1, y-intercept 1
    and general-form coefficients (A, B, C) = (1, -1, 1). *)
Theorem StandardLine_two_points (length : R) :
  let l := StandardLine.__init__ (Some (StandardLine.P2 (-3) (-2)))
                                 (Some (StandardLine.P2 3 4)) length in
  StandardLine.slope l = 1 /\
  StandardLine.y_intercept l = 1 /\
  StandardLine.A l = 1 /\ StandardLine.B l = -1 /\ StandardLine.C l = 1 /\
  StandardLine.is_vertical l = false /\ StandardLine.is_horizontal l = false.
Proof.
  unfold StandardLine.__init__. cbn [StandardLine.to_array vsub vx vy vz].
  replace (3 - -3) with 6 by ring. replace (4 - -2) with 6 by ring.
  rewrite !(Rltb_abs_false 6 0.001) by lra.
  rewrite (Rgtb_abs_true 6 0.001) by lra.
  cbn [negb]. cbn.
  repeat split; field.
Qed.

Lemma StandardParabola_direction_witness :
  exists r,
    StandardParabola.__init__ upper 2 "up" true true true false = Ok r /\
    StandardParabola.direction r = "UP"%string /\
    StandardParabola.focus_pos r = vscale UP (2 / 2) /\
    StandardParabola.directrix_pos r = vscale (vneg UP) (2 / 2).
Proof.
  pose proof (StandardParabola_direction upper 2 "up" true true true false)
    as (_ & _ & _ & H).
  cbv zeta in H.
  assert (Hr : exists r,
             StandardParabola.__init__ upper 2 "up" true true true false = Ok r)
    by (eexists; reflexivity).
  destruct Hr as [r Hr]. exists r. split; [exact Hr |].
  destruct (H r Hr) as (u & Hu & Hd & Hf & Hp & _).
  assert (u = UP) as ->.
  { replace (upper "up") with "UP"%string in Hu by reflexivity.
    unfold cardinal_directions in Hu. cbn [In] in Hu.
    destruct Hu as [Hu | [Hu | [Hu | [Hu | []]]]]; congruence. }
  split; [exact Hd |]. split; [exact Hf | exact Hp].
Defined.

(** ** The cone *)

(** C3, as stated, fails between b and b + 0.001: with radius 2, skew
    factor 0.5 (b = 1) and height 1.0005 the height exceeds b, yet the
    offsets are the degenerate (a, 0) and not (a·sqrt(1 - b²/h²), b²/h). *)
Lemma ConeOblique_guard_band :
  exists cone,
    ConeOblique.__init__ 2 1.0005 0.5 ORIGIN = Ok cone /\
    2 * 0.5 < 1.0005 /\
    ConeOblique.tangent_x_offset cone = 2 /\
    ConeOblique.tangent_y_offset cone = 0 /\
    ConeOblique.tangent_y_offset cone <> (2 * 0.5) ^ 2 / 1.0005.
Proof.
  unfold ConeOblique.__init__, ConeOblique.tangent_offsets.
  destruct (Rleb 1.0005 (2 * 0.5 + 0.001)) eqn:E;
    [| apply Rleb_false in E; lra].
  cbn [rbind]. eexists. split; [reflexivity |]. cbn.
  repeat split; lra.
Qed.

(** C3, amended: with a = radius, b = radius·skew_factor >= 0 and
    h = height the constructor returns; when h > b + 0.001 the offsets of
    the tangent points from the base centre are y = b²/h and
    x = a·sqrt(1 - b²/h²), when h <= b + 0.001 they are x = a and y = 0;
    the tangent points are centre + (-x, y) and centre + (x, y). *)
Theorem ConeOblique_tangent_offsets (radius height skew_factor : R) (center : vec) :
  0 <= radius * skew_factor ->
  exists cone,
    ConeOblique.__init__ radius height skew_factor center = Ok cone /\
    (radius * skew_factor + 0.001 < height ->
       ConeOblique.tangent_y_offset cone = (radius * skew_factor) ^ 2 / height /\
       ConeOblique.tangent_x_offset cone =
         radius * sqrt (1 - (radius * skew_factor) ^ 2 / height ^ 2)) /\
    (height <= radius * skew_factor + 0.001 ->
       ConeOblique.tangent_x_offset cone = radius /\
       ConeOblique.tangent_y_offset cone = 0) /\
    ConeOblique.p_tangent_left cone =
      vadd center (V3 (- ConeOblique.tangent_x_offset cone)
                      (ConeOblique.tangent_y_offset cone) 0) /\
    ConeOblique.p_tangent_right cone =
      vadd center (V3 (ConeOblique.tangent_x_offset cone)
                      (ConeOblique.tangent_y_offset cone) 0).
Proof.
  intros Hb. unfold ConeOblique.__init__, ConeOblique.tangent_offsets.
  destruct (Rleb height (radius * skew_factor + 0.001)) eqn:E.
  - apply Rleb_true in E. cbn [rbind]. eexists. split; [reflexivity |]. cbn.
    rewrite vscale_LEFT, vscale_RIGHT, vscale_UP.
    repeat split; try (intros; lra);
      unfold vadd; cbn; f_equal; ring.
  - apply Rleb_false in E. rewrite py_div_ok by lra. cbn [rbind].
    eexists. split; [reflexivity |]. cbn.
    rewrite vscale_LEFT, vscale_RIGHT, vscale_UP.
    repeat split; try (intros; lra);
      unfold vadd; cbn; f_equal; ring.
Qed.

Lemma ConeOblique_tangent_offsets_witness :
  exists cone,
    ConeOblique.__init__ 2 3.5 0.4 ORIGIN = Ok cone /\
    ConeOblique.tangent_y_offset cone = (2 * 0.4) ^ 2 / 3.5 /\
    ConeOblique.tangent_x_offset cone = 2 * sqrt (1 - (2 * 0.4) ^ 2 / 3.5 ^ 2).
Proof.
  destruct (ConeOblique_tangent_offsets 2 3.5 0.4 ORIGIN ltac:(lra))
    as (cone & Hc & Hhi & _).
  exists cone. split; [exact Hc |]. apply Hhi. lra.
Defined.

(** ** The sphere *)

Lemma tan_minus_135_degrees : tan (-135 * DEGREES) = 1.
Proof.
  unfold DEGREES.
  replace (-135 * (PI / 180)) with (- (3 * (PI / 4))) by field.
  rewrite tan_neg. unfold tan. rewrite sin_3PI4, cos_3PI4.
  assert (H : sqrt 2 <> 0) by (apply Rgt_not_eq, Rlt_sqrt2_0).
  field. exact H.
Qed.

(** C4, as stated, fails: the source has no branch on the axis angle.  At
    radius 2, skew factor 0.3 and angle 0 the axis is drawn along
    (1, 0, 0), the ray y = k·x with k = tan 0 = 0 meets the ellipse at
    (2, 0), and the stored offset is (-2, 0): the negative root, on the
    opposite ray. *)
Lemma SphereOblique_angle_zero_opposite :
  let ax := SphereOblique._create_axes 2 0.3 0 ORIGIN in
  axis_direction 0 = V3 1 0 0 /\
  SphereOblique.x_intersect ax = -2 /\
  SphereOblique.y_intersect ax = 0 /\
  ~ on_ray (axis_direction 0)
      (V3 (SphereOblique.x_intersect ax) (SphereOblique.y_intersect ax) 0) /\
  on_ray (axis_direction 0) (V3 2 0 0) /\
  2 ^ 2 / 2 ^ 2 + 0 ^ 2 / (2 * 0.3) ^ 2 = 1.
Proof.
  cbv zeta.
  assert (Hd : axis_direction 0 = V3 1 0 0).
  { unfold axis_direction. rewrite cos_0, sin_0. reflexivity. }
  assert (Hx : SphereOblique.x_intersect (SphereOblique._create_axes 2 0.3 0 ORIGIN) = -2).
  { unfold SphereOblique._create_axes. cbn [SphereOblique.x_intersect].
    rewrite tan_0.
    replace ((2 * 0.3) ^ 2 + 2 ^ 2 * 0 ^ 2) with (0.6 * 0.6) by lra.
    rewrite sqrt_square by lra. lra. }
  assert (Hy : SphereOblique.y_intersect (SphereOblique._create_axes 2 0.3 0 ORIGIN) = 0).
  { unfold SphereOblique._create_axes. cbn [SphereOblique.y_intersect].
    rewrite tan_0. ring. }
  split; [exact Hd |]. split; [exact Hx |]. split; [exact Hy |].
  rewrite Hx, Hy, Hd. split; [| split].
  - intros (t & Ht & H). unfold vscale in H. cbn [vx vy vz] in H.
    injection H as H _ _. lra.
  - exists 2. split; [lra |]. unfold vscale. cbn [vx vy vz]. f_equal; ring.
  - lra.
Qed.

(** C4, amended: for radius r > 0 and skew factor s > 0, with a = r,
    b = r·s and k = tan(x_axis_angle), the stored offset of the X-axis
    intersection is x = -(a·b)/sqrt(b² + a²·k²), always the negative root,
    and y = k·x; the stored point is centre + (x, y, 0) and
    x²/a² + y²/b² = 1.  The offset lies on the ray of the axis when the
    axis points to the left (cos(x_axis_angle) < 0) and on the opposite
    ray when it points to the right (cos(x_axis_angle) > 0). *)
Theorem SphereOblique_x_axis_intersection (radius skew_factor x_axis_angle : R)
    (center : vec) :
  0 < radius -> 0 < skew_factor ->
  let ax := SphereOblique._create_axes radius skew_factor x_axis_angle center in
  let a := radius in
  let b := radius * skew_factor in
  let k := tan x_axis_angle in
  let x := SphereOblique.x_intersect ax in
  let y := SphereOblique.y_intersect ax in
  x = - (a * b) / sqrt (b ^ 2 + a ^ 2 * k ^ 2) /\
  y = k * x /\
  x < 0 /\
  SphereOblique.p_x_intersect ax = vadd center (V3 x y 0) /\
  x ^ 2 / a ^ 2 + y ^ 2 / b ^ 2 = 1 /\
  SphereOblique.the_axes
    (SphereOblique.__init__ radius skew_factor x_axis_angle true center) = Some ax /\
  (cos x_axis_angle < 0 -> on_ray (axis_direction x_axis_angle) (V3 x y 0)) /\
  (0 < cos x_axis_angle -> on_opposite_ray (axis_direction x_axis_angle) (V3 x y 0)).
Proof.
  intros Hr Hs. cbn zeta. unfold SphereOblique._create_axes, SphereOblique.__init__.
  cbn [SphereOblique.x_intersect SphereOblique.y_intersect
       SphereOblique.p_x_intersect SphereOblique.the_axes].
  set (k := tan x_axis_angle).
  set (b := radius * skew_factor).
  assert (Hb : 0 < b) by (unfold b; nra).
  assert (HD : 0 < b ^ 2 + radius ^ 2 * k ^ 2) by nra.
  set (D := b ^ 2 + radius ^ 2 * k ^ 2) in *.
  assert (Hs2 : 0 < sqrt D) by (apply sqrt_lt_R0; exact HD).
  assert (Hsq : sqrt D * sqrt D = D) by (apply sqrt_sqrt; lra).
  assert (Hneg : - (radius * b) / sqrt D < 0).
  { unfold Rdiv. rewrite <- Ropp_mult_distr_l.
    assert (0 < radius * b * / sqrt D); [| lra].
    apply Rmult_lt_0_compat; [nra | apply Rinv_0_lt_compat; exact Hs2]. }
  set (x := - (radius * b) / sqrt D) in *.
  split; [reflexivity |]. split; [reflexivity |]. split; [exact Hneg |].
  split; [reflexivity |]. split; [| split; [reflexivity |]].
  - unfold x.
    replace ((- (radius * b) / sqrt D) ^ 2)
      with ((radius * b) ^ 2 / (sqrt D * sqrt D)) by (field; lra).
    replace ((k * (- (radius * b) / sqrt D)) ^ 2)
      with (k ^ 2 * (radius * b) ^ 2 / (sqrt D * sqrt D)) by (field; lra).
    rewrite Hsq.
    replace ((radius * b) ^ 2 / D / radius ^ 2 + k ^ 2 * (radius * b) ^ 2 / D / b ^ 2)
      with ((b ^ 2 + radius ^ 2 * k ^ 2) / D) by (field; repeat split; lra).
    fold D. field. lra.
  - unfold k, tan, axis_direction, on_ray, on_opposite_ray, vscale. cbn [vx vy vz].
    split; intros Hc.
    + exists (x / cos x_axis_angle). split.
      * unfold Rdiv. assert (/ cos x_axis_angle < 0) by (apply Rinv_lt_0_compat; exact Hc).
        nra.
      * f_equal; field; lra.
    + exists (- (x / cos x_axis_angle)). split.
      * unfold Rdiv. assert (0 < / cos x_axis_angle) by (apply Rinv_0_lt_compat; exact Hc).
        nra.
      * f_equal; field; lra.
Qed.

Lemma SphereOblique_x_axis_intersection_witness :
  let ax := SphereOblique._create_axes 2 0.3 (-135 * DEGREES) ORIGIN in
  Rabs (SphereOblique.x_intersect ax ^ 2 / 2 ^ 2
        + SphereOblique.y_intersect ax ^ 2 / (2 * 0.3) ^ 2 - 1) < 1e-6.
Proof.
  pose proof (SphereOblique_x_axis_intersection 2 0.3 (-135 * DEGREES) ORIGIN
                ltac:(lra) ltac:(lra)) as H.
  cbn zeta in *. destruct H as (_ & _ & _ & _ & H & _).
  rewrite H. replace (1 - 1) with 0 by ring. rewrite Rabs_R0. lra.
Defined.

(** ** Edge topology *)

Lemma record_edges_spec (i : nat) (l : list PolyhedronBase.edge)
    (es : gset (nat * nat)) (m : gmap (nat * nat) (list nat))
    (es' : gset (nat * nat)) (m' : gmap (nat * nat) (list nat)) :
  foldl (PolyhedronBase.record_edge i) (es, m) l = (es', m') ->
  (forall e, e ∈ es' <-> e ∈ es \/ e ∈ l) /\
  (forall e f, f ∈ default [] (m' !! e) <->
               f ∈ default [] (m !! e) \/ (f = i /\ e ∈ l)) /\
  (forall e, is_Some (m' !! e) <-> is_Some (m !! e) \/ e ∈ l).
Proof.
  revert es m. induction l as [| x l IH]; intros es m H.
  - cbn in H. injection H as <- <-. repeat split; intros; try tauto.
    + destruct H as [H | H]; [exact H | by apply not_elem_of_nil in H].
    + destruct H as [H | [_ H]]; [exact H | by apply not_elem_of_nil in H].
    + destruct H as [H | H]; [exact H | by apply not_elem_of_nil in H].
  - cbn [foldl PolyhedronBase.record_edge] in H.
    apply IH in H as (H1 & H2 & H3). repeat split.
    + intros He. apply H1 in He.
      rewrite elem_of_union, elem_of_singleton in He. rewrite elem_of_cons. tauto.
    + intros He. apply H1.
      rewrite elem_of_union, elem_of_singleton. rewrite elem_of_cons in He. tauto.
    + intros Hf. apply H2 in Hf as [Hf | Hf]; [| set_solver].
      destruct (decide (e = x)) as [-> | Hne].
      * rewrite lookup_insert_eq in Hf. cbn in Hf.
        apply elem_of_app in Hf as [Hf | Hf]; [tauto | set_solver].
      * rewrite lookup_insert_ne in Hf by done. tauto.
    + intros Hf. apply H2.
      destruct (decide (e = x)) as [-> | Hne].
      * rewrite lookup_insert_eq. cbn. rewrite elem_of_app.
        destruct Hf as [Hf | [-> Hf]]; [tauto |].
        apply elem_of_cons in Hf as [_ | Hf]; [left; right; set_solver | tauto].
      * rewrite lookup_insert_ne by done.
        destruct Hf as [Hf | [-> Hf]]; [tauto |].
        apply elem_of_cons in Hf as [-> | Hf]; [done | tauto].
    + intros He. apply H3 in He as [He | He]; [| set_solver].
      destruct (decide (e = x)) as [-> | Hne]; [set_solver |].
      rewrite lookup_insert_ne in He by done. tauto.
    + intros He. apply H3.
      destruct (decide (e = x)) as [-> | Hne].
      * left. rewrite lookup_insert_eq. eauto.
      * rewrite lookup_insert_ne by done.
        destruct He as [He | He]; [tauto |].
        apply elem_of_cons in He as [-> | He]; [done | tauto].
Qed.

Lemma record_faces_spec (ps : list (nat * list nat))
    (es : gset (nat * nat)) (m : gmap (nat * nat) (list nat))
    (es' : gset (nat * nat)) (m' : gmap (nat * nat) (list nat)) :
  foldl PolyhedronBase.record_face (es, m) ps = (es', m') ->
  (forall e, e ∈ es' <->
             e ∈ es \/ exists p, p ∈ ps /\ e ∈ PolyhedronBase.face_edges (snd p)) /\
  (forall e f, f ∈ default [] (m' !! e) <->
               f ∈ default [] (m !! e) \/
               exists p, p ∈ ps /\ fst p = f /\ e ∈ PolyhedronBase.face_edges (snd p)) /\
  (forall e, is_Some (m' !! e) <->
             is_Some (m !! e) \/
             exists p, p ∈ ps /\ e ∈ PolyhedronBase.face_edges (snd p)).
Proof.
  revert es m. induction ps as [| p ps IH]; intros es m H.
  - cbn in H. injection H as <- <-.
    repeat split; intros; try tauto.
    + destruct H as [H | (p & Hp & _)]; [exact H | by apply not_elem_of_nil in Hp].
    + destruct H as [H | (p & Hp & _)]; [exact H | by apply not_elem_of_nil in Hp].
    + destruct H as [H | (p & Hp & _)]; [exact H | by apply not_elem_of_nil in Hp].
  - cbn [foldl] in H.
    destruct (PolyhedronBase.record_face (es, m) p) as [es1 m1] eqn:E.
    unfold PolyhedronBase.record_face in E.
    apply record_edges_spec in E as (E1 & E2 & E3).
    apply IH in H as (H1 & H2 & H3). repeat split.
    + intros He. apply H1 in He as [He | (q & Hq & He)].
      * apply E1 in He as [He | He]; [tauto | right; exists p; set_solver].
      * right. exists q. set_solver.
    + intros [He | (q & Hq & He)]; apply H1.
      * left. apply E1. tauto.
      * apply elem_of_cons in Hq as [-> | Hq];
          [left; apply E1; tauto | right; eauto].
    + intros Hf. apply H2 in Hf as [Hf | (q & Hq & Hf)].
      * apply E2 in Hf as [Hf | [Hf He]]; [tauto | right; exists p; set_solver].
      * right. exists q. set_solver.
    + intros [Hf | (q & Hq & Hf & He)]; apply H2.
      * left. apply E2. tauto.
      * apply elem_of_cons in Hq as [-> | Hq];
          [left; apply E2; right; split; [done | exact He] | right; eauto].
    + intros He. apply H3 in He as [He | (q & Hq & He)].
      * apply E3 in He as [He | He]; [tauto | right; exists p; set_solver].
      * right. exists q. set_solver.
    + intros [He | (q & Hq & He)]; apply H3.
      * left. apply E3. tauto.
      * apply elem_of_cons in Hq as [-> | Hq];
          [left; apply E3; tauto | right; eauto].
Qed.

Lemma topology_spec (faces : list (list nat)) (edges : list PolyhedronBase.edge)
    (m : gmap (nat * nat) (list nat)) :
  PolyhedronBase._build_edge_topology faces = (edges, m) ->
  (forall e, e ∈ edges <-> exists f, incident faces e f) /\
  (forall e f, f ∈ default [] (m !! e) <-> incident faces e f) /\
  (forall e, is_Some (m !! e) <-> e ∈ edges) /\
  NoDup edges.
Proof.
  unfold PolyhedronBase._build_edge_topology.
  destruct (foldl PolyhedronBase.record_face (∅, ∅) (imap (λ i f, (i, f)) faces))
    as [es m0] eqn:E.
  intros H. injection H as <- <-.
  apply record_faces_spec in E as (E1 & E2 & E3).
  assert (Himap : forall p : nat * list nat,
             p ∈ imap (λ i f, (i, f)) faces <-> faces !! (fst p) = Some (snd p)).
  { intros [i f]. rewrite elem_of_lookup_imap. cbn. split.
    - intros (j & x & Heq & Hl). injection Heq as -> ->. exact Hl.
    - intros Hl. eauto. }
  repeat split.
  - intros He. apply elem_of_elements, E1 in He as [He | (p & Hp & He)]; [set_solver |].
    exists (fst p), (snd p). split; [apply Himap; exact Hp | exact He].
  - intros (f & face & Hf & He). apply elem_of_elements, E1. right.
    exists (f, face). split; [apply Himap; exact Hf | exact He].
  - intros Hf. apply E2 in Hf as [Hf | (p & Hp & <- & He)].
    + rewrite lookup_empty in Hf. by apply not_elem_of_nil in Hf.
    + exists (snd p). split; [apply Himap; exact Hp | exact He].
  - intros (face & Hf & He). apply E2. right.
    exists (f, face). repeat split; [apply Himap; exact Hf | exact He].
  - intros He. apply E3 in He as [He | Hp].
    + rewrite lookup_empty in He. destruct He as [? He]. discriminate.
    + apply elem_of_elements, E1. right. exact Hp.
  - intros He. apply E3. right. apply elem_of_elements, E1 in He as [He | Hp]; [set_solver | exact Hp].
  - apply NoDup_elements.
Qed.

(** ** Construction *)

Lemma index_ok {A : Type} (l : list A) (i : nat) (x : A) :
  l !! i = Some x -> index l i = Ok x.
Proof. intros H. unfold index. rewrite H. reflexivity. Qed.

Lemma index_inv {A : Type} (l : list A) (i : nat) (x : A) :
  index l i = Ok x -> l !! i = Some x.
Proof. unfold index. destruct (l !! i); intros H; [injection H as -> | discriminate]; done. Qed.

Lemma index_vertex (vs : list vec) (i : nat) :
  (i < List.length vs)%nat -> index vs i = Ok (vertex vs i).
Proof.
  intros H. apply lookup_lt_is_Some_2 in H as [x Hx].
  unfold vertex. rewrite (index_ok _ _ _ Hx), Hx. reflexivity.
Qed.

Lemma index_nth (l : list nat) (i : nat) :
  (i < List.length l)%nat -> index l i = Ok (nth i l 0%nat).
Proof.
  intros H. apply lookup_lt_is_Some_2 in H as [x Hx].
  rewrite (nth_lookup_Some _ _ 0%nat _ Hx). apply index_ok. exact Hx.
Qed.

Lemma create_edges_spec (vs : list vec) (ec : string) (sw : R)
    (l : list PolyhedronBase.edge) (objs0 objs : gmap (nat * nat) PolyhedronBase.Line) :
  rfold
    (fun objs e =>
       let* start := index vs (fst e) in
       let* end_ := index vs (snd e) in
       Ok (<[ e := PolyhedronBase.BuildLine start end_ ec 1 sw ]> objs))
    l objs0 = Ok objs ->
  (forall e, e ∈ l -> (fst e < List.length vs)%nat /\ (snd e < List.length vs)%nat) /\
  (forall e, is_Some (objs !! e) <-> is_Some (objs0 !! e) \/ e ∈ l).
Proof.
  revert objs0. induction l as [| x l IH]; intros objs0 H.
  - cbn in H. injection H as <-. split.
    + intros e He. by apply not_elem_of_nil in He.
    + intros e. split; [tauto | intros [He | He]; [exact He | by apply not_elem_of_nil in He]].
  - cbn [rfold] in H.
    destruct (index vs (fst x)) as [a |] eqn:Ea; [| discriminate].
    destruct (index vs (snd x)) as [b |] eqn:Eb; [| discriminate].
    cbn [rbind] in H. apply IH in H as [H1 H2].
    apply index_inv, lookup_lt_Some in Ea. apply index_inv, lookup_lt_Some in Eb.
    split.
    + intros e He. apply elem_of_cons in He as [-> | He]; [tauto | apply H1; exact He].
    + intros e. rewrite H2, elem_of_cons.
      destruct (decide (e = x)) as [-> | Hne].
      * rewrite lookup_insert_eq. split; [tauto | eauto].
      * rewrite lookup_insert_ne by done. tauto.
Qed.

Lemma face_edges_endpoints (face : list nat) (v : nat) :
  v ∈ face -> exists e, e ∈ PolyhedronBase.face_edges face /\ (fst e = v \/ snd e = v).
Proof.
  intros Hv. apply list_elem_of_In, (In_nth _ _ 0%nat) in Hv as (i & Hi & <-).
  exists (PolyhedronBase.mk_edge (nth i face 0%nat)
            (nth ((i + 1) mod List.length face) face 0%nat)).
  split.
  - unfold PolyhedronBase.face_edges. apply list_elem_of_In, in_map_iff.
    exists i. split; [reflexivity | apply in_seq; lia].
  - unfold PolyhedronBase.mk_edge.
    destruct (_ <? _)%nat; cbn; tauto.
Qed.

Lemma init_well_formed vertices faces edge_color vertex_color dashed_color
    stroke_width get_center s :
  PolyhedronBase.__init__ vertices faces edge_color vertex_color dashed_color
    stroke_width get_center = Ok s ->
  well_formed s /\
  PolyhedronBase.vertices_local s = vertices /\
  PolyhedronBase.faces s = faces /\
  PolyhedronBase.center s = get_center /\
  PolyhedronBase.edge_color s = edge_color /\
  PolyhedronBase.dashed_color s = dashed_color /\
  PolyhedronBase.stroke_width s = stroke_width /\
  (PolyhedronBase.edges s, PolyhedronBase.edge_to_faces s) =
    PolyhedronBase._build_edge_topology faces.
Proof.
  unfold PolyhedronBase.__init__.
  destruct (PolyhedronBase._build_edge_topology faces) as [edges m] eqn:Et.
  destruct (PolyhedronBase._create_edges vertices edges edge_color stroke_width)
    as [objs |] eqn:Ec; [| discriminate].
  cbn [rbind]. intros H. injection H as <-. cbn.
  apply topology_spec in Et as (T1 & T2 & T3 & T4).
  pose proof Ec as Ec'.
  unfold PolyhedronBase._create_edges in Ec. apply create_edges_spec in Ec as [C1 C2].
  repeat split; try tauto; try (apply T1); try (apply T2); try (apply T3).
  - intros face v Hface Hv.
    apply face_edges_endpoints in Hv as (e & He & Hev).
    apply list_elem_of_lookup in Hface as [f Hf].
    assert (Hin : e ∈ edges) by (apply T1; exists f, face; tauto).
    apply C1 in Hin. destruct Hev as [<- | <-]; tauto.
  - intros He. apply C2 in He as [He | He]; [| exact He].
    rewrite lookup_empty in He. destruct He as [? He]. discriminate.
  - intros He. apply C2. tauto.
Qed.

(** ** Face visibility *)

Lemma face_center_loop (vs : list vec) (face : list nat) (acc : vec) :
  (forall v, v ∈ face -> (v < List.length vs)%nat) ->
  rfold (fun acc vertex_idx => let* v := index vs vertex_idx in Ok (vadd acc v))
        face acc
  = Ok (foldl vadd acc (map (vertex vs) face)).
Proof.
  revert acc. induction face as [| v face IH]; intros acc H; [reflexivity |].
  cbn [rfold map foldl]. rewrite index_vertex by (apply H; left). cbn [rbind].
  apply IH. intros w Hw. apply H. right. exact Hw.
Qed.

Lemma compute_face_center_ok (s : PolyhedronBase.t) (face : list nat) :
  (forall v, v ∈ face -> (v < List.length (PolyhedronBase.vertices_local s))%nat) ->
  PolyhedronBase._compute_face_center s face
  = Ok (face_center (PolyhedronBase.vertices_local s) face).
Proof.
  intros H. unfold PolyhedronBase._compute_face_center.
  rewrite face_center_loop by exact H. reflexivity.
Qed.

Lemma nth_elem_of (face : list nat) (i : nat) :
  (i < List.length face)%nat -> nth i face 0%nat ∈ face.
Proof. intros H. apply list_elem_of_In, nth_In. exact H. Qed.

Lemma compute_face_normal_ok (s : PolyhedronBase.t) (face : list nat) :
  (forall v, v ∈ face -> (v < List.length (PolyhedronBase.vertices_local s))%nat) ->
  PolyhedronBase._compute_face_normal s face
  = Ok (face_normal (PolyhedronBase.vertices_local s) face).
Proof.
  intros H. unfold PolyhedronBase._compute_face_normal, face_normal.
  destruct (List.length face <? 3)%nat eqn:E; [reflexivity |].
  apply Nat.ltb_ge in E.
  rewrite !index_nth by lia. cbn [rbind].
  rewrite !index_vertex by (apply H, nth_elem_of; lia). cbn [rbind].
  fold (rh_cross (PolyhedronBase.vertices_local s) face).
  destruct (Rltb _ _); reflexivity.
Qed.

Lemma is_face_visible_ok (s : PolyhedronBase.t) (f : nat) (face : list nat) (cam : vec) :
  PolyhedronBase.faces s !! f = Some face ->
  (forall v, v ∈ face -> (v < List.length (PolyhedronBase.vertices_local s))%nat) ->
  PolyhedronBase._is_face_visible s f cam = Ok (visible_flag s face cam).
Proof.
  intros Hf H. unfold PolyhedronBase._is_face_visible.
  rewrite (index_ok _ _ _ Hf). cbn [rbind].
  rewrite compute_face_center_ok by exact H. cbn [rbind].
  rewrite compute_face_normal_ok by exact H. cbn [rbind].
  destruct face; reflexivity.
Qed.

Lemma face_visibility_ok (s : PolyhedronBase.t) (cam : vec) :
  well_formed s ->
  rmap (fun face_idx => PolyhedronBase._is_face_visible s face_idx cam)
       (seq 0 (PolyhedronBase.n_faces s))
  = Ok (map (fun f => visible_flag s (default [] (PolyhedronBase.faces s !! f)) cam)
            (seq 0 (PolyhedronBase.n_faces s))).
Proof.
  intros (Hn & Hv & _). apply rmap_ok. intros f Hf.
  apply in_seq in Hf. rewrite Hn in Hf.
  destruct (lookup_lt_is_Some_2 (PolyhedronBase.faces s) f ltac:(lia)) as [face Hface].
  rewrite Hface. apply is_face_visible_ok; [exact Hface |].
  intros v. apply Hv. apply list_elem_of_lookup. eauto.
Qed.

Lemma all_faces_hidden_ok (vis : list bool) (connected : list nat) :
  (forall f, f ∈ connected -> (f < List.length vis)%nat) ->
  PolyhedronBase.all_faces_hidden vis connected
  = Ok (forallb (fun f => negb (default false (vis !! f))) connected).
Proof.
  induction connected as [| f rest IH]; intros H; [reflexivity |].
  cbn [PolyhedronBase.all_faces_hidden forallb].
  destruct (lookup_lt_is_Some_2 vis f ltac:(apply H; left)) as [v Hv].
  rewrite (index_ok _ _ _ Hv), Hv. cbn [rbind default].
  destruct v; cbn [negb andb]; [reflexivity |].
  apply IH. intros g Hg. apply H. right. exact Hg.
Qed.

Lemma incident_lt (faces : list (list nat)) (e : PolyhedronBase.edge) (f : nat) :
  incident faces e f -> (f < List.length faces)%nat.
Proof. intros (face & Hf & _). apply lookup_lt_Some in Hf. exact Hf. Qed.

Lemma forallb_ext_elem {A : Type} (f g : A -> bool) (l : list A) :
  (forall x, x ∈ l -> f x = g x) -> forallb f l = forallb g l.
Proof.
  induction l as [| x l IH]; intros H; [reflexivity |].
  cbn [forallb]. rewrite (H x) by left. rewrite IH; [reflexivity |].
  intros y Hy. apply H. right. exact Hy.
Qed.

Lemma edge_hidden_loop (s : PolyhedronBase.t) (cam : vec) (e : PolyhedronBase.edge)
    (connected : list nat) :
  well_formed s ->
  PolyhedronBase.edge_to_faces s !! e = Some connected ->
  PolyhedronBase.all_faces_hidden
    (map (fun f => visible_flag s (default [] (PolyhedronBase.faces s !! f)) cam)
         (seq 0 (PolyhedronBase.n_faces s)))
    connected
  = Ok (edge_hidden s cam e).
Proof.
  intros Hwf He. pose proof Hwf as (Hn & _ & _ & Hinc & _).
  assert (Hlt : forall f, f ∈ connected -> (f < PolyhedronBase.n_faces s)%nat).
  { intros f Hf. rewrite Hn. apply (incident_lt _ e). apply Hinc. rewrite He. exact Hf. }
  rewrite all_faces_hidden_ok.
  2: { intros f Hf. rewrite length_map, length_seq. apply Hlt. exact Hf. }
  f_equal. unfold edge_hidden. rewrite He. cbn [default].
  apply forallb_ext_elem. intros f Hf.
  rewrite list_lookup_fmap, lookup_seq_lt by (apply Hlt; exact Hf). reflexivity.
Qed.

(** ** The styling loop *)

Lemma getitem_ok {A : Type} (d : gmap (nat * nat) A) (k : nat * nat) (x : A) :
  d !! k = Some x -> getitem d k = Ok x.
Proof. intros H. unfold getitem. rewrite H. reflexivity. Qed.

Lemma restyle_restyle (s : PolyhedronBase.t) (h h' : bool) (l : PolyhedronBase.Line) :
  restyle s h (restyle s h' l) = restyle s h l.
Proof. destruct h, h'; reflexivity. Qed.

Lemma styling_loop (s : PolyhedronBase.t) (cam : vec) (vis : list bool)
    (l : list PolyhedronBase.edge) (objs0 : gmap (nat * nat) PolyhedronBase.Line) :
  (forall e, e ∈ l ->
     is_Some (objs0 !! e) /\
     exists connected, PolyhedronBase.edge_to_faces s !! e = Some connected /\
       PolyhedronBase.all_faces_hidden vis connected = Ok (edge_hidden s cam e)) ->
  exists objs,
    rfold
      (fun objs e =>
         let* line := getitem objs e in
         let* connected_faces := getitem (PolyhedronBase.edge_to_faces s) e in
         let* hidden := PolyhedronBase.all_faces_hidden vis connected_faces in
         if hidden
         then Ok (<[ e := PolyhedronBase.hidden_style s line ]> objs)
         else Ok (<[ e := PolyhedronBase.solid_style s line ]> objs))
      l objs0 = Ok objs /\
    forall e, objs !! e =
              if decide (e ∈ l)
              then restyle s (edge_hidden s cam e) <$> objs0 !! e
              else objs0 !! e.
Proof.
  revert objs0. induction l as [| x l IH]; intros objs0 H.
  - exists objs0. split; [reflexivity |]. intros e.
    destruct (decide (e ∈ [])) as [He | _]; [by apply not_elem_of_nil in He | reflexivity].
  - destruct (H x ltac:(left)) as ([line Hline] & connected & Hc & Hh).
    cbn [rfold]. rewrite (getitem_ok _ _ _ Hline). cbn [rbind].
    rewrite (getitem_ok _ _ _ Hc). cbn [rbind].
    rewrite Hh. cbn [rbind].
    set (objs1 := <[ x := restyle s (edge_hidden s cam x) line ]> objs0).
    destruct (IH objs1) as (objs & Hobjs & Hlook).
    { intros e He. destruct (H e ltac:(right; exact He)) as (Hs & Hrest).
      split; [| exact Hrest]. unfold objs1.
      destruct (decide (e = x)) as [-> | Hne];
        [rewrite lookup_insert_eq; eauto | rewrite lookup_insert_ne by done; exact Hs]. }
    exists objs. split.
    + revert Hobjs. unfold objs1, restyle.
      destruct (edge_hidden s cam x); cbn [rbind]; intros Hobjs; exact Hobjs.
    + intros e. rewrite Hlook. unfold objs1.
      destruct (decide (e = x)) as [-> | Hne].
      * rewrite lookup_insert_eq, Hline. cbn [fmap option_fmap option_map].
        rewrite restyle_restyle.
        destruct (decide (x ∈ l)), (decide (x ∈ x :: l)) as [_ | Hn]; try reflexivity;
          exfalso; apply Hn; left.
      * rewrite lookup_insert_ne by done.
        destruct (decide (e ∈ l)) as [Hl | Hl], (decide (e ∈ x :: l)) as [Hx | Hx];
          try reflexivity.
        -- exfalso. apply Hx. right. exact Hl.
        -- exfalso. apply elem_of_cons in Hx as [-> | Hx]; [done | apply Hl; exact Hx].
Qed.

Lemma update_spec (s : PolyhedronBase.t) (camera_position : option vec) :
  well_formed s ->
  exists objs,
    PolyhedronBase.update_dashed_lines s camera_position
      = Ok (PolyhedronBase.with_edge_objects s objs) /\
    forall e, objs !! e =
              restyle s (edge_hidden s (camera_of camera_position) e)
                <$> PolyhedronBase.edge_objects s !! e.
Proof.
  intros Hwf. unfold PolyhedronBase.update_dashed_lines.
  fold (camera_of camera_position). set (cam := camera_of camera_position).
  rewrite (face_visibility_ok s cam Hwf). cbn [rbind].
  pose proof Hwf as (_ & _ & _ & _ & He2f & Hobj).
  edestruct (styling_loop s cam) as (objs & Hobjs & Hlook); cycle 1.
  - rewrite Hobjs. cbn [rbind]. exists objs. split; [reflexivity |].
    intros e. rewrite Hlook.
    destruct (decide (e ∈ PolyhedronBase.edges s)) as [Hin | Hout]; [reflexivity |].
    destruct (PolyhedronBase.edge_objects s !! e) eqn:E; [| reflexivity].
    exfalso. apply Hout, Hobj. eauto.
  - intros e He. split; [apply Hobj; exact He |].
    destruct (proj2 (He2f e) He) as [connected Hc].
    exists connected. split; [exact Hc |]. apply edge_hidden_loop; assumption.
Qed.

(** ** Signs of normalised dot products *)

Lemma norm_nonneg (u : vec) : 0 <= norm u.
Proof. apply sqrt_pos. Qed.

Lemma dot_vdiv_l (u v : vec) (k : R) : dot (vdiv u k) v = dot u v / k.
Proof. unfold dot, vdiv, Rdiv; cbn. ring. Qed.

Lemma dot_vdiv_r (u v : vec) (k : R) : dot u (vdiv v k) = dot u v / k.
Proof. unfold dot, vdiv, Rdiv; cbn. ring. Qed.

Lemma Rdiv_neg_iff (a k : R) : 0 < k -> (a / k < 0 <-> a < 0).
Proof.
  intros Hk. assert (Hi : 0 < / k) by (apply Rinv_0_lt_compat; exact Hk).
  unfold Rdiv. split; intros H; nra.
Qed.

Lemma view_direction_sign (s : PolyhedronBase.t) (face : list nat) (cam n : vec) :
  dot (view_direction s face cam) n < 0 <-> dot (view_raw s face cam) n < 0.
Proof.
  unfold view_direction. rewrite dot_vdiv_l. apply Rdiv_neg_iff.
  pose proof (norm_nonneg (view_raw s face cam)). lra.
Qed.

Lemma face_normal_nondegenerate (vs : list vec) (face : list nat) :
  ~ degenerate vs face ->
  face_normal vs face = vdiv (rh_cross vs face) (norm (rh_cross vs face)) /\
  1e-6 <= norm (rh_cross vs face) /\ (3 <= List.length face)%nat.
Proof.
  intros H. unfold degenerate in H. unfold face_normal.
  destruct (List.length face <? 3)%nat eqn:E.
  { apply Nat.ltb_lt in E. tauto. }
  apply Nat.ltb_ge in E.
  destruct (Rltb _ _) eqn:E2.
  { apply Rltb_true in E2. tauto. }
  apply Rltb_false in E2. tauto.
Qed.

Lemma face_normal_degenerate (vs : list vec) (face : list nat) :
  degenerate vs face -> face_normal vs face = V3 0 0 1.
Proof.
  intros H. unfold face_normal.
  destruct (List.length face <? 3)%nat eqn:E; [reflexivity |].
  apply Nat.ltb_ge in E. destruct H as [H | H]; [lia |].
  apply Rltb_true in H. rewrite H. reflexivity.
Qed.

(** On a face that is not degenerate the visibility test is the sign of
    the dot product of the view vector with the right-hand-rule cross
    product. *)
Lemma front_facing_nondegenerate (s : PolyhedronBase.t) (f : nat) (face : list nat)
    (cam : vec) :
  PolyhedronBase.faces s !! f = Some face ->
  ~ degenerate (PolyhedronBase.vertices_local s) face ->
  (front_facing s f cam <-> front_facing_rh s f cam).
Proof.
  intros Hf Hnd.
  destruct (face_normal_nondegenerate _ _ Hnd) as (Hn & Hlen & Hlen3).
  assert (Hne : face <> []) by (intros ->; cbn in Hlen3; lia).
  assert (Hsign :
    dot (view_direction s face cam)
        (face_normal (PolyhedronBase.vertices_local s) face) < 0
    <-> dot (view_raw s face cam) (rh_cross (PolyhedronBase.vertices_local s) face) < 0).
  { rewrite view_direction_sign, Hn, dot_vdiv_r. apply Rdiv_neg_iff. lra. }
  unfold front_facing, front_facing_rh. split.
  - intros (face' & Hf' & _ & H). rewrite Hf in Hf'. injection Hf' as <-.
    exists face. split; [exact Hf | apply Hsign; exact H].
  - intros (face' & Hf' & H). rewrite Hf in Hf'. injection Hf' as <-.
    exists face. repeat split; [exact Hf | exact Hne | apply Hsign; exact H].
Qed.

(** On a degenerate face the test is the sign of the z component of the
    view vector. *)
Lemma front_facing_degenerate (s : PolyhedronBase.t) (f : nat) (face : list nat)
    (cam : vec) :
  PolyhedronBase.faces s !! f = Some face -> face <> [] ->
  degenerate (PolyhedronBase.vertices_local s) face ->
  (front_facing s f cam <-> vz (view_raw s face cam) < 0).
Proof.
  intros Hf Hne Hd.
  assert (Hsign :
    dot (view_direction s face cam)
        (face_normal (PolyhedronBase.vertices_local s) face) < 0
    <-> vz (view_raw s face cam) < 0).
  { rewrite view_direction_sign, (face_normal_degenerate _ _ Hd).
    unfold dot; cbn. split; intros H; lra. }
  unfold front_facing. split.
  - intros (face' & Hf' & _ & H). rewrite Hf in Hf'. injection Hf' as <-.
    apply Hsign; exact H.
  - intros H. exists face. repeat split; [exact Hf | exact Hne | apply Hsign; exact H].
Qed.

Lemma front_facing_flag (s : PolyhedronBase.t) (f : nat) (cam : vec) :
  front_facing s f cam <->
  visible_flag s (default [] (PolyhedronBase.faces s !! f)) cam = true.
Proof.
  unfold front_facing, visible_flag. split.
  - intros (face & -> & Hne & H). cbn [default].
    destruct face; [done |]. apply Rltb_true. exact H.
  - destruct (PolyhedronBase.faces s !! f) as [face |]; cbn [default]; [| discriminate].
    destruct face as [| v face]; [discriminate |].
    intros H. apply Rltb_true in H. exists (v :: face). repeat split; [done | exact H].
Qed.

(** An edge gets the hidden style exactly when every face incident to it
    is back-facing. *)
Lemma edge_hidden_iff (s : PolyhedronBase.t) (cam : vec) (e : PolyhedronBase.edge) :
  well_formed s ->
  (edge_hidden s cam e = true <->
   forall f, incident (PolyhedronBase.faces s) e f -> ~ front_facing s f cam).
Proof.
  intros (_ & _ & _ & Hinc & _). unfold edge_hidden.
  rewrite forallb_forall. split.
  - intros H f Hf Hfront. apply Hinc, list_elem_of_In, H in Hf.
    apply front_facing_flag in Hfront. rewrite Hfront in Hf. discriminate.
  - intros H f Hf. apply list_elem_of_In, Hinc in Hf.
    destruct (visible_flag s _ cam) eqn:E; [| reflexivity].
    exfalso. apply (H f Hf). apply front_facing_flag. exact E.
Qed.

(** ** Reachable states *)

Lemma update_well_formed (s s' : PolyhedronBase.t) (camera_position : option vec) :
  well_formed s ->
  PolyhedronBase.update_dashed_lines s camera_position = Ok s' ->
  well_formed s'.
Proof.
  intros Hwf Hup. destruct (update_spec s camera_position Hwf) as (objs & Hobjs & Hlook).
  rewrite Hobjs in Hup. injection Hup as <-.
  destruct Hwf as (H1 & H2 & H3 & H4 & H5 & H6).
  unfold well_formed. cbn. repeat split; try tauto; try apply H3; try apply H4; try apply H5.
  - intros He. apply H6. rewrite Hlook in He. apply fmap_is_Some in He. exact He.
  - intros He. rewrite Hlook. apply fmap_is_Some. apply H6. exact He.
Qed.

Lemma reachable_well_formed (s : PolyhedronBase.t) : reachable s -> well_formed s.
Proof.
  induction 1 as [? ? ? ? ? ? ? s H | s cam s' _ IH H].
  - apply init_well_formed in H. tauto.
  - eapply update_well_formed; eauto.
Qed.

Lemma styles_exclusive (s : PolyhedronBase.t) (l : PolyhedronBase.Line) :
  styled_hidden s l -> styled_solid s l -> False.
Proof. intros (_ & H1 & _) (_ & H2 & _). lra. Qed.

(** ** Construction succeeds when the face indices are in range *)

Lemma create_edges_ok (vs : list vec) (ec : string) (sw : R)
    (l : list PolyhedronBase.edge) (objs0 : gmap (nat * nat) PolyhedronBase.Line) :
  (forall e, e ∈ l -> (fst e < List.length vs)%nat /\ (snd e < List.length vs)%nat) ->
  exists objs,
    rfold
      (fun objs e =>
         let* start := index vs (fst e) in
         let* end_ := index vs (snd e) in
         Ok (<[ e := PolyhedronBase.BuildLine start end_ ec 1 sw ]> objs))
      l objs0 = Ok objs.
Proof.
  revert objs0. induction l as [| x l IH]; intros objs0 H; [eexists; reflexivity |].
  cbn [rfold]. destruct (H x ltac:(left)) as [Ha Hb].
  rewrite !index_vertex by assumption. cbn [rbind].
  apply IH. intros e He. apply H. right. exact He.
Qed.

Lemma face_edges_in_face (face : list nat) (e : PolyhedronBase.edge) :
  e ∈ PolyhedronBase.face_edges face -> fst e ∈ face /\ snd e ∈ face.
Proof.
  unfold PolyhedronBase.face_edges. intros He.
  apply list_elem_of_In, in_map_iff in He as (i & <- & Hi).
  apply in_seq in Hi.
  assert (Hn : (List.length face <> 0)%nat) by lia.
  assert (H1 : nth i face 0%nat ∈ face) by (apply nth_elem_of; lia).
  assert (H2 : nth ((i + 1) mod List.length face) face 0%nat ∈ face).
  { apply nth_elem_of. apply Nat.mod_upper_bound. exact Hn. }
  unfold PolyhedronBase.mk_edge. destruct (_ <? _)%nat; cbn; tauto.
Qed.

Lemma init_ok vertices faces edge_color vertex_color dashed_color stroke_width get_center :
  (forall face v, face ∈ faces -> v ∈ face -> (v < List.length vertices)%nat) ->
  exists s,
    PolyhedronBase.__init__ vertices faces edge_color vertex_color dashed_color
      stroke_width get_center = Ok s.
Proof.
  intros H. unfold PolyhedronBase.__init__.
  destruct (PolyhedronBase._build_edge_topology faces) as [edges m] eqn:Et.
  apply topology_spec in Et as (T1 & _).
  unfold PolyhedronBase._create_edges.
  destruct (create_edges_ok vertices edge_color stroke_width edges ∅) as [objs ->].
  - intros e He. apply T1 in He as (f & face & Hf & He).
    apply face_edges_in_face in He as [H1 H2].
    assert (Hface : face ∈ faces) by (apply list_elem_of_lookup; eauto).
    split; eapply H; eauto.
  - cbn [rbind]. eexists. reflexivity.
Qed.

(** ** The dash policy *)

(** What [update_dashed_lines] does to the lines, for any reachable state:
    the call returns, and each edge's line gets the hidden style when all
    faces incident to the edge are back-facing and the solid style
    otherwise. *)
Lemma dash_policy (s : PolyhedronBase.t) (camera_position : option vec) :
  reachable s ->
  exists s',
    PolyhedronBase.update_dashed_lines s camera_position = Ok s' /\
    forall e, e ∈ PolyhedronBase.edges s ->
      exists line line',
        PolyhedronBase.edge_objects s !! e = Some line /\
        PolyhedronBase.edge_objects s' !! e = Some line' /\
        ((forall f, incident (PolyhedronBase.faces s) e f ->
                    ~ front_facing s f (camera_of camera_position)) ->
         line' = PolyhedronBase.hidden_style s line) /\
        (~ (forall f, incident (PolyhedronBase.faces s) e f ->
                      ~ front_facing s f (camera_of camera_position)) ->
         line' = PolyhedronBase.solid_style s line).
Proof.
  intros Hr. pose proof (reachable_well_formed s Hr) as Hwf.
  destruct (update_spec s camera_position Hwf) as (objs & Hobjs & Hlook).
  exists (PolyhedronBase.with_edge_objects s objs). split; [exact Hobjs |].
  intros e He. pose proof Hwf as (_ & _ & _ & _ & _ & H6).
  destruct (proj2 (H6 e) He) as [line Hline].
  exists line, (restyle s (edge_hidden s (camera_of camera_position) e) line).
  split; [exact Hline |].
  split; [unfold PolyhedronBase.with_edge_objects; cbn [PolyhedronBase.edge_objects];
          rewrite Hlook, Hline; reflexivity |].
  pose proof (edge_hidden_iff s (camera_of camera_position) e Hwf) as Hiff.
  unfold restyle. destruct (edge_hidden s (camera_of camera_position) e).
  - split; [reflexivity | intros Hn; exfalso; apply Hn, Hiff; reflexivity].
  - split; [intros Ha; apply Hiff in Ha; discriminate | reflexivity].
Qed.

Lemma hidden_style_styled (s : PolyhedronBase.t) (l : PolyhedronBase.Line) :
  styled_hidden s (PolyhedronBase.hidden_style s l).
Proof. unfold styled_hidden; cbn. tauto. Qed.

Lemma solid_style_styled (s : PolyhedronBase.t) (l : PolyhedronBase.Line) :
  styled_solid s (PolyhedronBase.solid_style s l).
Proof. unfold styled_solid; cbn. repeat split; lra. Qed.

Lemma camera_of_Some (cam : vec) : camera_of (Some cam) = cam.
Proof. reflexivity. Qed.

(** The dash policy on the verdicts of the visibility test: for every
    polyhedron built by the constructor and every camera position,
    [update_dashed_lines] returns, and afterwards the line of an edge has
    the hidden style if and only if the test finds every face incident to
    the edge back-facing, and the solid style otherwise.  The test finds a
    face front-facing exactly when the dot product of [view_direction]
    with the face normal is negative, where the face normal is the
    normalised right-hand-rule cross product on the face's first three
    vertices when the face has at least three vertices and that cross
    product is at least 1e-6 long, and (0, 0, 1) otherwise. *)
Theorem PolyhedronBase_dash_policy vertices faces edge_color vertex_color
    dashed_color stroke_width get_center s cam :
  PolyhedronBase.__init__ vertices faces edge_color vertex_color dashed_color
    stroke_width get_center = Ok s ->
  exists s',
    PolyhedronBase.update_dashed_lines s (Some cam) = Ok s' /\
    (forall e, e ∈ PolyhedronBase.edges s <-> exists f, incident faces e f) /\
    (forall e, e ∈ PolyhedronBase.edges s ->
       exists line',
         PolyhedronBase.edge_objects s' !! e = Some line' /\
         (styled_hidden s line' <->
          forall f, incident faces e f -> ~ front_facing s f cam) /\
         (styled_solid s line' <->
          ~ forall f, incident faces e f -> ~ front_facing s f cam)) /\
    (forall f face, faces !! f = Some face -> ~ degenerate vertices face ->
       (front_facing s f cam <-> front_facing_rh s f cam)) /\
    (forall f face, faces !! f = Some face -> face <> [] -> degenerate vertices face ->
       (front_facing s f cam <-> vz (view_raw s face cam) < 0)).
Proof.
  intros Hinit.
  destruct (init_well_formed _ _ _ _ _ _ _ _ Hinit) as (Hwf & Hvs & Hfs & _).
  destruct (dash_policy s (Some cam) (reach_init _ _ _ _ _ _ _ _ Hinit))
    as (s' & Hup & Hlines).
  exists s'. split; [exact Hup |]. rewrite <- Hfs, <- Hvs.
  split; [apply Hwf |]. split; [| split].
  - intros e He. destruct (Hlines e He) as (line & line' & _ & Hl' & Hhid & Hsol).
    exists line'. split; [exact Hl' |]. rewrite camera_of_Some in Hhid, Hsol.
    pose proof (edge_hidden_iff s cam e Hwf) as Hiff.
    destruct (edge_hidden s cam e) eqn:E.
    + assert (Hall := proj1 Hiff eq_refl). rewrite (Hhid Hall). split.
      * split; [intros _; exact Hall | intros _; apply hidden_style_styled].
      * split; [| tauto].
        intros H. exfalso. eapply styles_exclusive; [apply hidden_style_styled | exact H].
    + assert (Hnall : ~ forall f, incident (PolyhedronBase.faces s) e f ->
                                  ~ front_facing s f cam).
      { intros H. apply Hiff in H. discriminate. }
      rewrite (Hsol Hnall). split.
      * split; [| tauto].
        intros H. exfalso. eapply styles_exclusive; [exact H | apply solid_style_styled].
      * split; [intros _; exact Hnall | intros _; apply solid_style_styled].
  - intros f face Hf Hnd. apply front_facing_nondegenerate with (face := face); assumption.
  - intros f face Hf Hne Hd. apply front_facing_degenerate; assumption.
Qed.

Lemma tiny_triangle_indices (face : list nat) (v : nat) :
  face ∈ [[0; 1; 2]]%nat -> v ∈ face -> (v < List.length tiny_triangle)%nat.
Proof.
  intros Hf Hv. apply elem_of_cons in Hf as [-> | Hf]; [| by apply not_elem_of_nil in Hf].
  cbn. repeat (apply elem_of_cons in Hv as [-> | Hv]; [lia |]).
  by apply not_elem_of_nil in Hv.
Qed.

Lemma PolyhedronBase_dash_policy_witness :
  exists s s',
    PolyhedronBase.__init__ tiny_triangle [[0; 1; 2]]%nat "WHITE" "YELLOW" "GRAY" 4
      (V3 (1 / 20000) (1 / 20000) 0) = Ok s /\
    PolyhedronBase.update_dashed_lines s (Some (V3 0 0 (-10))) = Ok s'.
Proof.
  destruct (init_ok tiny_triangle [[0; 1; 2]]%nat "WHITE" "YELLOW" "GRAY" 4
              (V3 (1 / 20000) (1 / 20000) 0) tiny_triangle_indices) as [s Hs].
  destruct (PolyhedronBase_dash_policy _ _ _ _ _ _ _ s (V3 0 0 (-10)) Hs)
    as (s' & Hup & _).
  exists s, s'. split; [exact Hs | exact Hup].
Defined.

(** The guard on short normals at work: the triangle with vertices
    (0, 0, 0), (0, 0.0001, 0), (0.0001, 0, 0) has the right-hand-rule cross
    product (0, 0, -1e-8), which faces a camera at (0, 0, -10); the source
    replaces the normal of so small a face by (0, 0, 1) and gives the edge
    (0, 1) the hidden style. *)
Lemma PolyhedronBase_tiny_face_dashed :
  exists s s' line',
    PolyhedronBase.__init__ tiny_triangle [[0; 1; 2]]%nat "WHITE" "YELLOW" "GRAY" 4
      (V3 (1 / 20000) (1 / 20000) 0) = Ok s /\
    PolyhedronBase.update_dashed_lines s (Some (V3 0 0 (-10))) = Ok s' /\
    (0%nat, 1%nat) ∈ PolyhedronBase.edges s /\
    incident [[0; 1; 2]]%nat (0%nat, 1%nat) 0 /\
    front_facing_rh s 0 (V3 0 0 (-10)) /\
    PolyhedronBase.edge_objects s' !! (0%nat, 1%nat) = Some line' /\
    styled_hidden s line'.
Proof.
  destruct (init_ok tiny_triangle [[0; 1; 2]]%nat "WHITE" "YELLOW" "GRAY" 4
              (V3 (1 / 20000) (1 / 20000) 0) tiny_triangle_indices) as [s Hs].
  destruct (init_well_formed _ _ _ _ _ _ _ _ Hs) as (Hwf & Hvs & Hfs & Hc & _).
  destruct (dash_policy s (Some (V3 0 0 (-10))) (reach_init _ _ _ _ _ _ _ _ Hs))
    as (s' & Hup & Hlines).
  assert (Hinc : incident [[0; 1; 2]]%nat (0%nat, 1%nat) 0).
  { exists [0; 1; 2]%nat. split; [reflexivity |].
    replace (PolyhedronBase.face_edges [0; 1; 2]%nat)
      with [(0, 1); (1, 2); (0, 2)]%nat by reflexivity.
    left. }
  assert (Hedge : (0%nat, 1%nat) ∈ PolyhedronBase.edges s).
  { pose proof Hwf as (_ & _ & Hedges & _).
    apply Hedges. exists 0%nat. rewrite Hfs. exact Hinc. }
  destruct (Hlines _ Hedge) as (line & line' & _ & Hl' & Hhid & _).
  assert (Hraw : view_raw s [0; 1; 2]%nat (V3 0 0 (-10))
                 = V3 (1 / 20000 + (0 + 0 + 0 + 1 / 10000) / 3)
                      (1 / 20000 + (0 + 0 + 1 / 10000 + 0) / 3)
                      (0 + (0 + 0 + 0 + 0) / 3 - -10)).
  { unfold view_raw. rewrite Hc, Hvs.
    unfold face_center, tiny_triangle, vertex, vsub, vadd, vdiv.
    cbn. f_equal; field. }
  assert (Hcross : rh_cross tiny_triangle [0; 1; 2]%nat
                   = V3 0 0 (- (1 / 10000 * (1 / 10000)))).
  { unfold rh_cross, tiny_triangle, vertex, cross, vsub. cbn. f_equal; field. }
  assert (Hall : forall f, incident (PolyhedronBase.faces s) (0%nat, 1%nat) f ->
                           ~ front_facing s f (camera_of (Some (V3 0 0 (-10))))).
  { intros f (face & Hf & He) Hfront. rewrite Hfs in Hf.
    destruct f as [| f]; [| destruct f; discriminate]. injection Hf as <-.
    rewrite camera_of_Some in Hfront.
    assert (Hf0 : PolyhedronBase.faces s !! 0%nat = Some [0; 1; 2]%nat)
      by (rewrite Hfs; reflexivity).
    assert (Hdeg : degenerate (PolyhedronBase.vertices_local s) [0; 1; 2]%nat).
    { right. rewrite Hvs, Hcross. unfold norm. cbn [vx vy vz]. apply sqrt_lt_iff; lra. }
    apply (proj1 (front_facing_degenerate s 0 _ _ Hf0 ltac:(discriminate) Hdeg))
      in Hfront.
    rewrite Hraw in Hfront. cbn in Hfront. lra. }
  exists s, s', line'. repeat split; try assumption.
  - exists [0; 1; 2]%nat. rewrite Hfs. split; [reflexivity |].
    rewrite Hraw, Hvs, Hcross. unfold dot; cbn. lra.
  - rewrite (Hhid Hall). apply hidden_style_styled.
  - rewrite (Hhid Hall). apply hidden_style_styled.
  - rewrite (Hhid Hall). apply hidden_style_styled.
Qed.

(** ** Idempotence *)

Lemma restyle_endpoints (s : PolyhedronBase.t) (h : bool) (l : PolyhedronBase.Line) :
  PolyhedronBase.line_start (restyle s h l) = PolyhedronBase.line_start l /\
  PolyhedronBase.line_end (restyle s h l) = PolyhedronBase.line_end l.
Proof. destruct h; cbn; tauto. Qed.

(** C9: on every state a program can hold, and for every camera argument,
    [update_dashed_lines] returns; calling it again with the same camera
    returns the very same state, so every edge keeps the style the first
    call gave it; and the state after a call differs from the state before
    in nothing but the stroke style of the edge lines: vertices, faces,
    edge list, edge-to-faces dictionary, colours, dots and centre are
    unchanged, and every line keeps its two end points. *)
Theorem update_dashed_lines_idempotent (s : PolyhedronBase.t)
    (camera_position : option vec) :
  reachable s ->
  exists s1,
    PolyhedronBase.update_dashed_lines s camera_position = Ok s1 /\
    PolyhedronBase.update_dashed_lines s1 camera_position = Ok s1 /\
    same_but_styles s s1.
Proof.
  intros Hr. pose proof (reachable_well_formed s Hr) as Hwf.
  destruct (update_spec s camera_position Hwf) as (objs & Hobjs & Hlook).
  set (s1 := PolyhedronBase.with_edge_objects s objs) in *.
  exists s1. split; [exact Hobjs |].
  assert (Hwf1 : well_formed s1) by (eapply update_well_formed; eauto).
  split.
  - destruct (update_spec s1 camera_position Hwf1) as (objs2 & Hobjs2 & Hlook2).
    rewrite Hobjs2. f_equal.
    assert (Heq : objs2 = objs).
    { apply map_eq. intros e. rewrite Hlook2.
      change (PolyhedronBase.edge_objects s1) with objs.
      change (edge_hidden s1 (camera_of camera_position) e)
        with (edge_hidden s (camera_of camera_position) e).
      rewrite !Hlook. destruct (PolyhedronBase.edge_objects s !! e) as [l |];
        [| reflexivity].
      cbn [fmap option_fmap option_map]. f_equal.
      destruct (edge_hidden s (camera_of camera_position) e); reflexivity. }
    rewrite Heq. reflexivity.
  - unfold same_but_styles. repeat split.
    intros e. change (PolyhedronBase.edge_objects s1) with objs. rewrite Hlook.
    destruct (PolyhedronBase.edge_objects s !! e) as [l |]; [| exact I].
    cbn [fmap option_fmap option_map]. apply restyle_endpoints.
Qed.

Lemma update_dashed_lines_idempotent_witness :
  exists s s1,
    PolyhedronBase.__init__ tiny_triangle [[0; 1; 2]]%nat "WHITE" "YELLOW" "GRAY" 4
      (V3 (1 / 20000) (1 / 20000) 0) = Ok s /\
    PolyhedronBase.update_dashed_lines s None = Ok s1 /\
    PolyhedronBase.update_dashed_lines s1 None = Ok s1.
Proof.
  destruct (init_ok tiny_triangle [[0; 1; 2]]%nat "WHITE" "YELLOW" "GRAY" 4
              (V3 (1 / 20000) (1 / 20000) 0) tiny_triangle_indices) as [s Hs].
  destruct (update_dashed_lines_idempotent s None (reach_init _ _ _ _ _ _ _ _ Hs))
    as (s1 & H1 & H2 & _).
  exists s, s1. tauto.
Defined.

(** ** The cube: vertices and face orientation *)

Lemma cube_vertices_built (L : R) (origin_point : string) :
  In (upper origin_point) CubeGeometry.vertex_names ->
  exists o,
    CubeGeometry.lookup_vertex (CubeGeometry.standard_vertices L) (upper origin_point)
      = Ok o /\
    rmap (fun name =>
            let* v := CubeGeometry.lookup_vertex (CubeGeometry.standard_vertices L) name in
            Ok (vadd v (vneg o)))
         CubeGeometry.vertex_names
      = Ok (cube_vertices L (vneg o)).
Proof.
  unfold CubeGeometry.vertex_names. cbn [In].
  intros [<- | [<- | [<- | [<- | [<- | [<- | [<- | [<- | []]]]]]]]];
    eexists; (split; [reflexivity |]); reflexivity.
Qed.

Lemma cube_unknown_origin (L : R) (origin_point : string) :
  ~ In (upper origin_point) CubeGeometry.vertex_names ->
  CubeGeometry.lookup_vertex (CubeGeometry.standard_vertices L) (upper origin_point)
    = Raise KeyError.
Proof.
  intros H. unfold CubeGeometry.standard_vertices, CubeGeometry.vertex_names in *.
  cbn [CubeGeometry.lookup_vertex In] in *.
  repeat (destruct (String.eqb _ (upper origin_point)) eqn:E;
          [apply String.eqb_eq in E; exfalso; apply H; tauto | clear E]).
  reflexivity.
Qed.

Lemma rmap_index_vertices (vs : list vec) (face : list nat) :
  (forall v, v ∈ face -> (v < List.length vs)%nat) ->
  rmap (index vs) face = Ok (map (vertex vs) face).
Proof.
  intros H. apply rmap_ok. intros v Hv. apply index_vertex, H, list_elem_of_In, Hv.
Qed.

(** What the loop body of [_correct_face_normals] returns on a face with at
    least three vertices, all in range. *)
Lemma correct_face_spec (vs : list vec) (center : vec) (face : list nat) :
  (3 <= List.length face)%nat ->
  (forall v, v ∈ face -> (v < List.length vs)%nat) ->
  CubeGeometry.correct_face vs center face =
    Ok (if Rltb (norm (consecutive_cross vs face)) 1e-6 then face
        else if Rltb (dot (consecutive_cross vs face)
                          (vsub (face_center vs face) center)) 0
             then rev face else face).
Proof.
  intros Hlen Hin. unfold CubeGeometry.correct_face.
  rewrite (index_nth face 0) by lia. cbn [rbind].
  rewrite index_vertex by (apply Hin, nth_elem_of; lia). cbn [rbind].
  rewrite (index_nth face 1) by lia. cbn [rbind].
  rewrite index_vertex by (apply Hin, nth_elem_of; lia). cbn [rbind].
  rewrite (index_nth face 2) by lia. cbn [rbind].
  rewrite index_vertex by (apply Hin, nth_elem_of; lia). cbn [rbind].
  fold (consecutive_cross vs face).
  destruct (Rltb (norm (consecutive_cross vs face)) 1e-6) eqn:En; [reflexivity |].
  apply Rltb_false in En.
  rewrite rmap_index_vertices by exact Hin. cbn [rbind].
  fold (face_center vs face).
  set (n := consecutive_cross vs face) in *.
  set (chk := vsub (face_center vs face) center).
  assert (Hsign : Rltb (dot (vdiv n (norm n)) (vdiv chk (norm chk + 1e-6))) 0
                  = Rltb (dot n chk) 0).
  { assert (Hiff : dot (vdiv n (norm n)) (vdiv chk (norm chk + 1e-6)) < 0
                   <-> dot n chk < 0).
    { rewrite dot_vdiv_l, dot_vdiv_r.
      pose proof (norm_nonneg chk).
      rewrite !Rdiv_neg_iff by lra. tauto. }
    destruct (Rltb (dot n chk) 0) eqn:E.
    - apply Rltb_true. apply Hiff. apply Rltb_true. exact E.
    - apply Rltb_false. apply Rltb_false in E.
      destruct (Rle_or_lt 0 (dot (vdiv n (norm n)) (vdiv chk (norm chk + 1e-6))))
        as [Hle | Hlt]; [exact Hle |].
      apply Hiff in Hlt. lra. }
  rewrite Hsign. destruct (Rltb (dot n chk) 0); reflexivity.
Qed.

(** ** The cube: geometry of the six faces *)

Lemma cube_vertices_length (L : R) (off : vec) :
  List.length (cube_vertices L off) = 8%nat.
Proof. reflexivity. Qed.

Lemma cube_mean (L : R) (off : vec) :
  CubeGeometry.mean (cube_vertices L off)
  = V3 (L / 2 + vx off) (L / 2 + vy off) (L / 2 + vz off).
Proof.
  unfold CubeGeometry.mean, cube_vertices, cube_base, vdiv, vadd. cbn.
  f_equal; field.
Qed.

Ltac cube_vec :=
  unfold consecutive_cross, rh_cross, face_center, cube_vertices, cube_base, vertex,
    cross, vsub, vdiv, vadd;
  cbn; f_equal; field.

Lemma cube_rh_cross (L : R) (off : vec) :
  let rc := rh_cross (cube_vertices L off) in
  rc [3; 2; 1; 0]%nat = V3 0 0 (- (L * L)) /\
  rc [4; 5; 6; 7]%nat = V3 0 0 (L * L) /\
  rc [0; 1; 5; 4]%nat = V3 0 (- (L * L)) 0 /\
  rc [1; 2; 6; 5]%nat = V3 (L * L) 0 0 /\
  rc [2; 3; 7; 6]%nat = V3 0 (L * L) 0 /\
  rc [3; 0; 4; 7]%nat = V3 (- (L * L)) 0 0.
Proof. cbn zeta. repeat split; cube_vec. Qed.

Lemma cube_face_centers (L : R) (off : vec) :
  let fc := face_center (cube_vertices L off) in
  fc [3; 2; 1; 0]%nat = V3 (L / 2 + vx off) (L / 2 + vy off) (vz off) /\
  fc [4; 5; 6; 7]%nat = V3 (L / 2 + vx off) (L / 2 + vy off) (L + vz off) /\
  fc [0; 1; 5; 4]%nat = V3 (L / 2 + vx off) (vy off) (L / 2 + vz off) /\
  fc [1; 2; 6; 5]%nat = V3 (L + vx off) (L / 2 + vy off) (L / 2 + vz off) /\
  fc [2; 3; 7; 6]%nat = V3 (L / 2 + vx off) (L + vy off) (L / 2 + vz off) /\
  fc [3; 0; 4; 7]%nat = V3 (vx off) (L / 2 + vy off) (L / 2 + vz off).
Proof. cbn zeta. repeat split; cube_vec. Qed.

Lemma norm_eq (u : vec) (k : R) :
  0 <= k -> vx u * vx u + vy u * vy u + vz u * vz u = k * k -> norm u = k.
Proof. intros Hk H. unfold norm. rewrite H. apply sqrt_square. exact Hk. Qed.

Lemma cube_face_indices (L : R) (off : vec) (face : list nat) (v : nat) :
  face ∈ CubeGeometry.initial_faces \/ face ∈ cube_faces ->
  v ∈ face -> (v < List.length (cube_vertices L off))%nat.
Proof.
  rewrite cube_vertices_length. unfold CubeGeometry.initial_faces, cube_faces.
  intros [Hf | Hf] Hv;
    repeat (apply elem_of_cons in Hf as [-> | Hf];
            [repeat (apply elem_of_cons in Hv as [-> | Hv]; [lia |]);
             by apply not_elem_of_nil in Hv |]);
    by apply not_elem_of_nil in Hf.
Qed.

(** The six faces before the orientation pass: cross products and the
    vectors from the centre of the cube to the face centres. *)
Lemma cube_initial_cross (L : R) (off : vec) :
  let cc := consecutive_cross (cube_vertices L off) in
  cc [0; 1; 2; 3]%nat = V3 0 0 (L * L) /\
  cc [4; 5; 6; 7]%nat = V3 0 0 (L * L) /\
  cc [0; 1; 5; 4]%nat = V3 0 (- (L * L)) 0 /\
  cc [1; 2; 6; 5]%nat = V3 (L * L) 0 0 /\
  cc [2; 3; 7; 6]%nat = V3 0 (L * L) 0 /\
  cc [3; 0; 4; 7]%nat = V3 (- (L * L)) 0 0 /\
  cc [3; 2; 1; 0]%nat = V3 0 0 (- (L * L)).
Proof. cbn zeta. repeat split; cube_vec. Qed.

Lemma cube_initial_outward_vectors (L : R) (off : vec) :
  let out face := vsub (face_center (cube_vertices L off) face)
                       (CubeGeometry.mean (cube_vertices L off)) in
  out [0; 1; 2; 3]%nat = V3 0 0 (- (L / 2)) /\
  out [4; 5; 6; 7]%nat = V3 0 0 (L / 2) /\
  out [0; 1; 5; 4]%nat = V3 0 (- (L / 2)) 0 /\
  out [1; 2; 6; 5]%nat = V3 (L / 2) 0 0 /\
  out [2; 3; 7; 6]%nat = V3 0 (L / 2) 0 /\
  out [3; 0; 4; 7]%nat = V3 (- (L / 2)) 0 0 /\
  out [3; 2; 1; 0]%nat = V3 0 0 (- (L / 2)).
Proof. cbn zeta. rewrite cube_mean. repeat split; cube_vec. Qed.

Lemma correct_cube_face (L : R) (off : vec) (face : list nat) (n chk : vec) :
  face ∈ CubeGeometry.initial_faces ->
  consecutive_cross (cube_vertices L off) face = n ->
  vsub (face_center (cube_vertices L off) face)
       (CubeGeometry.mean (cube_vertices L off)) = chk ->
  vx n * vx n + vy n * vy n + vz n * vz n = (L * L) * (L * L) ->
  CubeGeometry.correct_face (cube_vertices L off)
    (CubeGeometry.mean (cube_vertices L off)) face =
  Ok (if Rltb (L * L) 1e-6 then face
      else if Rltb (dot n chk) 0 then rev face else face).
Proof.
  intros Hf Hn Hchk Hnorm. rewrite correct_face_spec.
  - rewrite Hn, Hchk. rewrite (norm_eq n (L * L)); [reflexivity | nra | exact Hnorm].
  - unfold CubeGeometry.initial_faces in Hf.
    repeat (apply elem_of_cons in Hf as [-> | Hf]; [cbn; lia |]).
    by apply not_elem_of_nil in Hf.
  - intros v. apply cube_face_indices. left. exact Hf.
Qed.

Ltac initial_face_member :=
  unfold CubeGeometry.initial_faces;
  repeat first [apply list_elem_of_here | apply list_elem_of_further].

Lemma correct_cube_faces_general (L : R) (off : vec) :
  0 < L ->
  CubeGeometry._correct_face_normals (cube_vertices L off) CubeGeometry.initial_faces
  = Ok (if Rltb (L * L) 1e-6 then CubeGeometry.initial_faces else cube_faces).
Proof.
  intros HL. unfold CubeGeometry._correct_face_normals.
  destruct (cube_initial_cross L off) as (Hn0 & Hn1 & Hn2 & Hn3 & Hn4 & Hn5 & _).
  destruct (cube_initial_outward_vectors L off)
    as (Hc0 & Hc1 & Hc2 & Hc3 & Hc4 & Hc5 & _).
  unfold CubeGeometry.initial_faces at 1. cbn [rmap].
  rewrite (correct_cube_face L off [0; 1; 2; 3]%nat _ _ ltac:(initial_face_member) Hn0 Hc0)
    by (cbn; ring).
  rewrite (correct_cube_face L off [4; 5; 6; 7]%nat _ _ ltac:(initial_face_member) Hn1 Hc1)
    by (cbn; ring).
  rewrite (correct_cube_face L off [0; 1; 5; 4]%nat _ _ ltac:(initial_face_member) Hn2 Hc2)
    by (cbn; ring).
  rewrite (correct_cube_face L off [1; 2; 6; 5]%nat _ _ ltac:(initial_face_member) Hn3 Hc3)
    by (cbn; ring).
  rewrite (correct_cube_face L off [2; 3; 7; 6]%nat _ _ ltac:(initial_face_member) Hn4 Hc4)
    by (cbn; ring).
  rewrite (correct_cube_face L off [3; 0; 4; 7]%nat _ _ ltac:(initial_face_member) Hn5 Hc5)
    by (cbn; ring).
  cbn [rbind].
  destruct (Rltb (L * L) 1e-6); [reflexivity |].
  assert (HL2 : 0 < L * L) by nra.
  assert (H0 : Rltb (dot (V3 0 0 (L * L)) (V3 0 0 (- (L / 2)))) 0 = true)
    by (apply Rltb_true; unfold dot; cbn [vx vy vz]; nra).
  assert (H1 : Rltb (dot (V3 0 0 (L * L)) (V3 0 0 (L / 2))) 0 = false)
    by (apply Rltb_false; unfold dot; cbn [vx vy vz]; nra).
  assert (H2 : Rltb (dot (V3 0 (- (L * L)) 0) (V3 0 (- (L / 2)) 0)) 0 = false)
    by (apply Rltb_false; unfold dot; cbn [vx vy vz]; nra).
  assert (H3 : Rltb (dot (V3 (L * L) 0 0) (V3 (L / 2) 0 0)) 0 = false)
    by (apply Rltb_false; unfold dot; cbn [vx vy vz]; nra).
  assert (H4 : Rltb (dot (V3 0 (L * L) 0) (V3 0 (L / 2) 0)) 0 = false)
    by (apply Rltb_false; unfold dot; cbn [vx vy vz]; nra).
  assert (H5 : Rltb (dot (V3 (- (L * L)) 0 0) (V3 (- (L / 2)) 0 0)) 0 = false)
    by (apply Rltb_false; unfold dot; cbn [vx vy vz]; nra).
  rewrite H0, H1, H2, H3, H4, H5. reflexivity.
Qed.

Lemma cube_init_unfold (L : R) (origin_point : string)
    (ec vc dc : string) (sw : R) (c : vec) :
  In (upper origin_point) CubeGeometry.vertex_names ->
  exists o,
    CubeGeometry.lookup_vertex (CubeGeometry.standard_vertices L) (upper origin_point)
      = Ok o /\
    CubeGeometry.__init__ L origin_point ec vc dc sw c =
    (let* faces :=
       CubeGeometry._correct_face_normals (cube_vertices L (vneg o))
         CubeGeometry.initial_faces in
     PolyhedronBase.__init__ (cube_vertices L (vneg o)) faces ec vc dc sw c).
Proof.
  intros Hin. destruct (cube_vertices_built L origin_point Hin) as (o & Ho & Hvs).
  exists o. split; [exact Ho |]. unfold CubeGeometry.__init__.
  rewrite Ho. cbn [rbind]. rewrite Hvs. cbn [rbind]. reflexivity.
Qed.

(** The state the cube constructor returns. *)
Lemma cube_state (L : R) (origin_point : string) (ec vc dc : string) (sw : R) (c : vec) :
  0 < L -> In (upper origin_point) CubeGeometry.vertex_names ->
  exists o s,
    CubeGeometry.lookup_vertex (CubeGeometry.standard_vertices L) (upper origin_point)
      = Ok o /\
    CubeGeometry.__init__ L origin_point ec vc dc sw c = Ok s /\
    PolyhedronBase.vertices_local s = cube_vertices L (vneg o) /\
    PolyhedronBase.faces s
      = (if Rltb (L * L) 1e-6 then CubeGeometry.initial_faces else cube_faces) /\
    PolyhedronBase.center s = c /\
    reachable s.
Proof.
  intros HL Hin.
  destruct (cube_init_unfold L origin_point ec vc dc sw c Hin) as (o & Ho & Hinit).
  rewrite correct_cube_faces_general in Hinit by exact HL. cbn [rbind] in Hinit.
  set (faces := if Rltb (L * L) 1e-6 then CubeGeometry.initial_faces else cube_faces) in *.
  destruct (init_ok (cube_vertices L (vneg o)) faces ec vc dc sw c) as [s Hs].
  { intros face v Hf. apply cube_face_indices. unfold faces in Hf.
    destruct (Rltb (L * L) 1e-6); tauto. }
  exists o, s. split; [exact Ho |]. rewrite Hinit.
  destruct (init_well_formed _ _ _ _ _ _ _ _ Hs) as (_ & Hvs & Hfs & Hc & _).
  repeat split; try assumption. eapply reach_init. exact Hs.
Qed.

Lemma big_cube_threshold (L : R) : 0.001 <= L -> Rltb (L * L) 1e-6 = false.
Proof. intros H. apply Rltb_false. nra. Qed.

Lemma small_cube_threshold (L : R) : 0 < L -> L < 0.001 -> Rltb (L * L) 1e-6 = true.
Proof. intros H0 H. apply Rltb_true. nra. Qed.

Lemma cube_faces_outward (L : R) (off : vec) :
  0 < L -> Forall (outward (cube_vertices L off)) cube_faces.
Proof.
  intros HL. assert (HL2 : 0 < L * L) by nra.
  destruct (cube_initial_cross L off) as (_ & Hn1 & Hn2 & Hn3 & Hn4 & Hn5 & Hn0).
  destruct (cube_initial_outward_vectors L off) as (_ & Hc1 & Hc2 & Hc3 & Hc4 & Hc5 & Hc0).
  cbn zeta in *. unfold cube_faces.
  repeat (apply List.Forall_cons; [unfold outward |]); [.. | apply List.Forall_nil].
  - rewrite Hn0, Hc0. unfold dot; cbn [vx vy vz]. nra.
  - rewrite Hn1, Hc1. unfold dot; cbn [vx vy vz]. nra.
  - rewrite Hn2, Hc2. unfold dot; cbn [vx vy vz]. nra.
  - rewrite Hn3, Hc3. unfold dot; cbn [vx vy vz]. nra.
  - rewrite Hn4, Hc4. unfold dot; cbn [vx vy vz]. nra.
  - rewrite Hn5, Hc5. unfold dot; cbn [vx vy vz]. nra.
Qed.

(** C10, amended: for every side length >= 0.001 and every valid origin
    corner the constructor returns, and each of the six faces it passes on
    lists its vertices in an order whose right-hand-rule normal (the cross
    product of the first two consecutive edge vectors) has a non-negative
    dot product with the direction from the centre of the cube to the
    centre of the face. *)
Theorem CubeGeometry_faces_outward (side_length : R) (origin_point : string)
    (edge_color vertex_color dashed_color : string) (stroke_width : R)
    (get_center : vec) :
  0.001 <= side_length ->
  In (upper origin_point) CubeGeometry.vertex_names ->
  exists s,
    CubeGeometry.__init__ side_length origin_point edge_color vertex_color
      dashed_color stroke_width get_center = Ok s /\
    List.length (PolyhedronBase.faces s) = 6%nat /\
    Forall (outward (PolyhedronBase.vertices_local s)) (PolyhedronBase.faces s).
Proof.
  intros HL Hin.
  destruct (cube_state side_length origin_point edge_color vertex_color dashed_color
              stroke_width get_center ltac:(lra) Hin)
    as (o & s & _ & Hs & Hvs & Hfs & _).
  rewrite big_cube_threshold in Hfs by exact HL.
  exists s. rewrite Hfs, Hvs. repeat split; [exact Hs |].
  apply cube_faces_outward. lra.
Qed.

Lemma CubeGeometry_faces_outward_witness :
  exists s,
    CubeGeometry.__init__ 2 "A" "WHITE" "YELLOW" "GRAY" 4 (V3 1 1 1) = Ok s /\
    List.length (PolyhedronBase.faces s) = 6%nat /\
    Forall (outward (PolyhedronBase.vertices_local s)) (PolyhedronBase.faces s).
Proof.
  apply CubeGeometry_faces_outward; [lra |].
  replace (upper "A") with "A"%string by reflexivity.
  unfold CubeGeometry.vertex_names. left. reflexivity.
Defined.

(** C10, as stated, fails for cubes with a side below 0.001: with side
    length 0.0005 every cross product is shorter than 1e-6, the orientation
    pass keeps every face as given, and the bottom face [0, 1, 2, 3] keeps
    its inward normal. *)
Lemma CubeGeometry_small_cube_inward :
  exists s,
    CubeGeometry.__init__ 0.0005 "A" "WHITE" "YELLOW" "GRAY" 4
      (V3 0.00025 0.00025 0.00025) = Ok s /\
    0 < 0.0005 /\
    In (upper "A") CubeGeometry.vertex_names /\
    [0; 1; 2; 3]%nat ∈ PolyhedronBase.faces s /\
    ~ outward (PolyhedronBase.vertices_local s) [0; 1; 2; 3]%nat.
Proof.
  assert (Hin : In (upper "A") CubeGeometry.vertex_names).
  { replace (upper "A") with "A"%string by reflexivity.
    unfold CubeGeometry.vertex_names. left. reflexivity. }
  destruct (cube_state 0.0005 "A" "WHITE" "YELLOW" "GRAY" 4
              (V3 0.00025 0.00025 0.00025) ltac:(lra) Hin)
    as (o & s & _ & Hs & Hvs & Hfs & _).
  rewrite small_cube_threshold in Hfs by lra.
  exists s. rewrite Hfs, Hvs. repeat split; try assumption; try lra.
  - unfold CubeGeometry.initial_faces. apply list_elem_of_here.
  - unfold outward.
    destruct (cube_initial_cross 0.0005 (vneg o)) as (Hn0 & _).
    destruct (cube_initial_outward_vectors 0.0005 (vneg o)) as (Hc0 & _).
    cbn zeta in *. rewrite Hn0, Hc0. unfold dot; cbn [vx vy vz]. lra.
Qed.

(** ** The cube seen along +Z *)

(** The styles after an update, on any reachable state. *)
Lemma dash_policy_iff (s : PolyhedronBase.t) (cam : vec) :
  reachable s ->
  exists s',
    PolyhedronBase.update_dashed_lines s (Some cam) = Ok s' /\
    forall e, e ∈ PolyhedronBase.edges s ->
      exists line',
        PolyhedronBase.edge_objects s' !! e = Some line' /\
        (styled_hidden s line' <->
         forall f, incident (PolyhedronBase.faces s) e f -> ~ front_facing s f cam) /\
        (styled_solid s line' <->
         ~ forall f, incident (PolyhedronBase.faces s) e f -> ~ front_facing s f cam).
Proof.
  intros Hr. pose proof (reachable_well_formed s Hr) as Hwf.
  destruct (dash_policy s (Some cam) Hr) as (s' & Hup & Hlines).
  exists s'. split; [exact Hup |].
  intros e He. destruct (Hlines e He) as (line & line' & _ & Hl' & Hhid & Hsol).
  exists line'. split; [exact Hl' |]. rewrite camera_of_Some in Hhid, Hsol.
  pose proof (edge_hidden_iff s cam e Hwf) as Hiff.
  destruct (edge_hidden s cam e) eqn:E.
  - assert (Hall := proj1 Hiff eq_refl). rewrite (Hhid Hall). split.
    + split; [intros _; exact Hall | intros _; apply hidden_style_styled].
    + split; [| tauto].
      intros H. exfalso. eapply styles_exclusive; [apply hidden_style_styled | exact H].
  - assert (Hnall : ~ forall f, incident (PolyhedronBase.faces s) e f ->
                                ~ front_facing s f cam).
    { intros H. apply Hiff in H. discriminate. }
    rewrite (Hsol Hnall). split.
    + split; [| tauto].
      intros H. exfalso. eapply styles_exclusive; [exact H | apply solid_style_styled].
    + split; [intros _; exact Hnall | intros _; apply solid_style_styled].
Qed.

(** Which faces of the cube an edge lies on. *)
Lemma cube_face_edges :
  map PolyhedronBase.face_edges cube_faces =
  [ [(2, 3); (1, 2); (0, 1); (0, 3)];
    [(4, 5); (5, 6); (6, 7); (4, 7)];
    [(0, 1); (1, 5); (4, 5); (0, 4)];
    [(1, 2); (2, 6); (5, 6); (1, 5)];
    [(2, 3); (3, 7); (6, 7); (2, 6)];
    [(0, 3); (0, 4); (4, 7); (3, 7)] ]%nat.
Proof. reflexivity. Qed.

Lemma cube_incident (e : nat * nat) (f : nat) :
  incident cube_faces e f <->
  exists es, map PolyhedronBase.face_edges cube_faces !! f = Some es /\ e ∈ es.
Proof.
  unfold incident. rewrite list_lookup_fmap. split.
  - intros (face & -> & He). eexists. split; [reflexivity | exact He].
  - intros (es & Hes & He).
    destruct (cube_faces !! f) as [face |]; [| discriminate].
    injection Hes as <-. eauto.
Qed.

Lemma cube_edges_all (e : nat * nat) :
  (exists f, incident cube_faces e f) <-> e ∈ front_edges ++ back_edges ++ lateral_edges.
Proof.
  split.
  - intros (f & Hf). apply cube_incident in Hf as (es & Hes & He).
    rewrite cube_face_edges in Hes.
    do 6 (destruct f as [| f]; [injection Hes as <-;
           repeat (apply elem_of_cons in He as [-> | He]; [set_solver |]);
           by apply not_elem_of_nil in He |]).
    discriminate.
  - unfold front_edges, back_edges, lateral_edges. cbn [app]. intros He.
    repeat (apply elem_of_cons in He as [-> | He];
            [first [ exists 0%nat; apply cube_incident; rewrite cube_face_edges;
                     eexists; split; [reflexivity | set_solver]
                   | exists 1%nat; apply cube_incident; rewrite cube_face_edges;
                     eexists; split; [reflexivity | set_solver]
                   | exists 2%nat; apply cube_incident; rewrite cube_face_edges;
                     eexists; split; [reflexivity | set_solver]
                   | exists 3%nat; apply cube_incident; rewrite cube_face_edges;
                     eexists; split; [reflexivity | set_solver]
                   | exists 4%nat; apply cube_incident; rewrite cube_face_edges;
                     eexists; split; [reflexivity | set_solver] ] |]).
    by apply not_elem_of_nil in He.
Qed.

Lemma cube_front_incident (e : nat * nat) :
  incident cube_faces e 1 <-> e ∈ front_edges.
Proof.
  rewrite cube_incident, cube_face_edges. cbn. unfold front_edges. split.
  - intros (es & Hes & He). injection Hes as <-. exact He.
  - intros He. eauto.
Qed.

Lemma Rabs_le_bounds (x b : R) : Rabs x <= b -> - b <= x <= b.
Proof. unfold Rabs. destruct (Rcase_abs x); lra. Qed.

Lemma cube_face_front (L : R) (s : PolyhedronBase.t) (cam : vec) (f : nat)
    (face : list nat) (n fc : vec) :
  0.001 <= L ->
  PolyhedronBase.faces s !! f = Some face ->
  (3 <= List.length face)%nat ->
  rh_cross (PolyhedronBase.vertices_local s) face = n ->
  vx n * vx n + vy n * vy n + vz n * vz n = (L * L) * (L * L) ->
  face_center (PolyhedronBase.vertices_local s) face = fc ->
  (front_facing s f cam <->
   dot (vsub (vadd (PolyhedronBase.center s) fc) cam) n < 0).
Proof.
  intros HL Hf Hlen Hn Hnorm Hfc.
  rewrite (front_facing_nondegenerate s f face cam Hf).
  - unfold front_facing_rh, view_raw. split.
    + intros (face' & Hf' & H). rewrite Hf in Hf'. injection Hf' as <-.
      rewrite Hn, Hfc in H. exact H.
    + intros H. exists face. split; [exact Hf |]. rewrite Hn, Hfc. exact H.
  - unfold degenerate. intros [H | H]; [lia |].
    rewrite Hn, (norm_eq n (L * L)) in H; [nra | nra | exact Hnorm].
Qed.

(** From a viewpoint fully in front of the face z = L, that face (index 1)
    is the only visible one. *)
Lemma cube_front_facing (L : R) (off : vec) (s : PolyhedronBase.t) (cam : vec) :
  0.001 <= L ->
  PolyhedronBase.vertices_local s = cube_vertices L off ->
  PolyhedronBase.faces s = cube_faces ->
  front_view L s cam ->
  forall f, front_facing s f cam <-> f = 1%nat.
Proof.
  intros HL Hvs Hfs (Hx & Hy & Hz) f.
  unfold cube_world_center in Hx, Hy, Hz. rewrite Hvs, cube_mean in Hx, Hy, Hz.
  cbn [vadd vx vy vz] in Hx, Hy, Hz.
  apply Rabs_le_bounds in Hx, Hy.
  destruct (cube_rh_cross L off) as (Hn0 & Hn1 & Hn2 & Hn3 & Hn4 & Hn5).
  destruct (cube_face_centers L off) as (Hc0 & Hc1 & Hc2 & Hc3 & Hc4 & Hc5).
  cbn zeta in *. rewrite <- Hvs in Hn0, Hn1, Hn2, Hn3, Hn4, Hn5, Hc0, Hc1, Hc2, Hc3, Hc4, Hc5.
  assert (HL2 : 0 < L * L) by nra.
  destruct f as [| [| [| [| [| [| f]]]]]].
  - rewrite (cube_face_front L s cam 0 _ _ _ HL ltac:(rewrite Hfs; reflexivity)
               ltac:(cbn; lia) Hn0 ltac:(cbn; ring) Hc0).
    unfold dot, vsub, vadd; cbn [vx vy vz]. split; [intros H; exfalso; nra | discriminate].
  - rewrite (cube_face_front L s cam 1 _ _ _ HL ltac:(rewrite Hfs; reflexivity)
               ltac:(cbn; lia) Hn1 ltac:(cbn; ring) Hc1).
    unfold dot, vsub, vadd; cbn [vx vy vz]. split; [reflexivity | intros _; nra].
  - rewrite (cube_face_front L s cam 2 _ _ _ HL ltac:(rewrite Hfs; reflexivity)
               ltac:(cbn; lia) Hn2 ltac:(cbn; ring) Hc2).
    unfold dot, vsub, vadd; cbn [vx vy vz]. split; [intros H; exfalso; nra | discriminate].
  - rewrite (cube_face_front L s cam 3 _ _ _ HL ltac:(rewrite Hfs; reflexivity)
               ltac:(cbn; lia) Hn3 ltac:(cbn; ring) Hc3).
    unfold dot, vsub, vadd; cbn [vx vy vz]. split; [intros H; exfalso; nra | discriminate].
  - rewrite (cube_face_front L s cam 4 _ _ _ HL ltac:(rewrite Hfs; reflexivity)
               ltac:(cbn; lia) Hn4 ltac:(cbn; ring) Hc4).
    unfold dot, vsub, vadd; cbn [vx vy vz]. split; [intros H; exfalso; nra | discriminate].
  - rewrite (cube_face_front L s cam 5 _ _ _ HL ltac:(rewrite Hfs; reflexivity)
               ltac:(cbn; lia) Hn5 ltac:(cbn; ring) Hc5).
    unfold dot, vsub, vadd; cbn [vx vy vz]. split; [intros H; exfalso; nra | discriminate].
  - split; [| discriminate].
    intros (face & Hf & _). rewrite Hfs in Hf. discriminate.
Qed.

Lemma cube_edges_disjoint (e : nat * nat) :
  e ∈ back_edges ++ lateral_edges -> e ∈ front_edges -> False.
Proof.
  unfold back_edges, lateral_edges, front_edges. cbn [app]. intros H1 H2.
  repeat (apply elem_of_cons in H1 as [-> | H1];
          [repeat (apply elem_of_cons in H2 as [H2 | H2]; [discriminate |]);
           by apply not_elem_of_nil in H2 |]).
  by apply not_elem_of_nil in H1.
Qed.

(** The styles of a cube's edges after an update from a viewpoint fully in
    front of the face z = L. *)
Lemma cube_front_view_styles (L : R) (off : vec) (s : PolyhedronBase.t) (cam : vec) :
  0.001 <= L ->
  reachable s ->
  PolyhedronBase.vertices_local s = cube_vertices L off ->
  PolyhedronBase.faces s = cube_faces ->
  front_view L s cam ->
  exists s',
    PolyhedronBase.update_dashed_lines s (Some cam) = Ok s' /\
    (forall e, e ∈ PolyhedronBase.edges s <->
               e ∈ front_edges ++ back_edges ++ lateral_edges) /\
    (forall e, e ∈ PolyhedronBase.edges s ->
       exists line',
         PolyhedronBase.edge_objects s' !! e = Some line' /\
         (styled_hidden s line' <-> e ∈ back_edges ++ lateral_edges) /\
         (styled_solid s line' <-> e ∈ front_edges)).
Proof.
  intros HL Hr Hvs Hfs Hview.
  pose proof (reachable_well_formed s Hr) as (_ & _ & Hedges & _).
  assert (Hall : forall e, e ∈ PolyhedronBase.edges s <->
                           e ∈ front_edges ++ back_edges ++ lateral_edges).
  { intros e. rewrite Hedges, Hfs. apply cube_edges_all. }
  destruct (dash_policy_iff s cam Hr) as (s' & Hup & Hlines).
  exists s'. split; [exact Hup |]. split; [exact Hall |].
  intros e He. destruct (Hlines e He) as (line' & Hl' & Hhid & Hsol).
  exists line'. split; [exact Hl' |].
  assert (Hback : (forall f, incident (PolyhedronBase.faces s) e f ->
                             ~ front_facing s f cam) <-> ~ e ∈ front_edges).
  { rewrite <- cube_front_incident, Hfs. split.
    - intros H Hinc. apply (H 1%nat Hinc).
      apply (cube_front_facing L off s cam HL Hvs Hfs Hview). reflexivity.
    - intros H f Hinc Hfront.
      apply (cube_front_facing L off s cam HL Hvs Hfs Hview) in Hfront. subst f.
      apply H. exact Hinc. }
  apply Hall in He. rewrite elem_of_app in He.
  split.
  - rewrite Hhid, Hback. split.
    + intros Hn. destruct He as [He | He]; [contradiction | exact He].
    + intros Hb Hf. exact (cube_edges_disjoint e Hb Hf).
  - rewrite Hsol, Hback. split.
    + intros Hn. destruct He as [He | He]; [exact He |].
      exfalso. apply Hn. intros Hf. exact (cube_edges_disjoint e He Hf).
    + intros Hf Hn. exact (Hn Hf).
Qed.

(** The cube of side 2 with corner A at the origin, its group centred at
    (1, 1, 1), seen from (2, 2, 12). *)
Lemma cube_example :
  exists s,
    CubeGeometry.__init__ 2 "A" "WHITE" "YELLOW" "GRAY" 4 (V3 1 1 1) = Ok s /\
    PolyhedronBase.vertices_local s = cube_vertices 2 (vneg (V3 0 0 0)) /\
    PolyhedronBase.faces s = cube_faces /\
    reachable s /\
    front_view 2 s (V3 2 2 12).
Proof.
  assert (Hin : In (upper "A") CubeGeometry.vertex_names).
  { replace (upper "A") with "A"%string by reflexivity.
    unfold CubeGeometry.vertex_names. left. reflexivity. }
  destruct (cube_state 2 "A" "WHITE" "YELLOW" "GRAY" 4 (V3 1 1 1) ltac:(lra) Hin)
    as (o & s & Ho & Hs & Hvs & Hfs & Hc & Hr).
  assert (Ho' : CubeGeometry.lookup_vertex (CubeGeometry.standard_vertices 2)
                  (upper "A") = Ok (V3 0 0 0)) by reflexivity.
  rewrite Ho' in Ho. injection Ho as <-.
  rewrite big_cube_threshold in Hfs by lra.
  exists s. repeat split; try assumption.
  all: unfold cube_world_center; rewrite Hc, Hvs, cube_mean; cbn [vadd vneg vx vy vz].
  - apply Rabs_le. lra.
  - apply Rabs_le. lra.
  - lra.
Qed.

(** The verdict of [_is_face_visible], as a proposition. *)
Lemma front_facing_code (s : PolyhedronBase.t) (f : nat) (cam : vec) :
  well_formed s ->
  (front_facing s f cam <-> PolyhedronBase._is_face_visible s f cam = Ok true).
Proof.
  intros (_ & Hrange & _). rewrite front_facing_flag.
  destruct (PolyhedronBase.faces s !! f) as [face |] eqn:Hf.
  - rewrite (is_face_visible_ok s f face cam Hf).
    + change (default [] (Some face)) with face.
      split; [intros -> | intros [= ->]]; reflexivity.
    + intros v Hv. eapply Hrange; [| exact Hv]. apply list_elem_of_lookup. eauto.
  - cbn [default visible_flag]. unfold PolyhedronBase._is_face_visible, index.
    rewrite Hf. cbn [rbind]. split; discriminate.
Qed.

Lemma edge_is_hidden_iff (s s' : PolyhedronBase.t) (e : nat * nat)
    (line' : PolyhedronBase.Line) :
  PolyhedronBase.edge_objects s' !! e = Some line' ->
  (edge_is_hidden s s' e <-> styled_hidden s line').
Proof.
  intros Hl. unfold edge_is_hidden. split.
  - intros (l & Hl' & H). rewrite Hl in Hl'. injection Hl' as <-. exact H.
  - intros H. eauto.
Qed.

Lemma edge_is_solid_iff (s s' : PolyhedronBase.t) (e : nat * nat)
    (line' : PolyhedronBase.Line) :
  PolyhedronBase.edge_objects s' !! e = Some line' ->
  (edge_is_solid s s' e <-> styled_solid s line').
Proof.
  intros Hl. unfold edge_is_solid. split.
  - intros (l & Hl' & H). rewrite Hl in Hl'. injection Hl' as <-. exact H.
  - intros H. eauto.
Qed.

(** Each of the four side faces of the cube has an edge of the back face,
    and an edge joining back and front face lies on side faces only. *)
Lemma cube_side_face_back_edge (f : nat) :
  (2 <= f <= 5)%nat -> exists e, e ∈ back_edges /\ incident cube_faces e f.
Proof.
  intros Hf. unfold back_edges.
  assert (f = 2 \/ f = 3 \/ f = 4 \/ f = 5)%nat as [-> | [-> | [-> | ->]]] by lia.
  - exists (0, 1)%nat. split; [set_solver |]. apply cube_incident.
    rewrite cube_face_edges. eexists. split; [reflexivity | set_solver].
  - exists (1, 2)%nat. split; [set_solver |]. apply cube_incident.
    rewrite cube_face_edges. eexists. split; [reflexivity | set_solver].
  - exists (2, 3)%nat. split; [set_solver |]. apply cube_incident.
    rewrite cube_face_edges. eexists. split; [reflexivity | set_solver].
  - exists (0, 3)%nat. split; [set_solver |]. apply cube_incident.
    rewrite cube_face_edges. eexists. split; [reflexivity | set_solver].
Qed.

Lemma cube_lateral_side_faces (e : nat * nat) (f : nat) :
  e ∈ lateral_edges -> incident cube_faces e f -> (2 <= f <= 5)%nat.
Proof.
  intros He Hf. apply cube_incident in Hf as (es & Hes & Hin).
  rewrite cube_face_edges in Hes. unfold lateral_edges in He.
  destruct f as [| [| f]]; [| | destruct f as [| [| [| [| f]]]]; [lia | lia | lia | lia |]].
  - injection Hes as <-.
    repeat (apply elem_of_cons in He as [-> | He];
            [repeat (apply elem_of_cons in Hin as [Hin | Hin]; [discriminate |]);
             by apply not_elem_of_nil in Hin |]).
    by apply not_elem_of_nil in He.
  - injection Hes as <-.
    repeat (apply elem_of_cons in He as [-> | He];
            [repeat (apply elem_of_cons in Hin as [Hin | Hin]; [discriminate |]);
             by apply not_elem_of_nil in Hin |]).
    by apply not_elem_of_nil in He.
  - discriminate.
Qed.

(** The styles of a cube's edges after an update, from the verdicts of
    the visibility test. *)
Lemma cube_styles_from_verdicts (s : PolyhedronBase.t) (cam : vec) :
  reachable s ->
  PolyhedronBase.faces s = cube_faces ->
  exists s',
    PolyhedronBase.update_dashed_lines s (Some cam) = Ok s' /\
    (forall e, e ∈ PolyhedronBase.edges s <->
               e ∈ front_edges ++ back_edges ++ lateral_edges) /\
    (forall e, e ∈ PolyhedronBase.edges s ->
       (edge_is_hidden s s' e <->
        forall f, incident cube_faces e f ->
                  PolyhedronBase._is_face_visible s f cam <> Ok true) /\
       (edge_is_solid s s' e <->
        ~ forall f, incident cube_faces e f ->
                    PolyhedronBase._is_face_visible s f cam <> Ok true)).
Proof.
  intros Hr Hfs.
  pose proof (reachable_well_formed s Hr) as Hwf.
  pose proof Hwf as (_ & _ & Hedges & _).
  destruct (dash_policy_iff s cam Hr) as (s' & Hup & Hlines).
  exists s'. split; [exact Hup |]. split.
  { intros e. rewrite Hedges, Hfs. apply cube_edges_all. }
  intros e He. destruct (Hlines e He) as (line' & Hl' & Hhid & Hsol).
  assert (Hiff : (forall f, incident (PolyhedronBase.faces s) e f ->
                            ~ front_facing s f cam)
                 <-> (forall f, incident cube_faces e f ->
                                PolyhedronBase._is_face_visible s f cam <> Ok true)).
  { rewrite Hfs. split; intros H f Hf Hv; apply (H f Hf);
      apply (front_facing_code s f cam Hwf); exact Hv. }
  rewrite (edge_is_hidden_iff s s' e line' Hl'), (edge_is_solid_iff s s' e line' Hl').
  rewrite Hhid, Hsol, Hiff. tauto.
Qed.

(** The same cube seen from (0.5, 0.5, 10), which is also beyond the
    face z = 2 along +Z and within that face's extent: the visibility
    test measures the face y = 0 (A B B1 A1, index 2) from (2, 1, 2) and
    finds it front-facing. *)
Lemma cube_example_side_face_visible (s : PolyhedronBase.t) :
  CubeGeometry.__init__ 2 "A" "WHITE" "YELLOW" "GRAY" 4 (V3 1 1 1) = Ok s ->
  PolyhedronBase._is_face_visible s 2 (V3 0.5 0.5 10) = Ok true.
Proof.
  intros Hs.
  assert (Hin : In (upper "A") CubeGeometry.vertex_names).
  { replace (upper "A") with "A"%string by reflexivity.
    unfold CubeGeometry.vertex_names. left. reflexivity. }
  destruct (cube_state 2 "A" "WHITE" "YELLOW" "GRAY" 4 (V3 1 1 1) ltac:(lra) Hin)
    as (o & s0 & Ho & Hs0 & Hvs & Hfs & Hc & Hr).
  rewrite Hs in Hs0. injection Hs0 as <-.
  rewrite big_cube_threshold in Hfs by lra.
  destruct (cube_rh_cross 2 (vneg o)) as (_ & _ & Hn2 & _).
  destruct (cube_face_centers 2 (vneg o)) as (_ & _ & Hc2 & _).
  cbn zeta in Hn2, Hc2. rewrite <- Hvs in Hn2, Hc2.
  assert (Ho' : CubeGeometry.lookup_vertex (CubeGeometry.standard_vertices 2)
                  (upper "A") = Ok (V3 0 0 0)) by reflexivity.
  rewrite Ho' in Ho. injection Ho as <-.
  apply (front_facing_code s 2 _ (reachable_well_formed s Hr)).
  rewrite (cube_face_front 2 s _ 2 _ _ _ ltac:(lra) ltac:(rewrite Hfs; reflexivity)
             ltac:(cbn; lia) Hn2 ltac:(cbn; ring) Hc2).
  rewrite Hc. unfold dot, vsub, vadd, vneg; cbn [vx vy vz]. lra.
Qed.

(** C2, as stated, fails, in two ways, on the cube of side 2 with corner A
    at the origin.  Seen from (2, 2, 12), beyond the face z = 2 along +Z,
    the visibility test finds that face front-facing and no other, and the
    edges A-A1 and C-C1, which join the back face to the front face, get
    the hidden style too; no face of the cube has both as edges, so the
    hidden edges are not the four edges of one face.  Seen from
    (0.5, 0.5, 10), beyond the same face and within its extent, the edge
    A-B of the back face stays solid, because the test finds the side face
    y = 0 front-facing. *)
Lemma CubeGeometry_lateral_edges_hidden :
  exists s,
    CubeGeometry.__init__ 2 "A" "WHITE" "YELLOW" "GRAY" 4 (V3 1 1 1) = Ok s /\
    PolyhedronBase.vertices_local s = cube_vertices 2 (vneg (V3 0 0 0)) /\
    (exists s' l1 l2,
        only_front_face_visible s (V3 2 2 12) /\
        CubeGeometry.update_dashed_lines s (Some (V3 2 2 12)) = Ok s' /\
        PolyhedronBase.edge_objects s' !! (0%nat, 4%nat) = Some l1 /\
        styled_hidden s l1 /\
        PolyhedronBase.edge_objects s' !! (2%nat, 6%nat) = Some l2 /\
        styled_hidden s l2 /\
        ~ (0%nat, 4%nat) ∈ back_edges /\
        forall face, face ∈ PolyhedronBase.faces s ->
          ~ ((0%nat, 4%nat) ∈ PolyhedronBase.face_edges face /\
             (2%nat, 6%nat) ∈ PolyhedronBase.face_edges face)) /\
    (exists s' l,
        CubeGeometry.update_dashed_lines s (Some (V3 0.5 0.5 10)) = Ok s' /\
        PolyhedronBase._is_face_visible s 2 (V3 0.5 0.5 10) = Ok true /\
        (0%nat, 1%nat) ∈ back_edges /\
        PolyhedronBase.edge_objects s' !! (0%nat, 1%nat) = Some l /\
        styled_solid s l).
Proof.
  destruct cube_example as (s & Hs & Hvs & Hfs & Hr & Hview).
  exists s. split; [exact Hs |]. split; [exact Hvs |]. split.
  - destruct (cube_front_view_styles 2 _ s (V3 2 2 12) ltac:(lra) Hr Hvs Hfs Hview)
      as (s' & Hup & Hall & Hstyles).
    assert (H04 : (0%nat, 4%nat) ∈ back_edges ++ lateral_edges)
      by (unfold back_edges, lateral_edges; cbn [app]; set_solver).
    assert (H26 : (2%nat, 6%nat) ∈ back_edges ++ lateral_edges)
      by (unfold back_edges, lateral_edges; cbn [app]; set_solver).
    destruct (Hstyles (0%nat, 4%nat)) as (l1 & Hl1 & Hh1 & _).
    { apply Hall. rewrite elem_of_app. right. exact H04. }
    destruct (Hstyles (2%nat, 6%nat)) as (l2 & Hl2 & Hh2 & _).
    { apply Hall. rewrite elem_of_app. right. exact H26. }
    exists s', l1, l2.
    split.
    { intros f. rewrite <- (front_facing_code s f _ (reachable_well_formed s Hr)).
      apply (cube_front_facing 2 _ s (V3 2 2 12) ltac:(lra) Hvs Hfs Hview). }
    split; [exact Hup |].
    split; [exact Hl1 |]. split; [apply Hh1; exact H04 |].
    split; [exact Hl2 |]. split; [apply Hh2; exact H26 |].
    split.
    + unfold back_edges. intros H.
      repeat (apply elem_of_cons in H as [H | H]; [discriminate |]).
      by apply not_elem_of_nil in H.
    + rewrite Hfs. unfold cube_faces. intros face Hface [H1 H2].
      repeat (apply elem_of_cons in Hface as [-> | Hface];
              [vm_compute in H1, H2;
               repeat (apply elem_of_cons in H1 as [H1 | H1]; [try discriminate |]);
               try (by apply not_elem_of_nil in H1);
               repeat (apply elem_of_cons in H2 as [H2 | H2]; [try discriminate |]);
               try (by apply not_elem_of_nil in H2) |]).
      by apply not_elem_of_nil in Hface.
  - pose proof (cube_example_side_face_visible s Hs) as Hvis.
    destruct (cube_styles_from_verdicts s (V3 0.5 0.5 10) Hr Hfs)
      as (s' & Hup & Hall & Hstyles).
    assert (H01 : (0%nat, 1%nat) ∈ back_edges) by (unfold back_edges; set_solver).
    assert (Hedge : (0%nat, 1%nat) ∈ PolyhedronBase.edges s).
    { apply Hall. rewrite !elem_of_app. right. left. exact H01. }
    assert (Hsolid : edge_is_solid s s' (0%nat, 1%nat)).
    { apply (proj2 (Hstyles _ Hedge)). intros H. apply (H 2%nat); [| exact Hvis].
      apply cube_incident. rewrite cube_face_edges.
      eexists. split; [reflexivity | set_solver]. }
    destruct Hsolid as (l & Hl & Hsol).
    exists s', l. split; [exact Hup |]. split; [exact Hvis |].
    split; [exact H01 |]. split; [exact Hl | exact Hsol].
Qed.

(** C2, amended: for a cube of side >= 0.001 and any camera position,
    [update_dashed_lines] returns and styles the twelve edges of the cube.
    When the visibility test finds the face z = L (A1 B1 C1 D1)
    front-facing and the five other faces back-facing, exactly eight edges
    get the hidden style, the four of the back face and the four joining
    the back face to the front face, and exactly the four edges of the
    front face get the solid style.  For no camera position are the hidden
    edges just the four of the back face: whenever those four are hidden,
    the four joining edges are hidden too. *)
Theorem CubeGeometry_hidden_edges (side_length : R) (origin_point : string)
    (edge_color vertex_color dashed_color : string) (stroke_width : R)
    (get_center : vec) (s : PolyhedronBase.t) (cam : vec) :
  0.001 <= side_length ->
  CubeGeometry.__init__ side_length origin_point edge_color vertex_color
    dashed_color stroke_width get_center = Ok s ->
  exists s',
    CubeGeometry.update_dashed_lines s (Some cam) = Ok s' /\
    (forall e, e ∈ PolyhedronBase.edges s <->
               e ∈ front_edges ++ back_edges ++ lateral_edges) /\
    (only_front_face_visible s cam ->
     forall e, e ∈ PolyhedronBase.edges s ->
       (edge_is_hidden s s' e <-> e ∈ back_edges ++ lateral_edges) /\
       (edge_is_solid s s' e <-> e ∈ front_edges)) /\
    ((forall e, e ∈ back_edges -> edge_is_hidden s s' e) ->
     forall e, e ∈ lateral_edges -> edge_is_hidden s s' e).
Proof.
  intros HL Hinit.
  destruct (in_dec string_dec (upper origin_point) CubeGeometry.vertex_names)
    as [Hin | Hout].
  2: { unfold CubeGeometry.__init__ in Hinit.
       rewrite (cube_unknown_origin side_length origin_point Hout) in Hinit.
       discriminate. }
  destruct (cube_state side_length origin_point edge_color vertex_color
              dashed_color stroke_width get_center ltac:(lra) Hin)
    as (o & s0 & _ & Hs0 & Hvs & Hfs & _ & Hr).
  rewrite Hinit in Hs0. injection Hs0 as <-.
  rewrite big_cube_threshold in Hfs by exact HL.
  destruct (cube_styles_from_verdicts s cam Hr Hfs) as (s' & Hup & Hall & Hstyles).
  exists s'. split; [exact Hup |]. split; [exact Hall |]. split.
  - intros Hfront e He. destruct (Hstyles e He) as [Hhid Hsol].
    assert (Hback : (forall f, incident cube_faces e f ->
                               PolyhedronBase._is_face_visible s f cam <> Ok true)
                    <-> ~ e ∈ front_edges).
    { rewrite <- cube_front_incident. split.
      - intros H Hinc. apply (H 1%nat Hinc). apply Hfront. reflexivity.
      - intros H f Hinc Hv. apply Hfront in Hv. subst f. apply H. exact Hinc. }
    apply Hall in He. rewrite elem_of_app in He. split.
    + rewrite Hhid, Hback. split.
      * intros Hn. destruct He as [He | He]; [contradiction | exact He].
      * intros Hb Hf. exact (cube_edges_disjoint e Hb Hf).
    + rewrite Hsol, Hback. split.
      * intros Hn. destruct He as [He | He]; [exact He |].
        exfalso. apply Hn. intros Hf. exact (cube_edges_disjoint e He Hf).
      * intros Hf Hn. exact (Hn Hf).
  - intros Hbackhid e He.
    assert (Hedge : e ∈ PolyhedronBase.edges s).
    { apply Hall. rewrite !elem_of_app. right. right. exact He. }
    apply (proj1 (Hstyles e Hedge)). intros f Hf Hv.
    destruct (cube_side_face_back_edge f (cube_lateral_side_faces e f He Hf))
      as (e' & He' & Hf').
    assert (Hedge' : e' ∈ PolyhedronBase.edges s).
    { apply Hall. rewrite !elem_of_app. right. left. exact He'. }
    apply (proj1 (proj1 (Hstyles e' Hedge')) (Hbackhid e' He') f Hf'). exact Hv.
Qed.

Lemma CubeGeometry_hidden_edges_witness :
  exists s s',
    CubeGeometry.__init__ 2 "A" "WHITE" "YELLOW" "GRAY" 4 (V3 1 1 1) = Ok s /\
    only_front_face_visible s (V3 2 2 12) /\
    CubeGeometry.update_dashed_lines s (Some (V3 2 2 12)) = Ok s' /\
    edge_is_hidden s s' (0%nat, 1%nat) /\
    edge_is_hidden s s' (0%nat, 4%nat) /\
    edge_is_solid s s' (4%nat, 5%nat).
Proof.
  destruct cube_example as (s & Hs & Hvs & Hfs & Hr & Hview).
  destruct (CubeGeometry_hidden_edges 2 "A" "WHITE" "YELLOW" "GRAY" 4 (V3 1 1 1)
              s (V3 2 2 12) ltac:(lra) Hs) as (s' & Hup & Hall & Hfront & _).
  assert (Honly : only_front_face_visible s (V3 2 2 12)).
  { intros f. rewrite <- (front_facing_code s f _ (reachable_well_formed s Hr)).
    apply (cube_front_facing 2 _ s (V3 2 2 12) ltac:(lra) Hvs Hfs Hview). }
  exists s, s'. split; [exact Hs |]. split; [exact Honly |]. split; [exact Hup |].
  assert (H01 : (0%nat, 1%nat) ∈ PolyhedronBase.edges s)
    by (apply Hall; unfold front_edges, back_edges, lateral_edges; set_solver).
  assert (H04 : (0%nat, 4%nat) ∈ PolyhedronBase.edges s)
    by (apply Hall; unfold front_edges, back_edges, lateral_edges; set_solver).
  assert (H45 : (4%nat, 5%nat) ∈ PolyhedronBase.edges s)
    by (apply Hall; unfold front_edges, back_edges, lateral_edges; set_solver).
  split; [| split].
  - apply (proj1 (Hfront Honly _ H01)). unfold back_edges, lateral_edges. set_solver.
  - apply (proj1 (Hfront Honly _ H04)). unfold back_edges, lateral_edges. set_solver.
  - apply (proj2 (Hfront Honly _ H45)). unfold front_edges. set_solver.
Defined.

(** The camera (1, 1, 2.5) is half a unit in front of the face z = 2 of
    the cube [0, 2]³, over the centre (1, 1, 2) of that face.  The
    visibility test measures each face from the group's centre plus the
    mean of the face's vertices, here from (2, 2, 3) for the face z = 2,
    and finds no face of the cube front-facing. *)
Lemma cube_near_camera_no_face (s : PolyhedronBase.t) :
  PolyhedronBase.vertices_local s = cube_vertices 2 (V3 0 0 0) ->
  PolyhedronBase.faces s = cube_faces ->
  PolyhedronBase.center s = V3 1 1 1 ->
  forall f, ~ front_facing s f (V3 1 1 2.5).
Proof.
  intros Hvs Hfs Hc f.
  destruct (cube_rh_cross 2 (V3 0 0 0)) as (Hn0 & Hn1 & Hn2 & Hn3 & Hn4 & Hn5).
  destruct (cube_face_centers 2 (V3 0 0 0)) as (Hc0 & Hc1 & Hc2 & Hc3 & Hc4 & Hc5).
  cbn zeta in *.
  rewrite <- Hvs in Hn0, Hn1, Hn2, Hn3, Hn4, Hn5, Hc0, Hc1, Hc2, Hc3, Hc4, Hc5.
  assert (HL : 0.001 <= 2) by lra.
  destruct f as [| [| [| [| [| [| f]]]]]].
  - rewrite (cube_face_front 2 s _ 0 _ _ _ HL ltac:(rewrite Hfs; reflexivity)
               ltac:(cbn; lia) Hn0 ltac:(cbn; ring) Hc0).
    rewrite Hc. unfold dot, vsub, vadd; cbn [vx vy vz]. lra.
  - rewrite (cube_face_front 2 s _ 1 _ _ _ HL ltac:(rewrite Hfs; reflexivity)
               ltac:(cbn; lia) Hn1 ltac:(cbn; ring) Hc1).
    rewrite Hc. unfold dot, vsub, vadd; cbn [vx vy vz]. lra.
  - rewrite (cube_face_front 2 s _ 2 _ _ _ HL ltac:(rewrite Hfs; reflexivity)
               ltac:(cbn; lia) Hn2 ltac:(cbn; ring) Hc2).
    rewrite Hc. unfold dot, vsub, vadd; cbn [vx vy vz]. lra.
  - rewrite (cube_face_front 2 s _ 3 _ _ _ HL ltac:(rewrite Hfs; reflexivity)
               ltac:(cbn; lia) Hn3 ltac:(cbn; ring) Hc3).
    rewrite Hc. unfold dot, vsub, vadd; cbn [vx vy vz]. lra.
  - rewrite (cube_face_front 2 s _ 4 _ _ _ HL ltac:(rewrite Hfs; reflexivity)
               ltac:(cbn; lia) Hn4 ltac:(cbn; ring) Hc4).
    rewrite Hc. unfold dot, vsub, vadd; cbn [vx vy vz]. lra.
  - rewrite (cube_face_front 2 s _ 5 _ _ _ HL ltac:(rewrite Hfs; reflexivity)
               ltac:(cbn; lia) Hn5 ltac:(cbn; ring) Hc5).
    rewrite Hc. unfold dot, vsub, vadd; cbn [vx vy vz]. lra.
  - intros (face & Hf & _). rewrite Hfs in Hf. discriminate.
Qed.

(** C1 fails on the code, by a slip of the code: the polyhedron with the
    vertices and faces of the cube [0, 2]³ (what the cube class builds for
    side 2 and origin A, its group centred at (1, 1, 1)), updated from the
    camera (1, 1, 2.5).  The face z = 2 (A1 B1 C1 D1) is not degenerate,
    its centre is (1, 1, 2), its right-hand-rule normal is (0, 0, 4), and
    the view direction from the camera to its centre has a negative dot
    product with that normal: the face is front-facing in the sense of the
    statement.  The source finds it back-facing, because it adds the
    group's centre to the face centre, which is in world coordinates
    already, and every edge of that face gets the hidden style. *)
Theorem PolyhedronBase_facing_face_edges_hidden :
  let vs := cube_vertices 2 (V3 0 0 0) in
  let cam := V3 1 1 2.5 in
  exists s s',
    PolyhedronBase.__init__ vs cube_faces "WHITE" "YELLOW" "GRAY" 4 (V3 1 1 1) = Ok s /\
    PolyhedronBase.update_dashed_lines s (Some cam) = Ok s' /\
    cube_faces !! 1%nat = Some [4; 5; 6; 7]%nat /\
    face_center vs [4; 5; 6; 7]%nat = V3 1 1 2 /\
    rh_cross vs [4; 5; 6; 7]%nat = V3 0 0 4 /\
    ~ degenerate vs [4; 5; 6; 7]%nat /\
    faces_camera vs [4; 5; 6; 7]%nat cam /\
    PolyhedronBase._is_face_visible s 1 cam = Ok false /\
    forall e, e ∈ front_edges ->
      incident cube_faces e 1 /\ edge_is_hidden s s' e.
Proof.
  cbv zeta.
  destruct (init_ok (cube_vertices 2 (V3 0 0 0)) cube_faces "WHITE" "YELLOW" "GRAY" 4
              (V3 1 1 1)) as [s Hs].
  { intros face v Hf. apply cube_face_indices. right. exact Hf. }
  destruct (init_well_formed _ _ _ _ _ _ _ _ Hs) as (Hwf & Hvs & Hfs & Hc & _).
  pose proof (reach_init _ _ _ _ _ _ _ _ Hs) as Hr.
  destruct (cube_styles_from_verdicts s (V3 1 1 2.5) Hr Hfs)
    as (s' & Hup & Hall & Hstyles).
  pose proof (cube_near_camera_no_face s Hvs Hfs Hc) as Hnone.
  destruct (cube_rh_cross 2 (V3 0 0 0)) as (_ & Hn1 & _).
  destruct (cube_face_centers 2 (V3 0 0 0)) as (_ & Hc1 & _).
  cbn zeta in Hn1, Hc1.
  assert (Hfc : face_center (cube_vertices 2 (V3 0 0 0)) [4; 5; 6; 7]%nat = V3 1 1 2).
  { rewrite Hc1. cbn [vx vy vz]. f_equal; lra. }
  assert (Hrc : rh_cross (cube_vertices 2 (V3 0 0 0)) [4; 5; 6; 7]%nat = V3 0 0 4).
  { rewrite Hn1. f_equal; lra. }
  exists s, s'. split; [exact Hs |]. split; [exact Hup |].
  split; [reflexivity |]. split; [exact Hfc |]. split; [exact Hrc |].
  split; [| split; [| split]].
  - unfold degenerate. rewrite Hrc. intros [H | H]; [cbn in H; lia |].
    rewrite (norm_eq (V3 0 0 4) 4) in H; [lra | lra | cbn [vx vy vz]; ring].
  - unfold faces_camera. rewrite Hfc, Hrc. unfold dot, vsub. cbn [vx vy vz]. lra.
  - assert (Hf1 : PolyhedronBase.faces s !! 1%nat = Some [4; 5; 6; 7]%nat)
      by (rewrite Hfs; reflexivity).
    rewrite (is_face_visible_ok s 1 _ _ Hf1).
    + f_equal. destruct (visible_flag s [4; 5; 6; 7]%nat (V3 1 1 2.5)) eqn:E;
        [| reflexivity].
      exfalso. apply (Hnone 1%nat). apply front_facing_flag. rewrite Hf1. exact E.
    + intros v Hv. destruct Hwf as (_ & Hrange & _).
      eapply Hrange; [| exact Hv]. apply list_elem_of_lookup. eauto.
  - intros e He. split; [apply cube_front_incident; exact He |].
    assert (Hedge : e ∈ PolyhedronBase.edges s).
    { apply Hall. rewrite elem_of_app. left. exact He. }
    apply (proj1 (Hstyles e Hedge)). intros f _ Hv.
    apply (Hnone f). apply (front_facing_code s f _ Hwf). exact Hv.
Qed.

(** ** Further properties of the conic builders *)

Lemma dist_eq (u v : vec) (k : R) :
  0 <= k ->
  (vx u - vx v) * (vx u - vx v) + (vy u - vy v) * (vy u - vy v)
    + (vz u - vz v) * (vz u - vz v) = k * k ->
  dist u v = k.
Proof. intros Hk H. unfold dist. apply norm_eq; [exact Hk |]. exact H. Qed.

Lemma ellipse_focal_sqr (a b : R) :
  0 < b -> b <= a ->
  sqrt (a ^ 2 - b ^ 2) * sqrt (a ^ 2 - b ^ 2) = a ^ 2 - b ^ 2 /\
  0 <= sqrt (a ^ 2 - b ^ 2).
Proof.
  intros Hb Hab. split; [| apply sqrt_pos]. apply sqrt_sqrt. nra.
Qed.

(** X1: for a >= b > 0 the four vertex dots and the two focus dots of the
    ellipse fit together: from each vertex dot the distances to the two
    foci add up to 2a. *)
Theorem StandardEllipse_vertices_focal_sum (a b : R) :
  0 < b -> b <= a ->
  exists e f1 f2 a1 a2 b1 b2,
    StandardEllipse.__init__ a b true true false = Ok e /\
    StandardEllipse.foci e = Some (f1, f2) /\
    StandardEllipse.vertices e = Some (a1, a2, b1, b2) /\
    Forall (fun v => dist v f1 + dist v f2 = 2 * a) [a1; a2; b1; b2].
Proof.
  intros Hb Hab.
  destruct (ellipse_focal_sqr a b Hb Hab) as [Hcc Hc0].
  pose proof (ellipse_focal_inside a b Hb Hab) as Hca.
  unfold StandardEllipse.__init__.
  rewrite (proj2 (Rltb_false a b)) by lra.
  rewrite math_sqrt_ok by nra. cbn [rbind].
  set (c := sqrt (a ^ 2 - b ^ 2)) in *.
  do 7 eexists. split; [reflexivity |]. cbn [StandardEllipse.foci StandardEllipse.vertices].
  split; [reflexivity |]. split; [reflexivity |].
  rewrite !vscale_LEFT, !vscale_RIGHT, vscale_DOWN, vscale_UP.
  repeat apply List.Forall_cons; [| | | | apply List.Forall_nil].
  - rewrite (dist_eq _ _ (a - c)), (dist_eq _ _ (a + c)); cbn [vx vy vz]; try lra; ring.
  - rewrite (dist_eq _ _ (a + c)), (dist_eq _ _ (a - c)); cbn [vx vy vz]; try lra; ring.
  - rewrite (dist_eq _ _ a), (dist_eq _ _ a); cbn [vx vy vz]; try lra; nra.
  - rewrite (dist_eq _ _ a), (dist_eq _ _ a); cbn [vx vy vz]; try lra; nra.
Qed.

Lemma StandardEllipse_vertices_focal_sum_witness :
  exists e f1 f2 a1 a2 b1 b2,
    StandardEllipse.__init__ 3 2 true true false = Ok e /\
    StandardEllipse.foci e = Some (f1, f2) /\
    StandardEllipse.vertices e = Some (a1, a2, b1, b2) /\
    Forall (fun v => dist v f1 + dist v f2 = 2 * 3) [a1; a2; b1; b2].
Proof. apply (StandardEllipse_vertices_focal_sum 3 2); lra. Defined.

(** X2: over the reals, for a > b > 0 and the directrices requested, the
    constructor returns and the directrices x = ±a²/c, with c the focal
    distance it stores, lie outside the ellipse: a <= a²/c, and a²/c
    exceeds a by exactly a·b²/(c·(a + c)).  (In binary64 this excess is
    lost to rounding when b is below about 1e-8 of a, and the computed
    a²/c is then equal to a.) *)
Theorem StandardEllipse_directrix_outside (a b : R) (show_foci show_vertices : bool) :
  0 < b -> b < a ->
  exists e x,
    StandardEllipse.__init__ a b show_foci show_vertices true = Ok e /\
    StandardEllipse.directrix_x e = Some x /\
    x = a ^ 2 / StandardEllipse.c e /\
    a <= x /\
    x - a = a * b ^ 2 / (StandardEllipse.c e * (a + StandardEllipse.c e)).
Proof.
  intros Hb Hab.
  destruct (ellipse_focal_sqr a b Hb ltac:(lra)) as [Hcc Hc0].
  pose proof (ellipse_focal_inside a b Hb ltac:(lra)) as Hca.
  assert (Hc : sqrt (a ^ 2 - b ^ 2) <> 0).
  { intros H. apply (proj1 (ellipse_focal_zero a b Hb ltac:(lra))) in H. lra. }
  unfold StandardEllipse.__init__, StandardEllipse._get_directrix.
  rewrite (proj2 (Rltb_false a b)) by lra.
  rewrite math_sqrt_ok by nra. cbn [rbind].
  rewrite py_div_ok by exact Hc. cbn [rbind].
  set (c := sqrt (a ^ 2 - b ^ 2)) in *.
  do 2 eexists. split; [reflexivity |]. cbn [StandardEllipse.directrix_x StandardEllipse.c].
  split; [reflexivity |]. split; [reflexivity |].
  assert (Hcpos : 0 < c) by lra.
  assert (Hgap : a ^ 2 / c - a = a * b ^ 2 / (c * (a + c))).
  { replace (b ^ 2) with (a ^ 2 - c * c) by lra. field. lra. }
  split; [| exact Hgap].
  assert (Hb2 : 0 < b ^ 2) by (apply pow_lt; exact Hb).
  assert (0 < a * b ^ 2 / (c * (a + c))); [| lra].
  apply Rdiv_lt_0_compat; apply Rmult_lt_0_compat; lra.
Qed.

Lemma StandardEllipse_directrix_outside_witness :
  exists e x,
    StandardEllipse.__init__ 3 2 true true true = Ok e /\
    StandardEllipse.directrix_x e = Some x /\
    x = 3 ^ 2 / StandardEllipse.c e /\
    3 <= x /\
    x - 3 = 3 * 2 ^ 2 / (StandardEllipse.c e * (3 + StandardEllipse.c e)).
Proof. apply (StandardEllipse_directrix_outside 3 2 true true); lra. Defined.

(** X3: [_get_asymptotes] raises exactly when a = b = 0 (a division by
    zero).  For a, b > 0 it returns four segments from the origin, one
    into each quadrant; their end points (±x, ±y) lie on the asymptotes
    y = ±(b/a)x, that is a·y = b·x, at distance 2.5·max(a, b) from the
    origin. *)
Theorem StandardHyperbola_asymptotes (a b : R) :
  (raises (StandardHyperbola._get_asymptotes a b) <-> a = 0 /\ b = 0) /\
  (0 < a -> 0 < b ->
   exists x y,
     StandardHyperbola._get_asymptotes a b =
       Ok [ (ORIGIN, V3 x y 0); (ORIGIN, V3 x (- y) 0);
            (ORIGIN, V3 (- x) y 0); (ORIGIN, V3 (- x) (- y) 0) ] /\
     0 < x /\ 0 < y /\ a * y = b * x /\
     norm (V3 x y 0) = Rmax a b * 2.5).
Proof.
  split.
  - unfold StandardHyperbola._get_asymptotes, StandardHyperbola.asymptote_coord.
    rewrite math_sqrt_ok by nra. cbn [rbind]. unfold py_div.
    destruct (Reqb (sqrt (a ^ 2 + b ^ 2)) 0) eqn:E; cbn [rbind raises].
    + apply Reqb_true in E. apply sqrt_eq_0 in E; [| nra]. split; [intros _; nra | tauto].
    + apply Reqb_false in E. split; [tauto |]. intros [-> ->]. apply E.
      replace (0 ^ 2 + 0 ^ 2) with 0 by ring. apply sqrt_0.
  - intros Ha Hb. destruct (hyperbola_focal_sqr a b Ha Hb) as [Hrr Hr].
    unfold StandardHyperbola._get_asymptotes.
    rewrite !asymptote_coord_ok by assumption. cbn [rbind].
    set (r := sqrt (a ^ 2 + b ^ 2)) in *.
    set (l := Rmax a b * 2.5).
    assert (Hl : 0 < l).
    { unfold l. pose proof (Rmax_l a b). lra. }
    exists (l * a / r), (l * b / r).
    rewrite vscale_RIGHT, vscale_LEFT, vscale_UP, vscale_DOWN, !vadd_xy.
    split; [reflexivity |].
    split; [apply Rdiv_lt_0_compat; [nra | lra] |].
    split; [apply Rdiv_lt_0_compat; [nra | lra] |].
    split; [field; lra |].
    apply norm_eq; [lra |]. cbn [vx vy vz].
    replace (l * a / r * (l * a / r) + l * b / r * (l * b / r) + 0 * 0)
      with (l * l * (a ^ 2 + b ^ 2) / (r * r)) by (field; lra).
    rewrite Hrr. field. nra.
Qed.

Lemma StandardHyperbola_asymptotes_witness :
  exists x y,
    StandardHyperbola._get_asymptotes 3 2 =
      Ok [ (ORIGIN, V3 x y 0); (ORIGIN, V3 x (- y) 0);
           (ORIGIN, V3 (- x) y 0); (ORIGIN, V3 (- x) (- y) 0) ] /\
    0 < x /\ 0 < y /\ 3 * y = 2 * x /\
    norm (V3 x y 0) = Rmax 3 2 * 2.5.
Proof. apply (proj2 (StandardHyperbola_asymptotes 3 2)); lra. Defined.

(** X4: over the reals, for a, b > 0 and the directrices requested, the
    constructor returns and draws the two vertical segments at x = -a²/c
    and x = a²/c, from y = 2b to y = -2b, with c the focal distance it
    stores; they lie between the centre and the vertices, 0 < a²/c <= a,
    and a²/c falls short of a by exactly a·b²/(c·(a + c)).  (In binary64
    this difference is lost to rounding when b is below about 1e-8 of a,
    and the computed a²/c is then equal to a.) *)
Theorem StandardHyperbola_directrices (a b : R) (branch : string)
    (show_foci show_vertices show_asymptotes asymptote_labels directrix_labels : bool) :
  0 < a -> 0 < b ->
  exists h x,
    StandardHyperbola.__init__ a b branch show_foci show_vertices show_asymptotes
      asymptote_labels true directrix_labels = Ok h /\
    StandardHyperbola.directrices h =
      Some ((V3 (- x) (b * 2) 0, V3 (- x) (- (b * 2)) 0),
            (V3 x (b * 2) 0, V3 x (- (b * 2)) 0)) /\
    x = a ^ 2 / StandardHyperbola.c h /\
    0 < x <= a /\
    a - x = a * b ^ 2 / (StandardHyperbola.c h * (a + StandardHyperbola.c h)).
Proof.
  intros Ha Hb. destruct (hyperbola_focal_sqr a b Ha Hb) as [Hrr Hr].
  destruct (hyperbola_init_spec a b branch show_foci show_vertices show_asymptotes
              asymptote_labels true directrix_labels Ha Hb)
    as (h & Hh & Hc & _ & Hdir).
  exists h, (a ^ 2 / sqrt (a ^ 2 + b ^ 2)).
  split; [exact Hh |]. split; [exact Hdir |]. rewrite Hc.
  set (r := sqrt (a ^ 2 + b ^ 2)) in *.
  split; [reflexivity |].
  assert (Hgap : a - a ^ 2 / r = a * b ^ 2 / (r * (a + r))).
  { replace (b ^ 2) with (r * r - a ^ 2) by lra. field. lra. }
  assert (Hb2 : 0 < b ^ 2) by (apply pow_lt; exact Hb).
  assert (Ha2 : 0 < a ^ 2) by (apply pow_lt; exact Ha).
  assert (Hpos : 0 < a * b ^ 2 / (r * (a + r)))
    by (apply Rdiv_lt_0_compat; apply Rmult_lt_0_compat; lra).
  split; [| exact Hgap].
  split; [apply Rdiv_lt_0_compat; lra | lra].
Qed.

Lemma StandardHyperbola_directrices_witness :
  exists h x,
    StandardHyperbola.__init__ 3 2 "both" true true true false true false = Ok h /\
    StandardHyperbola.directrices h =
      Some ((V3 (- x) (2 * 2) 0, V3 (- x) (- (2 * 2)) 0),
            (V3 x (2 * 2) 0, V3 x (- (2 * 2)) 0)) /\
    x = 3 ^ 2 / StandardHyperbola.c h /\
    0 < x <= 3 /\
    3 - x = 3 * 2 ^ 2 / (StandardHyperbola.c h * (3 + StandardHyperbola.c h)).
Proof. apply (StandardHyperbola_directrices 3 2 "both" true true true false false); lra. Defined.

Lemma linspace_head (start stop : R) (num : nat) :
  linspace start stop (S num) !! 0%nat = Some start.
Proof.
  unfold linspace. cbn [seq map lookup]. cbn. f_equal. ring.
Qed.

(** X5: for a > 0 the two halves of a branch are mirror images of each
    other in the x-axis, and both start exactly at the vertex (-a, 0) or
    (a, 0) of their side. *)
Theorem StandardHyperbola_halves_meet_at_vertex (a b : R) (d : StandardHyperbola.side) :
  0 < a ->
  exists up lo,
    StandardHyperbola.both_halves a b d = Ok [up; lo] /\
    lo = map mirror_x up /\
    up !! 0%nat = Some (V3 (branch_x d a) 0 0) /\
    lo !! 0%nat = Some (V3 (branch_x d a) 0 0).
Proof.
  intros Ha. unfold StandardHyperbola.both_halves.
  rewrite (hyperbola_branch_upper a b d Ha), (hyperbola_branch_lower a b d Ha).
  cbn [rbind]. do 2 eexists. split; [reflexivity |].
  assert (H0 : sqrt (a ^ 2 / a ^ 2 - 1) = 0).
  { replace (a ^ 2 / a ^ 2 - 1) with 0 by (field; lra). apply sqrt_0. }
  split; [| split].
  - rewrite map_map. apply map_ext. intros x. unfold mirror_x. cbn [vx vy vz].
    f_equal; ring.
  - rewrite list_lookup_fmap, (linspace_head a (a + 4) 79). cbn [fmap option_fmap option_map].
    rewrite H0. do 2 f_equal. ring.
  - rewrite list_lookup_fmap, (linspace_head a (a + 4) 79). cbn [fmap option_fmap option_map].
    rewrite H0. do 2 f_equal. ring.
Qed.

Lemma StandardHyperbola_halves_meet_at_vertex_witness :
  exists up lo,
    StandardHyperbola.both_halves 3 2 StandardHyperbola.SLeft = Ok [up; lo] /\
    lo = map mirror_x up /\
    up !! 0%nat = Some (V3 (branch_x StandardHyperbola.SLeft 3) 0 0) /\
    lo !! 0%nat = Some (V3 (branch_x StandardHyperbola.SLeft 3) 0 0).
Proof. apply (StandardHyperbola_halves_meet_at_vertex 3 2); lra. Defined.

Lemma Rabs_sqr_self (x : R) : Rabs x * Rabs x = x * x.
Proof. rewrite <- Rabs_mult. apply Rabs_pos_eq. nra. Qed.

Lemma parabola_sample_right (p t : R) :
  p <> 0 ->
  dist (V3 (t ^ 2 / (2 * p)) t 0) (V3 (p / 2) 0 0)
  = Rabs (t ^ 2 / (2 * p) - - (p / 2)).
Proof.
  intros Hp. apply dist_eq; [apply Rabs_pos |]. rewrite Rabs_sqr_self.
  cbn [vx vy vz]. field. exact Hp.
Qed.

Lemma parabola_sample_left (p t : R) :
  p <> 0 ->
  dist (V3 (- (t ^ 2 / (2 * p))) t 0) (V3 (- (p / 2)) 0 0)
  = Rabs (- (t ^ 2 / (2 * p)) - p / 2).
Proof.
  intros Hp. apply dist_eq; [apply Rabs_pos |]. rewrite Rabs_sqr_self.
  cbn [vx vy vz]. field. exact Hp.
Qed.

Lemma parabola_sample_up (p t : R) :
  p <> 0 ->
  dist (V3 t (t ^ 2 / (2 * p)) 0) (V3 0 (p / 2) 0)
  = Rabs (t ^ 2 / (2 * p) - - (p / 2)).
Proof.
  intros Hp. apply dist_eq; [apply Rabs_pos |]. rewrite Rabs_sqr_self.
  cbn [vx vy vz]. field. exact Hp.
Qed.

Lemma parabola_sample_down (p t : R) :
  p <> 0 ->
  dist (V3 t (- (t ^ 2 / (2 * p))) 0) (V3 0 (- (p / 2)) 0)
  = Rabs (- (t ^ 2 / (2 * p)) - p / 2).
Proof.
  intros Hp. apply dist_eq; [apply Rabs_pos |]. rewrite Rabs_sqr_self.
  cbn [vx vy vz]. field. exact Hp.
Qed.

(** X6: for p other than 0 and a stored direction [_calculate_positions]
    accepts, [_create_parabola_curve] gives 100 corner points, and each
    of them is as far from the focus as from the directrix. *)
Theorem StandardParabola_curve_equidistant (p : R) (direction : string)
    (x_range y_range : R * R) (focus_pos directrix_pos : vec)
    (o : StandardParabola.orientation) :
  p <> 0 ->
  StandardParabola._calculate_positions p direction = Ok (focus_pos, directrix_pos, o) ->
  List.length (StandardParabola._create_parabola_curve p direction x_range y_range)
    = 100%nat /\
  Forall (fun q => dist q focus_pos = directrix_distance o directrix_pos q)
         (StandardParabola._create_parabola_curve p direction x_range y_range).
Proof.
  intros Hp Hpos.
  unfold StandardParabola._calculate_positions in Hpos.
  unfold StandardParabola._create_parabola_curve.
  rewrite vscale_RIGHT, vscale_LEFT, vscale_UP, vscale_DOWN in Hpos.
  destruct (String.eqb direction "RIGHT") eqn:ER.
  { apply String.eqb_eq in ER. subst direction. injection Hpos as <- <- <-.
    cbn [orb String.eqb Ascii.eqb Bool.eqb andb].
    split; [rewrite length_map; apply linspace_length |].
    apply List.Forall_forall. intros q Hq. apply in_map_iff in Hq as (t & <- & _).
    cbn [directrix_distance vx vy vz]. apply parabola_sample_right. exact Hp. }
  destruct (String.eqb direction "LEFT") eqn:EL.
  { apply String.eqb_eq in EL. subst direction. injection Hpos as <- <- <-.
    cbn [orb String.eqb Ascii.eqb Bool.eqb andb].
    split; [rewrite length_map; apply linspace_length |].
    apply List.Forall_forall. intros q Hq. apply in_map_iff in Hq as (t & <- & _).
    cbn [directrix_distance vx vy vz]. apply parabola_sample_left. exact Hp. }
  cbn [orb].
  destruct (String.eqb direction "UP") eqn:EU.
  { apply String.eqb_eq in EU. subst direction. injection Hpos as <- <- <-.
    cbn [String.eqb Ascii.eqb Bool.eqb andb].
    split; [rewrite length_map; apply linspace_length |].
    apply List.Forall_forall. intros q Hq. apply in_map_iff in Hq as (t & <- & _).
    cbn [directrix_distance vx vy vz]. apply parabola_sample_up. exact Hp. }
  destruct (String.eqb direction "DOWN") eqn:ED; [| discriminate].
  injection Hpos as <- <- <-.
  split; [rewrite length_map; apply linspace_length |].
  apply List.Forall_forall. intros q Hq. apply in_map_iff in Hq as (t & <- & _).
  cbn [directrix_distance vx vy vz]. apply parabola_sample_down. exact Hp.
Qed.

Lemma StandardParabola_curve_equidistant_witness :
  List.length (StandardParabola._create_parabola_curve 2 "RIGHT" (-3, 3) (-3, 3))
    = 100%nat /\
  Forall (fun q => dist q (vscale RIGHT (2 / 2))
                   = directrix_distance StandardParabola.Vertical (vscale LEFT (2 / 2)) q)
         (StandardParabola._create_parabola_curve 2 "RIGHT" (-3, 3) (-3, 3)).
Proof.
  apply (StandardParabola_curve_equidistant 2 "RIGHT" (-3, 3) (-3, 3)); [lra | reflexivity].
Defined.

(** X7: every point of the drawn circle is at distance |radius| from the
    centre projected into the plane z = 0; the dashed radius line starts
    at the centre and ends at distance |radius| from it; and when the
    centre lies in the plane z = 0, its end is the point of the drawn
    circle at 45 degrees. *)
Theorem StandardCircle_radius_line_on_circle (radius : R) (center_point : vec) :
  (forall t, dist (StandardCircle.circle_func radius center_point t)
                  (V3 (vx center_point) (vy center_point) 0) = Rabs radius) /\
  fst (StandardCircle._create_radius_line radius center_point) = center_point /\
  dist (snd (StandardCircle._create_radius_line radius center_point)) center_point
    = Rabs radius /\
  (vz center_point = 0 ->
   snd (StandardCircle._create_radius_line radius center_point)
   = StandardCircle.circle_func radius center_point (45 * DEGREES)).
Proof.
  destruct center_point as [cx cy cz].
  assert (Hsc : forall t, radius * cos t * (radius * cos t)
                          + radius * sin t * (radius * sin t) = radius * radius).
  { intros t. pose proof (sin2_cos2 t) as H. unfold Rsqr in H. nra. }
  split; [| split; [reflexivity | split]].
  - intros t. apply dist_eq; [apply Rabs_pos |]. rewrite Rabs_sqr_self.
    unfold StandardCircle.circle_func. cbn [vx vy vz]. specialize (Hsc t). nra.
  - apply dist_eq; [apply Rabs_pos |]. rewrite Rabs_sqr_self.
    unfold StandardCircle._create_radius_line, vadd, vscale. cbn [snd vx vy vz].
    specialize (Hsc (45 * DEGREES)). nra.
  - cbn [vz]. intros ->.
    unfold StandardCircle._create_radius_line, StandardCircle.circle_func, vadd, vscale.
    cbn [snd vx vy vz]. f_equal; ring.
Qed.

Lemma StandardCircle_radius_line_on_circle_witness :
  snd (StandardCircle._create_radius_line 2 (V3 1 1 0))
  = StandardCircle.circle_func 2 (V3 1 1 0) (45 * DEGREES).
Proof.
  apply (proj2 (proj2 (proj2 (StandardCircle_radius_line_on_circle 2 (V3 1 1 0))))).
  reflexivity.
Defined.

(** X8: the point the radius label is moved to is the centre plus half
    the end point of the radius line; it is the midpoint of the radius
    line exactly when the centre is the origin. *)
Theorem StandardCircle_radius_label_position (radius : R) (center_point : vec) :
  let radius_line_end := snd (StandardCircle._create_radius_line radius center_point) in
  StandardCircle._create_radius_label center_point radius_line_end
    = vdiv (vadd center_point radius_line_end) 2 <->
  center_point = V3 0 0 0.
Proof.
  destruct center_point as [cx cy cz].
  unfold StandardCircle._create_radius_label, StandardCircle._create_radius_line,
    vadd, vdiv, vscale.
  cbn [snd vx vy vz]. split.
  - intros H. injection H as Hx Hy Hz. f_equal; lra.
  - intros H. injection H as -> -> ->. f_equal; lra.
Qed.

(** ** Further properties of the line builder *)

(** The fields of a constructed line, each as an expression of the two
    points. *)
Lemma line_init_spec (pt1 pt2 : StandardLine.point) (length : R) :
  let P1 := StandardLine.to_array pt1 in
  let P2 := StandardLine.to_array pt2 in
  let dx := vx P2 - vx P1 in
  let dy := vy P2 - vy P1 in
  let n := norm (vsub P2 P1) in
  let direction := if Rltb n 0.001 then RIGHT else vdiv (vsub P2 P1) n in
  let l := StandardLine.__init__ (Some pt1) (Some pt2) length in
  StandardLine.p1 l = P1 /\
  StandardLine.p2 l = P2 /\
  StandardLine.is_vertical l = Rltb (Rabs dx) 0.001 /\
  StandardLine.is_horizontal l = Rltb (Rabs dy) 0.001 /\
  StandardLine.slope l =
    (if Rltb (Rabs dx) 0.001 then 0
     else if Rgtb (Rabs dx) 0.001 then dy / dx else 0) /\
  StandardLine.y_intercept l =
    (if Rltb (Rabs dx) 0.001 then 0
     else if Rgtb (Rabs dx) 0.001 then vy P1 - dy / dx * vx P1 else 0) /\
  StandardLine.A l =
    (if Rltb (Rabs dx) 0.001 then 1
     else if Rltb (Rabs dy) 0.001 then 0 else StandardLine.slope l) /\
  StandardLine.B l =
    (if Rltb (Rabs dx) 0.001 then 0
     else if Rltb (Rabs dy) 0.001 then 1 else -1) /\
  StandardLine.C l =
    (if Rltb (Rabs dx) 0.001 then - vx P1
     else if Rltb (Rabs dy) 0.001 then - vy P1 else StandardLine.y_intercept l) /\
  StandardLine.x_intercept l =
    (if Rgtb (Rabs (StandardLine.A l)) 0.001
     then Some (- StandardLine.C l / StandardLine.A l) else None) /\
  StandardLine.y_intercept_point l =
    (if Rgtb (Rabs (StandardLine.B l)) 0.001
     then Some (- StandardLine.C l / StandardLine.B l) else None) /\
  StandardLine.line_start l =
    vsub (vdiv (vadd P1 P2) 2) (vscale direction (Rmin length n / 2)) /\
  StandardLine.line_end l =
    vadd (vdiv (vadd P1 P2) 2) (vscale direction (Rmin length n / 2)).
Proof.
  cbn zeta. unfold StandardLine.__init__.
  destruct (Rltb (Rabs (vx (StandardLine.to_array pt2) - vx (StandardLine.to_array pt1)))
              0.001) eqn:Ev;
    destruct (Rgtb (Rabs (vx (StandardLine.to_array pt2) - vx (StandardLine.to_array pt1)))
                0.001) eqn:Eg;
    destruct (Rltb (Rabs (vy (StandardLine.to_array pt2) - vy (StandardLine.to_array pt1)))
                0.001) eqn:Eh;
    cbn [vsub vx vy vz negb]; rewrite ?Ev, ?Eg, ?Eh; cbn [negb];
    repeat match goal with
           | |- context [Rgtb ?x 0.001] =>
               lazymatch x with
               | context [StandardLine.A] => fail
               | context [StandardLine.B] => fail
               | _ => destruct (Rgtb x 0.001) eqn:?
               end
           end;
    cbn [StandardLine.p1 StandardLine.p2 StandardLine.is_vertical
         StandardLine.is_horizontal StandardLine.slope StandardLine.y_intercept
         StandardLine.A StandardLine.B StandardLine.C StandardLine.x_intercept
         StandardLine.y_intercept_point StandardLine.line_start StandardLine.line_end];
    rewrite ?Ev, ?Eg, ?Eh;
    repeat match goal with H : Rgtb _ _ = _ |- _ => rewrite ?H; clear H end;
    repeat split; reflexivity.
Qed.

Lemma Rgtb_true (x y : R) : Rgtb x y = true <-> y < x.
Proof. unfold Rgtb. apply Rltb_true. Qed.

Lemma Rgtb_false (x y : R) : Rgtb x y = false <-> x <= y.
Proof. unfold Rgtb. apply Rltb_false. Qed.

Lemma Rabs_pos_nonzero (x e : R) : 0 <= e -> e < Rabs x -> x <> 0.
Proof. intros He H ->. rewrite Rabs_R0 in H. lra. Qed.

(** X9: unless |Δx| is exactly 0.001, the first point satisfies the
    stored general form A·x + B·y + C = 0 exactly and the second one to
    within 0.001; when |Δx| > 0.001 and |Δy| >= 0.001 both points satisfy
    it exactly, the slope is Δy/Δx and both points lie on
    y = slope·x + y_intercept. *)
Theorem StandardLine_points_on_line (pt1 pt2 : StandardLine.point) (length : R) :
  let P1 := StandardLine.to_array pt1 in
  let P2 := StandardLine.to_array pt2 in
  let dx := vx P2 - vx P1 in
  let dy := vy P2 - vy P1 in
  let l := StandardLine.__init__ (Some pt1) (Some pt2) length in
  Rabs dx <> 0.001 ->
  general_form l P1 = 0 /\
  Rabs (general_form l P2) < 0.001 /\
  (0.001 < Rabs dx -> 0.001 <= Rabs dy ->
   general_form l P2 = 0 /\
   StandardLine.slope l = dy / dx /\
   vy P1 = StandardLine.slope l * vx P1 + StandardLine.y_intercept l /\
   vy P2 = StandardLine.slope l * vx P2 + StandardLine.y_intercept l).
Proof.
  pose proof (line_init_spec pt1 pt2 length) as H. cbv zeta in H.
  destruct H as (_ & _ & _ & _ & Hs & Hy & HA & HB & HC & _).
  cbv zeta. unfold general_form. rewrite HA, HB, HC, Hs, Hy. clear HA HB HC Hs Hy.
  destruct (StandardLine.to_array pt1) as [x1 y1 z1].
  destruct (StandardLine.to_array pt2) as [x2 y2 z2]. cbn [vx vy vz].
  intros Hne.
  destruct (Rltb (Rabs (x2 - x1)) 0.001) eqn:Ev.
  - apply Rltb_true in Ev. split; [ring |]. split.
    + replace (1 * x2 + 0 * y2 + - x1) with (x2 - x1) by ring. exact Ev.
    + intros Hgt. lra.
  - apply Rltb_false in Ev.
    assert (Hgt : 0.001 < Rabs (x2 - x1)) by lra.
    rewrite (proj2 (Rgtb_true _ _) Hgt).
    assert (Hdx : x2 - x1 <> 0) by (apply (Rabs_pos_nonzero _ 0.001); lra).
    destruct (Rltb (Rabs (y2 - y1)) 0.001) eqn:Eh.
    + apply Rltb_true in Eh. split; [ring |]. split.
      * replace (0 * x2 + 1 * y2 + - y1) with (y2 - y1) by ring. exact Eh.
      * intros _ Hdy. lra.
    + assert (H2 : (y2 - y1) / (x2 - x1) * x2 + -1 * y2
                   + (y1 - (y2 - y1) / (x2 - x1) * x1) = 0) by (field; exact Hdx).
      split; [ring |]. split; [rewrite H2, Rabs_R0; lra |].
      intros _ _. split; [exact H2 |]. split; [reflexivity |].
      split; field; exact Hdx.
Qed.

Lemma StandardLine_points_on_line_witness :
  let l := StandardLine.__init__ (Some (StandardLine.P2 0 0))
                                 (Some (StandardLine.P2 2 0)) 10 in
  general_form l (V3 0 0 0) = 0 /\ Rabs (general_form l (V3 2 0 0)) < 0.001.
Proof.
  assert (H : Rabs (2 - 0) <> 0.001).
  { rewrite Rabs_pos_eq by lra. lra. }
  pose proof (StandardLine_points_on_line (StandardLine.P2 0 0) (StandardLine.P2 2 0) 10 H)
    as (H1 & H2 & _).
  exact (conj H1 H2).
Defined.

(** X10: when |Δx| is exactly 0.001 and |Δy| >= 0.001 the line counts as
    not vertical but no slope is computed: the constructor stores slope 0,
    intercept 0 and the general form -y = 0, whatever the two points are;
    at the first point the general form has the value -y1. *)
Theorem StandardLine_boundary_gap (pt1 pt2 : StandardLine.point) (length : R) :
  let P1 := StandardLine.to_array pt1 in
  let P2 := StandardLine.to_array pt2 in
  let l := StandardLine.__init__ (Some pt1) (Some pt2) length in
  Rabs (vx P2 - vx P1) = 0.001 ->
  0.001 <= Rabs (vy P2 - vy P1) ->
  StandardLine.is_vertical l = false /\
  StandardLine.slope l = 0 /\
  StandardLine.y_intercept l = 0 /\
  StandardLine.A l = 0 /\ StandardLine.B l = -1 /\ StandardLine.C l = 0 /\
  general_form l P1 = - vy P1.
Proof.
  pose proof (line_init_spec pt1 pt2 length) as H. cbv zeta in H.
  destruct H as (_ & _ & Hv & _ & Hs & Hy & HA & HB & HC & _).
  cbv zeta. unfold general_form. rewrite HA, HB, HC, Hs, Hy, Hv. clear HA HB HC Hs Hy Hv.
  intros Hdx Hdy.
  rewrite (proj2 (Rltb_false _ _)) by lra.
  rewrite (proj2 (Rgtb_false _ _)) by lra.
  rewrite (proj2 (Rltb_false _ _)) by lra.
  repeat split; ring.
Qed.

Lemma StandardLine_boundary_gap_witness :
  let l := StandardLine.__init__ (Some (StandardLine.P2 0 1))
                                 (Some (StandardLine.P2 0.001 2)) 10 in
  StandardLine.A l = 0 /\ StandardLine.B l = -1 /\ StandardLine.C l = 0 /\
  general_form l (V3 0 1 0) = - 1.
Proof.
  assert (H1 : Rabs (0.001 - 0) = 0.001) by (rewrite Rabs_pos_eq; lra).
  assert (H2 : 0.001 <= Rabs (2 - 1)) by (rewrite Rabs_pos_eq; lra).
  pose proof (StandardLine_boundary_gap (StandardLine.P2 0 1) (StandardLine.P2 0.001 2) 10
                H1 H2) as (_ & _ & _ & HA & HB & HC & Hg).
  exact (conj HA (conj HB (conj HC Hg))).
Defined.

(** X11: every intercept dot lies on the stored line, on a coordinate
    axis, and less than 20 from the origin. *)
Theorem StandardLine_intercept_dots (pt1 pt2 : StandardLine.point) (length : R) :
  let l := StandardLine.__init__ (Some pt1) (Some pt2) length in
  Forall (fun q => general_form l q = 0 /\ (vx q = 0 \/ vy q = 0) /\ vz q = 0 /\
                   Rabs (vx q) < 20 /\ Rabs (vy q) < 20)
         (StandardLine._create_intercepts l).
Proof.
  pose proof (line_init_spec pt1 pt2 length) as H. cbv zeta in H.
  destruct H as (_ & _ & _ & _ & _ & _ & _ & _ & _ & Hx & Hy & _).
  cbv zeta. unfold StandardLine._create_intercepts, general_form. rewrite Hx, Hy.
  clear Hx Hy.
  set (l := StandardLine.__init__ _ _ _).
  generalize (StandardLine.A l) (StandardLine.B l) (StandardLine.C l). intros a b c.
  assert (H20 : Rabs 0 < 20) by (rewrite Rabs_R0; lra).
  apply Forall_app. split.
  - destruct (Rgtb (Rabs a) 0.001) eqn:Ea; [| apply List.Forall_nil].
    apply Rgtb_true in Ea.
    assert (Ha : a <> 0) by (apply (Rabs_pos_nonzero _ 0.001); lra).
    destruct (Rltb (Rabs (- c / a)) 20) eqn:E20; [| apply List.Forall_nil].
    apply Rltb_true in E20.
    apply List.Forall_cons; [| apply List.Forall_nil]. cbn [vx vy vz].
    split; [field; exact Ha |]. split; [right; reflexivity |].
    split; [reflexivity |]. split; assumption.
  - destruct (Rgtb (Rabs b) 0.001) eqn:Eb; [| apply List.Forall_nil].
    apply Rgtb_true in Eb.
    assert (Hb : b <> 0) by (apply (Rabs_pos_nonzero _ 0.001); lra).
    destruct (Rltb (Rabs (- c / b)) 20) eqn:E20; [| apply List.Forall_nil].
    apply Rltb_true in E20.
    apply List.Forall_cons; [| apply List.Forall_nil]. cbn [vx vy vz].
    split; [field; exact Hb |]. split; [left; reflexivity |].
    split; [reflexivity |]. split; assumption.
Qed.

Lemma norm_sqr (u : vec) : norm u * norm u = vx u * vx u + vy u * vy u + vz u * vz u.
Proof. unfold norm. apply sqrt_sqrt. nra. Qed.

(** X12: for two points at least 0.001 apart, the drawn segment is
    centred at their midpoint; it runs from the first point to the second
    when [length] is at least their distance, and has length [length]
    when 0 <= length <= their distance. *)
Theorem StandardLine_drawn_segment (pt1 pt2 : StandardLine.point) (length : R) :
  let P1 := StandardLine.to_array pt1 in
  let P2 := StandardLine.to_array pt2 in
  let l := StandardLine.__init__ (Some pt1) (Some pt2) length in
  0.001 <= dist P2 P1 ->
  vdiv (vadd (StandardLine.line_start l) (StandardLine.line_end l)) 2
    = vdiv (vadd P1 P2) 2 /\
  (dist P2 P1 <= length ->
   StandardLine.line_start l = P1 /\ StandardLine.line_end l = P2) /\
  (0 <= length <= dist P2 P1 ->
   dist (StandardLine.line_end l) (StandardLine.line_start l) = length).
Proof.
  pose proof (line_init_spec pt1 pt2 length) as H. cbv zeta in H.
  destruct H as (_ & _ & _ & _ & _ & _ & _ & _ & _ & _ & _ & Hs & He).
  cbv zeta. rewrite Hs, He. clear Hs He. unfold dist.
  pose proof (norm_sqr (vsub (StandardLine.to_array pt2) (StandardLine.to_array pt1)))
    as Hnn.
  destruct (StandardLine.to_array pt1) as [x1 y1 z1].
  destruct (StandardLine.to_array pt2) as [x2 y2 z2].
  set (n := norm (vsub (V3 x2 y2 z2) (V3 x1 y1 z1))) in *.
  intros Hn. rewrite (proj2 (Rltb_false n 0.001) Hn).
  assert (Hn0 : n <> 0) by lra.
  unfold vsub, vadd, vdiv, vscale in *. cbn [vx vy vz] in *.
  split; [f_equal; field; exact Hn0 |]. split.
  - intros Hlen. rewrite (Rmin_right length n Hlen). split; f_equal; field; exact Hn0.
  - intros [Hl0 Hln]. rewrite (Rmin_left length n Hln).
    apply norm_eq; [exact Hl0 |]. cbn [vx vy vz].
    match goal with
    | |- ?lhs = _ =>
        replace lhs
          with (length * length
                * ((x2 - x1) * (x2 - x1) + (y2 - y1) * (y2 - y1) + (z2 - z1) * (z2 - z1))
                / (n * n)) by (field; exact Hn0)
    end.
    rewrite <- Hnn. field. exact Hn0.
Qed.

Lemma StandardLine_drawn_segment_witness :
  let l := StandardLine.__init__ (Some (StandardLine.P2 0 0))
                                 (Some (StandardLine.P2 3 4)) 10 in
  StandardLine.line_start l = V3 0 0 0 /\ StandardLine.line_end l = V3 3 4 0.
Proof.
  assert (Hd : dist (V3 3 4 0) (V3 0 0 0) = 5).
  { apply dist_eq; [lra |]. cbn [vx vy vz]. ring. }
  assert (H1 : 0.001 <= dist (V3 3 4 0) (V3 0 0 0)) by (rewrite Hd; lra).
  assert (H2 : dist (V3 3 4 0) (V3 0 0 0) <= 10) by (rewrite Hd; lra).
  exact (proj1 (proj2 (StandardLine_drawn_segment
                         (StandardLine.P2 0 0) (StandardLine.P2 3 4) 10 H1)) H2).
Defined.

(** X13: two coincident points give a line that counts as vertical and
    as horizontal at once; the vertical form x = x1 is stored, and for
    length >= 0 the drawn segment collapses to the point. *)
Theorem StandardLine_coincident_points (pt1 pt2 : StandardLine.point) (length : R) :
  let P := StandardLine.to_array pt1 in
  let l := StandardLine.__init__ (Some pt1) (Some pt2) length in
  StandardLine.to_array pt2 = P ->
  0 <= length ->
  StandardLine.is_vertical l = true /\
  StandardLine.is_horizontal l = true /\
  StandardLine.slope l = 0 /\
  StandardLine.A l = 1 /\ StandardLine.B l = 0 /\ StandardLine.C l = - vx P /\
  StandardLine.line_start l = P /\ StandardLine.line_end l = P.
Proof.
  pose proof (line_init_spec pt1 pt2 length) as H. cbv zeta in H.
  destruct H as (_ & _ & Hv & Hh & Hsl & _ & HA & HB & HC & _ & _ & Hs & He).
  cbv zeta. rewrite Hv, Hh, Hsl, HA, HB, HC, Hs, He. clear Hv Hh Hsl HA HB HC Hs He.
  intros -> Hlen.
  destruct (StandardLine.to_array pt1) as [x y z]. cbn [vx vy vz].
  assert (Hn : norm (vsub (V3 x y z) (V3 x y z)) = 0).
  { apply norm_eq; [lra |]. cbn [vsub vx vy vz]. ring. }
  rewrite Hn.
  assert (H0 : Rabs (x - x) < 0.001).
  { replace (x - x) with 0 by ring. rewrite Rabs_R0. lra. }
  assert (H1 : Rabs (y - y) < 0.001).
  { replace (y - y) with 0 by ring. rewrite Rabs_R0. lra. }
  rewrite (proj2 (Rltb_true _ _) H0), (proj2 (Rltb_true _ _) H1).
  rewrite (proj2 (Rltb_true 0 0.001)) by lra.
  rewrite (Rmin_right length 0 Hlen).
  repeat split; try reflexivity.
  - unfold vsub, vadd, vdiv, vscale, RIGHT. cbn [vx vy vz]. f_equal; field.
  - unfold vsub, vadd, vdiv, vscale, RIGHT. cbn [vx vy vz]. f_equal; field.
Qed.

Lemma StandardLine_coincident_points_witness :
  let l := StandardLine.__init__ (Some (StandardLine.P2 1 2))
                                 (Some (StandardLine.P3 1 2 0)) 10 in
  StandardLine.is_vertical l = true /\
  StandardLine.is_horizontal l = true /\
  StandardLine.slope l = 0 /\
  StandardLine.A l = 1 /\ StandardLine.B l = 0 /\ StandardLine.C l = - 1 /\
  StandardLine.line_start l = V3 1 2 0 /\ StandardLine.line_end l = V3 1 2 0.
Proof.
  apply (StandardLine_coincident_points (StandardLine.P2 1 2) (StandardLine.P3 1 2 0) 10);
    [reflexivity | lra].
Defined.

(** X14: for a vertical line the equation panel shows the general form
    only; the intercept form is shown only for a line that is neither
    vertical nor horizontal and does not pass through the origin. *)
Theorem StandardLine_equation_panel (pt1 pt2 : StandardLine.point) (length : R) :
  let l := StandardLine.__init__ (Some pt1) (Some pt2) length in
  (StandardLine.is_vertical l = true ->
   StandardLine._create_equation_panel l = [StandardLine.General]) /\
  (In StandardLine.InterceptForm (StandardLine._create_equation_panel l) ->
   StandardLine.is_vertical l = false /\
   StandardLine.is_horizontal l = false /\
   general_form l (V3 0 0 0) <> 0).
Proof.
  pose proof (line_init_spec pt1 pt2 length) as H. cbv zeta in H.
  destruct H as (_ & _ & Hv & Hh & _ & _ & HA & HB & _ & Hx & Hy & _).
  cbv zeta. unfold StandardLine._create_equation_panel, general_form.
  rewrite Hx, Hy. clear Hx Hy.
  set (l := StandardLine.__init__ _ _ _) in *.
  rewrite Hv, Hh.
  match type of Hv with _ = ?t => set (v := t) in * end.
  match type of Hh with _ = ?t => set (h := t) in * end.
  clear Hv Hh. clearbody v h.
  generalize dependent (StandardLine.A l). generalize dependent (StandardLine.B l).
  generalize (StandardLine.C l) (StandardLine.slope l). clear l.
  intros c s b -> a HA. cbn [vx vy vz]. split.
  - intros ->. cbn [negb andb app].
    rewrite (proj2 (Rgtb_false (Rabs 0) 0.001)) by (rewrite Rabs_R0; lra).
    destruct (Rgtb (Rabs a) 0.001); reflexivity.
  - intros Hin.
    repeat (apply in_app_or in Hin as [Hin | Hin];
            [repeat match type of Hin with
                    | In _ (if ?c then _ else _) => destruct c
                    end;
             cbn [In] in Hin; intuition discriminate |]).
    destruct (Rgtb (Rabs a) 0.001) eqn:Ea; [| destruct Hin].
    destruct (Rgtb (Rabs (if v then 0 else if h then 1 else -1)) 0.001) eqn:Eb;
      [| destruct Hin].
    destruct (Rgtb (Rabs (- c / a)) 0.01) eqn:Ec; [| destruct Hin].
    apply Rgtb_true in Ea, Eb, Ec.
    destruct v.
    { rewrite Rabs_R0 in Eb. lra. }
    split; [reflexivity |].
    destruct h.
    { subst a. rewrite Rabs_R0 in Ea. lra. }
    split; [reflexivity |].
    intros Hc. replace c with 0 in Ec by lra.
    replace (- 0 / a) with 0 in Ec by (unfold Rdiv; ring). rewrite Rabs_R0 in Ec. lra.
Qed.

Lemma StandardLine_equation_panel_witness :
  StandardLine._create_equation_panel
    (StandardLine.__init__ (Some (StandardLine.P2 1 0)) (Some (StandardLine.P2 1 5)) 10)
  = [StandardLine.General].
Proof.
  apply (proj1 (StandardLine_equation_panel (StandardLine.P2 1 0) (StandardLine.P2 1 5) 10)).
  pose proof (line_init_spec (StandardLine.P2 1 0) (StandardLine.P2 1 5) 10) as H.
  cbv zeta in H. destruct H as (_ & _ & Hv & _). rewrite Hv.
  apply Rltb_true. cbn [StandardLine.to_array vx].
  replace (1 - 1) with 0 by ring. rewrite Rabs_R0. lra.
Defined.

(** ** Further properties of the oblique cone and sphere *)

Lemma norm_le (u : vec) (k : R) :
  0 <= k -> vx u * vx u + vy u * vy u + vz u * vz u <= k * k -> norm u <= k.
Proof.
  intros Hk H. unfold norm. rewrite <- (sqrt_square k Hk). apply sqrt_le_1_alt. exact H.
Qed.

(** X15: for radius > 0 and b = radius·skew_factor > 0 the constructor
    returns, both tangent points lie on the base ellipse (semi-axes
    radius and b around the centre) and are equally far from the apex;
    and when height > b + 0.001 the tangent line to the base ellipse at
    each tangent point passes through the apex, so the two generator
    lines touch the base. *)
Theorem ConeOblique_generators_tangent (radius height skew_factor : R) (center : vec) :
  0 < radius -> 0 < radius * skew_factor ->
  exists cone,
    ConeOblique.__init__ radius height skew_factor center = Ok cone /\
    on_ellipse radius (radius * skew_factor) center (ConeOblique.p_tangent_left cone) /\
    on_ellipse radius (radius * skew_factor) center (ConeOblique.p_tangent_right cone) /\
    dist (ConeOblique.p_apex cone) (ConeOblique.p_tangent_left cone)
      = dist (ConeOblique.p_apex cone) (ConeOblique.p_tangent_right cone) /\
    (radius * skew_factor + 0.001 < height ->
     on_tangent_at radius (radius * skew_factor) center
       (ConeOblique.p_tangent_left cone) (ConeOblique.p_apex cone) /\
     on_tangent_at radius (radius * skew_factor) center
       (ConeOblique.p_tangent_right cone) (ConeOblique.p_apex cone)).
Proof.
  intros Ha Hb. unfold ConeOblique.__init__, ConeOblique.tangent_offsets.
  set (b := radius * skew_factor) in *. set (a := radius) in Ha |- *.
  destruct center as [cx cy cz].
  destruct (Rleb height (b + 0.001)) eqn:E.
  - apply Rleb_true in E. cbn [rbind]. eexists. split; [reflexivity |].
    cbn [ConeOblique.p_tangent_left ConeOblique.p_tangent_right ConeOblique.p_apex].
    rewrite !vscale_LEFT, !vscale_RIGHT, !vscale_UP.
    unfold on_ellipse, on_tangent_at, dist, norm, vadd, vsub. cbn [vx vy vz].
    split; [field; lra |]. split; [field; lra |].
    split; [f_equal; ring | intros H; lra].
  - apply Rleb_false in E.
    assert (Hh : 0 < height) by lra.
    rewrite py_div_ok by lra. cbn [rbind]. eexists. split; [reflexivity |].
    cbn [ConeOblique.p_tangent_left ConeOblique.p_tangent_right ConeOblique.p_apex].
    rewrite !vscale_LEFT, !vscale_RIGHT, !vscale_UP.
    assert (Hrad : 0 <= 1 - b ^ 2 / height ^ 2).
    { assert (Hq : b ^ 2 / height ^ 2 <= 1); [| lra].
      apply (Rmult_le_reg_r (height ^ 2)); [nra |].
      replace (b ^ 2 / height ^ 2 * height ^ 2) with (b ^ 2) by (field; lra). nra. }
    pose proof (sqrt_sqrt _ Hrad) as Hss.
    set (s := sqrt (1 - b ^ 2 / height ^ 2)) in *.
    unfold on_ellipse, on_tangent_at, dist, norm, vadd, vsub. cbn [vx vy vz].
    assert (Hon : s * s + b ^ 2 / height ^ 2 = 1) by (rewrite Hss; ring).
    split.
    { replace ((cx + - (a * s) + 0 - cx) ^ 2 / a ^ 2
               + (cy + 0 + b ^ 2 / height - cy) ^ 2 / b ^ 2)
        with (s * s + b ^ 2 / height ^ 2) by (field; lra).
      exact Hon. }
    split.
    { replace ((cx + a * s + 0 - cx) ^ 2 / a ^ 2
               + (cy + 0 + b ^ 2 / height - cy) ^ 2 / b ^ 2)
        with (s * s + b ^ 2 / height ^ 2) by (field; lra).
      exact Hon. }
    split; [f_equal; ring |].
    intros _. split; field; lra.
Qed.

Lemma ConeOblique_generators_tangent_witness :
  exists cone,
    ConeOblique.__init__ 2 3.5 0.4 ORIGIN = Ok cone /\
    on_ellipse 2 (2 * 0.4) ORIGIN (ConeOblique.p_tangent_left cone) /\
    on_ellipse 2 (2 * 0.4) ORIGIN (ConeOblique.p_tangent_right cone) /\
    dist (ConeOblique.p_apex cone) (ConeOblique.p_tangent_left cone)
      = dist (ConeOblique.p_apex cone) (ConeOblique.p_tangent_right cone) /\
    (2 * 0.4 + 0.001 < 3.5 ->
     on_tangent_at 2 (2 * 0.4) ORIGIN
       (ConeOblique.p_tangent_left cone) (ConeOblique.p_apex cone) /\
     on_tangent_at 2 (2 * 0.4) ORIGIN
       (ConeOblique.p_tangent_right cone) (ConeOblique.p_apex cone)).
Proof. apply (ConeOblique_generators_tangent 2 3.5 0.4 ORIGIN); lra. Defined.

(** X16: for radius > 0 and 0 < skew_factor <= 1 every key point of the
    sphere lies within the contour circle, at most [radius] from the
    centre; the north pole is at distance [radius] exactly and, when the
    axes are shown, it is the key point named p_z_intersect. *)
Theorem SphereOblique_key_points_within_contour (radius skew_factor x_axis_angle : R)
    (show_axes : bool) (center : vec) :
  0 < radius -> 0 < skew_factor <= 1 ->
  let s := SphereOblique.__init__ radius skew_factor x_axis_angle show_axes center in
  Forall (fun item => dist (snd item) center <= radius) (SphereOblique.get_key_points s) /\
  dist (SphereOblique.get_north_pole s) center = radius /\
  (show_axes = true ->
   In ("p_z_intersect"%string, SphereOblique.get_north_pole s)
      (SphereOblique.get_key_points s)).
Proof.
  intros Hr Hs. cbv zeta.
  unfold SphereOblique.get_key_points, SphereOblique.get_north_pole, SphereOblique.__init__.
  cbn [SphereOblique.p_center SphereOblique.radius SphereOblique.the_axes].
  destruct center as [cx cy cz].
  assert (Hc : dist (V3 cx cy cz) (V3 cx cy cz) <= radius).
  { apply norm_le; [lra |]. cbn [vsub vx vy vz]. nra. }
  assert (Hz : dist (vadd (V3 cx cy cz) (vscale UP radius)) (V3 cx cy cz) = radius).
  { apply dist_eq; [lra |]. rewrite vscale_UP. cbn [vadd vx vy vz]. ring. }
  split; [| split; [exact Hz |]].
  - apply Forall_app. split; [apply List.Forall_cons; [exact Hc | apply List.Forall_nil] |].
    destruct show_axes; [| apply List.Forall_nil].
    unfold SphereOblique._create_axes.
    cbn [SphereOblique.p_x_intersect SphereOblique.p_y_intersect SphereOblique.p_z_intersect].
    set (k := tan x_axis_angle). set (b := radius * skew_factor). set (a := radius) in *.
    assert (Hb : 0 < b) by (unfold b; nra).
    assert (Hba : b <= a) by (unfold b; nra).
    assert (HD : 0 < b ^ 2 + a ^ 2 * k ^ 2) by nra.
    pose proof (sqrt_sqrt _ (Rlt_le _ _ HD)) as Hdd.
    pose proof (sqrt_lt_R0 _ HD) as Hd.
    set (d := sqrt (b ^ 2 + a ^ 2 * k ^ 2)) in *.
    repeat apply List.Forall_cons; [| | | apply List.Forall_nil]; cbn [snd].
    + apply norm_le; [lra |]. cbn [vsub vadd vx vy vz].
      replace ((cx + - (a * b) / d - cx) * (cx + - (a * b) / d - cx)
               + (cy + k * (- (a * b) / d) - cy) * (cy + k * (- (a * b) / d) - cy)
               + (cz + 0 - cz) * (cz + 0 - cz))
        with (a ^ 2 * b ^ 2 * (1 + k ^ 2) / (d * d)) by (field; lra).
      rewrite Hdd.
      apply (Rmult_le_reg_r (b ^ 2 + a ^ 2 * k ^ 2)); [exact HD |].
      replace (a ^ 2 * b ^ 2 * (1 + k ^ 2) / (b ^ 2 + a ^ 2 * k ^ 2)
               * (b ^ 2 + a ^ 2 * k ^ 2))
        with (a ^ 2 * b ^ 2 * (1 + k ^ 2)) by (field; lra).
      assert (Hk : 0 <= k ^ 2) by nra.
      assert (Hbb : b ^ 2 <= a ^ 2) by nra.
      nra.
    + apply Req_le. apply dist_eq; [lra |]. rewrite vscale_RIGHT.
      cbn [vadd vx vy vz]. ring.
    + apply Req_le. exact Hz.
  - intros ->. cbn [app]. right. right. right. left.
    unfold SphereOblique._create_axes. cbn [SphereOblique.p_z_intersect]. reflexivity.
Qed.

Lemma SphereOblique_key_points_within_contour_witness :
  let s := SphereOblique.__init__ 2 0.3 (-135 * DEGREES) true ORIGIN in
  Forall (fun item => dist (snd item) ORIGIN <= 2) (SphereOblique.get_key_points s) /\
  dist (SphereOblique.get_north_pole s) ORIGIN = 2 /\
  (true = true ->
   In ("p_z_intersect"%string, SphereOblique.get_north_pole s)
      (SphereOblique.get_key_points s)).
Proof.
  apply (SphereOblique_key_points_within_contour 2 0.3 (-135 * DEGREES) true ORIGIN); lra.
Defined.

(** ** Further properties of the polyhedron base class *)

Lemma indices_in_range_iff (vertices : list vec) (faces : list (list nat)) :
  indices_in_range vertices faces <->
  forall face v, face ∈ faces -> v ∈ face -> (v < List.length vertices)%nat.
Proof.
  unfold indices_in_range. rewrite Forall_forall. split.
  - intros H face v Hf Hv. specialize (H face Hf). rewrite Forall_forall in H. auto.
  - intros H face Hf. apply Forall_forall. intros v Hv. eauto.
Qed.

Lemma create_edges_raises (vs : list vec) (ec : string) (sw : R)
    (l : list PolyhedronBase.edge) (objs0 : gmap (nat * nat) PolyhedronBase.Line) (e : exn) :
  rfold
    (fun objs e =>
       let* start := index vs (fst e) in
       let* end_ := index vs (snd e) in
       Ok (<[ e := PolyhedronBase.BuildLine start end_ ec 1 sw ]> objs))
    l objs0 = Raise e ->
  e = IndexError.
Proof.
  revert objs0. induction l as [| x l IH]; intros objs0; cbn [rfold]; [discriminate |].
  unfold index at 1. destruct (vs !! x.1) as [start |]; cbn [rbind]; [| congruence].
  unfold index at 1. destruct (vs !! x.2) as [end_ |]; cbn [rbind]; [| congruence].
  apply IH.
Qed.

(** X17: the constructor returns exactly when every vertex index of every
    face is in range, and raises IndexError otherwise. *)
Theorem PolyhedronBase_constructor_index_check (vertices : list vec)
    (faces : list (list nat)) (edge_color vertex_color dashed_color : string)
    (stroke_width : R) (get_center : vec) :
  (indices_in_range vertices faces ->
   exists s,
     PolyhedronBase.__init__ vertices faces edge_color vertex_color dashed_color
       stroke_width get_center = Ok s) /\
  (~ indices_in_range vertices faces ->
   PolyhedronBase.__init__ vertices faces edge_color vertex_color dashed_color
     stroke_width get_center = Raise IndexError).
Proof.
  split.
  - intros H. apply init_ok. apply indices_in_range_iff. exact H.
  - intros H.
    destruct (PolyhedronBase.__init__ vertices faces edge_color vertex_color dashed_color
                stroke_width get_center) as [s | e] eqn:E.
    + exfalso. apply H. apply indices_in_range_iff.
      apply init_well_formed in E as ((_ & Hrange & _) & Hv & Hf & _).
      rewrite Hv, Hf in Hrange. exact Hrange.
    + f_equal. unfold PolyhedronBase.__init__ in E.
      destruct (PolyhedronBase._build_edge_topology faces) as [edges m].
      unfold PolyhedronBase._create_edges in E.
      destruct (rfold _ edges ∅) as [objs | e'] eqn:Er; cbn [rbind] in E; [discriminate |].
      injection E as <-. eapply create_edges_raises. exact Er.
Qed.

Lemma PolyhedronBase_constructor_index_check_witness :
  PolyhedronBase.__init__ [V3 0 0 0] [[0; 1; 2]]%nat "WHITE" "YELLOW" "GRAY" 4 (V3 0 0 0)
  = Raise IndexError.
Proof.
  apply (proj2 (PolyhedronBase_constructor_index_check
                  [V3 0 0 0] [[0; 1; 2]]%nat "WHITE" "YELLOW" "GRAY" 4 (V3 0 0 0))).
  intros H.
  pose proof (proj1 (indices_in_range_iff _ _) H [0; 1; 2]%nat 1%nat
                ltac:(set_solver) ltac:(set_solver)) as H1.
  cbn in H1. lia.
Defined.

Lemma mk_edge_ordered (v1 v2 : nat) :
  (fst (PolyhedronBase.mk_edge v1 v2) <= snd (PolyhedronBase.mk_edge v1 v2))%nat.
Proof.
  unfold PolyhedronBase.mk_edge. destruct (v2 <? v1)%nat eqn:E; cbn [fst snd].
  - apply Nat.ltb_lt in E. lia.
  - apply Nat.ltb_ge in E. lia.
Qed.

Lemma face_edges_ordered (face : list nat) (e : PolyhedronBase.edge) :
  e ∈ PolyhedronBase.face_edges face -> (fst e <= snd e)%nat.
Proof.
  unfold PolyhedronBase.face_edges. intros H.
  apply list_elem_of_fmap in H as (i & -> & _). apply mk_edge_ordered.
Qed.

(** X18: for any face list, [_build_edge_topology] gives an edge list
    without duplicates in which every edge has its smaller index first
    and which holds exactly the edges of the faces; the keys of the
    edge-to-faces dictionary are exactly these edges, and the list stored
    for an edge holds exactly the indices of the faces it lies on. *)
Theorem PolyhedronBase_edge_topology (faces : list (list nat)) :
  let edges := fst (PolyhedronBase._build_edge_topology faces) in
  let edge_to_faces := snd (PolyhedronBase._build_edge_topology faces) in
  NoDup edges /\
  (forall e, e ∈ edges -> (fst e <= snd e)%nat) /\
  (forall e, e ∈ edges <-> exists f, incident faces e f) /\
  (forall e, is_Some (edge_to_faces !! e) <-> e ∈ edges) /\
  (forall e f, f ∈ default [] (edge_to_faces !! e) <-> incident faces e f).
Proof.
  cbv zeta.
  destruct (PolyhedronBase._build_edge_topology faces) as [edges m] eqn:Et.
  apply topology_spec in Et as (T1 & T2 & T3 & T4). cbn [fst snd].
  split; [exact T4 |]. split; [| split; [exact T1 | split; [exact T3 | exact T2]]].
  intros e He. apply T1 in He as (f & face & _ & He).
  eapply face_edges_ordered. exact He.
Qed.

Lemma create_edges_values (vs : list vec) (ec : string) (sw : R)
    (l : list PolyhedronBase.edge) (objs0 objs : gmap (nat * nat) PolyhedronBase.Line) :
  rfold
    (fun objs e =>
       let* start := index vs (fst e) in
       let* end_ := index vs (snd e) in
       Ok (<[ e := PolyhedronBase.BuildLine start end_ ec 1 sw ]> objs))
    l objs0 = Ok objs ->
  forall e,
    objs !! e =
    if decide (e ∈ l)
    then Some (PolyhedronBase.BuildLine (vertex vs (fst e)) (vertex vs (snd e)) ec 1 sw)
    else objs0 !! e.
Proof.
  revert objs0. induction l as [| x l IH]; intros objs0; cbn [rfold].
  - intros [= <-] e. destruct (decide (e ∈ [])) as [H | _]; [| reflexivity].
    by apply not_elem_of_nil in H.
  - unfold index at 1. destruct (vs !! x.1) as [start |] eqn:E1; cbn [rbind]; [| discriminate].
    unfold index at 1. destruct (vs !! x.2) as [end_ |] eqn:E2; cbn [rbind]; [| discriminate].
    intros H e. rewrite (IH _ H e).
    destruct (decide (e ∈ l)) as [Hin | Hnin].
    + rewrite decide_True by (apply elem_of_cons; right; exact Hin). reflexivity.
    + destruct (decide (e = x)) as [-> | Hne].
      * rewrite decide_True by (apply elem_of_cons; left; reflexivity).
        rewrite lookup_insert_eq. unfold vertex. rewrite E1, E2. reflexivity.
      * rewrite decide_False by (rewrite elem_of_cons; tauto).
        rewrite lookup_insert_ne by congruence. reflexivity.
Qed.

(** X19: a constructed polyhedron has exactly one line per edge: for an
    edge (i, j) the line runs from vertex i to vertex j and carries the
    solid style (the edge colour, opacity 1, the full stroke width), and
    there is no line for a pair that is not an edge. *)
Theorem PolyhedronBase_initial_lines (vertices : list vec) (faces : list (list nat))
    (edge_color vertex_color dashed_color : string) (stroke_width : R)
    (get_center : vec) (s : PolyhedronBase.t) :
  PolyhedronBase.__init__ vertices faces edge_color vertex_color dashed_color
    stroke_width get_center = Ok s ->
  (forall e, e ∈ PolyhedronBase.edges s ->
     exists line,
       PolyhedronBase.edge_objects s !! e = Some line /\
       PolyhedronBase.line_start line = vertex vertices (fst e) /\
       PolyhedronBase.line_end line = vertex vertices (snd e) /\
       styled_solid s line) /\
  (forall e, ~ e ∈ PolyhedronBase.edges s -> PolyhedronBase.edge_objects s !! e = None) /\
  List.length (PolyhedronBase.edge_lines s) = List.length (PolyhedronBase.edges s).
Proof.
  intros Hinit. unfold PolyhedronBase.__init__ in Hinit.
  destruct (PolyhedronBase._build_edge_topology faces) as [edges m].
  unfold PolyhedronBase._create_edges in Hinit.
  destruct (rfold _ edges ∅) as [objs | e'] eqn:Er; cbn [rbind] in Hinit; [| discriminate].
  injection Hinit as <-. pose proof (create_edges_values _ _ _ _ _ _ Er) as Hval.
  cbn [PolyhedronBase.edges PolyhedronBase.edge_objects].
  assert (H1 : forall e, e ∈ edges ->
                 objs !! e = Some (PolyhedronBase.BuildLine (vertex vertices (fst e))
                                     (vertex vertices (snd e)) edge_color 1 stroke_width)).
  { intros e He. rewrite Hval. rewrite decide_True by exact He. reflexivity. }
  split; [| split].
  - intros e He. eexists. split; [apply H1; exact He |].
    cbn. unfold styled_solid. cbn. repeat split; reflexivity.
  - intros e He. rewrite Hval. rewrite decide_False by exact He. apply lookup_empty.
  - unfold PolyhedronBase.edge_lines. cbn [PolyhedronBase.edges PolyhedronBase.edge_objects].
    clear Hval Er.
    induction edges as [| x edges IH]; [reflexivity |].
    cbn [omap list_omap]. rewrite (H1 x) by (apply elem_of_cons; left; reflexivity).
    cbn [List.length]. f_equal. apply IH. intros e He. apply H1.
    apply elem_of_cons. right. exact He.
Qed.

Lemma PolyhedronBase_initial_lines_witness :
  exists s,
    PolyhedronBase.__init__ tiny_triangle [[0; 1; 2]]%nat "WHITE" "YELLOW" "GRAY" 4
      (V3 0 0 0) = Ok s /\
    List.length (PolyhedronBase.edge_lines s) = List.length (PolyhedronBase.edges s).
Proof.
  destruct (init_ok tiny_triangle [[0; 1; 2]]%nat "WHITE" "YELLOW" "GRAY" 4
              (V3 0 0 0) tiny_triangle_indices) as [s Hs].
  exists s. split; [exact Hs |].
  exact (proj2 (proj2 (PolyhedronBase_initial_lines _ _ _ _ _ _ _ s Hs))).
Defined.

Lemma norm_vdiv_self (u : vec) : 0 < norm u -> norm (vdiv u (norm u)) = 1.
Proof.
  intros Hn. apply norm_eq; [lra |]. pose proof (norm_sqr u) as Hs.
  unfold vdiv. cbn [vx vy vz].
  replace (vx u / norm u * (vx u / norm u) + vy u / norm u * (vy u / norm u)
           + vz u / norm u * (vz u / norm u))
    with ((vx u * vx u + vy u * vy u + vz u * vz u) / (norm u * norm u))
    by (field; lra).
  rewrite <- Hs. field. lra.
Qed.

(** X20: [_compute_face_normal] only ever returns a unit vector; for a
    face with fewer than three vertices it returns (0, 0, 1) without
    looking at the vertices, and the only exception it can raise is
    IndexError. *)
Theorem PolyhedronBase_face_normal_unit (s : PolyhedronBase.t) (face : list nat) :
  ((List.length face < 3)%nat ->
   PolyhedronBase._compute_face_normal s face = Ok (V3 0 0 1)) /\
  (forall n, PolyhedronBase._compute_face_normal s face = Ok n -> norm n = 1) /\
  (forall e, PolyhedronBase._compute_face_normal s face = Raise e -> e = IndexError).
Proof.
  assert (Hk : norm (V3 0 0 1) = 1).
  { apply norm_eq; [lra |]. cbn [vx vy vz]. ring. }
  unfold PolyhedronBase._compute_face_normal.
  destruct (List.length face <? 3)%nat eqn:E.
  { split; [reflexivity |]. split; [intros n [= <-]; exact Hk | discriminate]. }
  apply Nat.ltb_ge in E. split; [lia |].
  unfold index.
  destruct (face !! 0%nat) as [i0 |]; cbn [rbind]; [| split; congruence].
  destruct (face !! 1%nat) as [i1 |]; cbn [rbind]; [| split; congruence].
  destruct (face !! 2%nat) as [i2 |]; cbn [rbind]; [| split; congruence].
  destruct (PolyhedronBase.vertices_local s !! i0) as [v0 |]; cbn [rbind];
    [| split; congruence].
  destruct (PolyhedronBase.vertices_local s !! i1) as [v1 |]; cbn [rbind];
    [| split; congruence].
  destruct (PolyhedronBase.vertices_local s !! i2) as [v2 |]; cbn [rbind];
    [| split; congruence].
  destruct (Rltb (norm (cross (vsub v1 v0) (vsub v2 v0))) 1e-6) eqn:En.
  - split; [intros n [= <-]; exact Hk | discriminate].
  - apply Rltb_false in En. split; [| discriminate].
    intros n [= <-]. apply norm_vdiv_self. lra.
Qed.

Lemma PolyhedronBase_face_normal_unit_witness :
  PolyhedronBase._compute_face_normal (triangle_state (V3 0 0 0)) [0; 1]%nat
  = Ok (V3 0 0 1).
Proof.
  apply (proj1 (PolyhedronBase_face_normal_unit (triangle_state (V3 0 0 0)) [0; 1]%nat)).
  cbn. lia.
Defined.

Lemma view_vector_shift (c d fc cam : vec) :
  vsub (vadd (vadd c d) fc) (vadd cam d) = vsub (vadd c fc) cam.
Proof. unfold vsub, vadd. cbn [vx vy vz]. f_equal; ring. Qed.

(** X21: visibility depends on the camera only relative to the object:
    for two states with the same vertices and faces, the second centred
    where the first is moved by [d], a face is visible from [cam + d] in
    the second exactly when it is visible from [cam] in the first (and
    the call raises in the one exactly when it raises in the other). *)
Theorem PolyhedronBase_visibility_translation (s1 s2 : PolyhedronBase.t) (d : vec)
    (face_idx : nat) (cam : vec) :
  PolyhedronBase.vertices_local s2 = PolyhedronBase.vertices_local s1 ->
  PolyhedronBase.faces s2 = PolyhedronBase.faces s1 ->
  PolyhedronBase.center s2 = vadd (PolyhedronBase.center s1) d ->
  PolyhedronBase._is_face_visible s2 face_idx (vadd cam d)
  = PolyhedronBase._is_face_visible s1 face_idx cam.
Proof.
  intros Hv Hf Hc.
  unfold PolyhedronBase._is_face_visible, PolyhedronBase._compute_face_center,
    PolyhedronBase._compute_face_normal.
  rewrite Hv, Hf, Hc.
  destruct (index (PolyhedronBase.faces s1) face_idx) as [face |]; cbn [rbind];
    [| reflexivity].
  destruct (rfold _ face (V3 0 0 0)) as [total |]; cbn [rbind]; [| reflexivity].
  rewrite view_vector_shift. reflexivity.
Qed.

Lemma PolyhedronBase_visibility_translation_witness :
  PolyhedronBase._is_face_visible (triangle_state (vadd (V3 0 0 0) (V3 1 1 1))) 0
    (vadd (V3 0 0 (-10)) (V3 1 1 1))
  = PolyhedronBase._is_face_visible (triangle_state (V3 0 0 0)) 0 (V3 0 0 (-10)).
Proof.
  apply (PolyhedronBase_visibility_translation
           (triangle_state (V3 0 0 0)) (triangle_state (vadd (V3 0 0 0) (V3 1 1 1)))
           (V3 1 1 1) 0 (V3 0 0 (-10))); reflexivity.
Defined.

(** X22: a later update overrides an earlier one: on every state a
    program can hold, updating for one camera and then for another gives
    the same result as updating for the second camera alone. *)
Theorem update_dashed_lines_last_camera_wins (s s1 : PolyhedronBase.t)
    (camera1 camera2 : option vec) :
  reachable s ->
  PolyhedronBase.update_dashed_lines s camera1 = Ok s1 ->
  PolyhedronBase.update_dashed_lines s1 camera2
  = PolyhedronBase.update_dashed_lines s camera2.
Proof.
  intros Hr Hup. pose proof (reachable_well_formed s Hr) as Hwf.
  destruct (update_spec s camera1 Hwf) as (objs1 & Hobjs1 & Hlook1).
  rewrite Hobjs1 in Hup. injection Hup as <-.
  set (s1 := PolyhedronBase.with_edge_objects s objs1) in *.
  assert (Hwf1 : well_formed s1) by (eapply update_well_formed; eauto).
  destruct (update_spec s1 camera2 Hwf1) as (objs2 & Hobjs2 & Hlook2).
  destruct (update_spec s camera2 Hwf) as (objs2' & Hobjs2' & Hlook2').
  rewrite Hobjs2, Hobjs2'. f_equal.
  assert (Heq : objs2 = objs2').
  { apply map_eq. intros e. rewrite Hlook2, Hlook2'.
    change (PolyhedronBase.edge_objects s1) with objs1.
    change (edge_hidden s1 (camera_of camera2) e)
      with (edge_hidden s (camera_of camera2) e).
    rewrite Hlook1. destruct (PolyhedronBase.edge_objects s !! e) as [l |];
      [| reflexivity].
    cbn [fmap option_fmap option_map]. f_equal.
    destruct (edge_hidden s (camera_of camera2) e);
      destruct (edge_hidden s (camera_of camera1) e); reflexivity. }
  rewrite Heq. reflexivity.
Qed.

Lemma update_dashed_lines_last_camera_wins_witness :
  exists s s1,
    PolyhedronBase.__init__ tiny_triangle [[0; 1; 2]]%nat "WHITE" "YELLOW" "GRAY" 4
      (V3 0 0 0) = Ok s /\
    PolyhedronBase.update_dashed_lines s (Some (V3 0 0 10)) = Ok s1 /\
    PolyhedronBase.update_dashed_lines s1 None = PolyhedronBase.update_dashed_lines s None.
Proof.
  destruct (init_ok tiny_triangle [[0; 1; 2]]%nat "WHITE" "YELLOW" "GRAY" 4
              (V3 0 0 0) tiny_triangle_indices) as [s Hs].
  pose proof (reach_init _ _ _ _ _ _ _ _ Hs) as Hr.
  destruct (update_spec s (Some (V3 0 0 10)) (reachable_well_formed s Hr)) as (objs & Hup & _).
  exists s, (PolyhedronBase.with_edge_objects s objs).
  split; [exact Hs |]. split; [exact Hup |].
  exact (update_dashed_lines_last_camera_wins s _ (Some (V3 0 0 10)) None Hr Hup).
Defined.

(** ** Further properties of the cube *)

Lemma rmap_Forall2 {A B : Type} (f : A -> result B) (P : A -> B -> Prop)
    (l : list A) (l' : list B) :
  (forall x y, f x = Ok y -> P x y) -> rmap f l = Ok l' -> Forall2 P l l'.
Proof.
  intros Hf. revert l'. induction l as [| x l IH]; intros l'; cbn [rmap].
  - intros [= <-]. constructor.
  - destruct (f x) as [y |] eqn:Ex; cbn [rbind]; [| discriminate].
    destruct (rmap f l) as [ys |]; cbn [rbind]; [| discriminate].
    intros [= <-]. constructor; [apply Hf; exact Ex | apply IH; reflexivity].
Qed.

Lemma rmap_raises {A B : Type} (f : A -> result B) (e0 : exn) (l : list A) (e : exn) :
  (forall x e, f x = Raise e -> e = e0) -> rmap f l = Raise e -> e = e0.
Proof.
  intros Hf. induction l as [| x l IH]; cbn [rmap]; [discriminate |].
  destruct (f x) as [y |] eqn:Ex; cbn [rbind].
  - destruct (rmap f l) as [ys |]; cbn [rbind]; [discriminate |].
    intros [= <-]. apply IH. reflexivity.
  - intros [= <-]. eapply Hf. exact Ex.
Qed.

Lemma rmap_raises_at {A B : Type} (f : A -> result B) (e0 : exn) (l : list A) :
  (forall x e, f x = Raise e -> e = e0) ->
  Exists (fun x => f x = Raise e0) l -> rmap f l = Raise e0.
Proof.
  intros Hf Hex. induction Hex as [x l Hx | x l Hex IH]; cbn [rmap].
  - rewrite Hx. reflexivity.
  - destruct (f x) as [y |] eqn:Ex; cbn [rbind].
    + rewrite IH. reflexivity.
    + f_equal. eapply Hf. exact Ex.
Qed.

Lemma index_raises {A : Type} (l : list A) (i : nat) (e : exn) :
  index l i = Raise e -> e = IndexError.
Proof. unfold index. destruct (l !! i); congruence. Qed.

Lemma correct_face_kept (vs : list vec) (center : vec) (face face' : list nat) :
  CubeGeometry.correct_face vs center face = Ok face' -> kept_or_reversed face face'.
Proof.
  unfold CubeGeometry.correct_face, kept_or_reversed.
  destruct (index face 0) as [i0 |]; cbn [rbind]; [| discriminate].
  destruct (index vs i0) as [v0 |]; cbn [rbind]; [| discriminate].
  destruct (index face 1) as [i1 |]; cbn [rbind]; [| discriminate].
  destruct (index vs i1) as [v1 |]; cbn [rbind]; [| discriminate].
  destruct (index face 2) as [i2 |]; cbn [rbind]; [| discriminate].
  destruct (index vs i2) as [v2 |]; cbn [rbind]; [| discriminate].
  destruct (Rltb _ 1e-6); [intros [= <-]; left; reflexivity |].
  destruct (rmap (index vs) face) as [pts |]; cbn [rbind]; [| discriminate].
  destruct (Rltb _ 0); intros [= <-]; [right | left]; reflexivity.
Qed.

Lemma correct_face_raises (vs : list vec) (center : vec) (face : list nat) (e : exn) :
  CubeGeometry.correct_face vs center face = Raise e -> e = IndexError.
Proof.
  unfold CubeGeometry.correct_face.
  destruct (index face 0) as [i0 |] eqn:E0; cbn [rbind];
    [| intros [= <-]; eapply index_raises; exact E0].
  destruct (index vs i0) as [v0 |] eqn:E1; cbn [rbind];
    [| intros [= <-]; eapply index_raises; exact E1].
  destruct (index face 1) as [i1 |] eqn:E2; cbn [rbind];
    [| intros [= <-]; eapply index_raises; exact E2].
  destruct (index vs i1) as [v1 |] eqn:E3; cbn [rbind];
    [| intros [= <-]; eapply index_raises; exact E3].
  destruct (index face 2) as [i2 |] eqn:E4; cbn [rbind];
    [| intros [= <-]; eapply index_raises; exact E4].
  destruct (index vs i2) as [v2 |] eqn:E5; cbn [rbind];
    [| intros [= <-]; eapply index_raises; exact E5].
  destruct (Rltb _ 1e-6); [discriminate |].
  destruct (rmap (index vs) face) as [pts |] eqn:E6; cbn [rbind].
  - destruct (Rltb _ 0); discriminate.
  - intros [= <-]. eapply (rmap_raises (index vs)); [| exact E6].
    intros x e'. apply index_raises.
Qed.

Lemma correct_face_short (vs : list vec) (center : vec) (face : list nat) :
  (List.length face < 3)%nat ->
  CubeGeometry.correct_face vs center face = Raise IndexError.
Proof.
  intros Hlen.
  destruct (CubeGeometry.correct_face vs center face) as [face' | e] eqn:E.
  - exfalso. unfold CubeGeometry.correct_face in E.
    destruct (index face 0) as [i0 |]; cbn [rbind] in E; [| discriminate].
    destruct (index vs i0) as [v0 |]; cbn [rbind] in E; [| discriminate].
    destruct (index face 1) as [i1 |]; cbn [rbind] in E; [| discriminate].
    destruct (index vs i1) as [v1 |]; cbn [rbind] in E; [| discriminate].
    destruct (index face 2) as [i2 |] eqn:E2; cbn [rbind] in E; [| discriminate].
    apply index_inv in E2. apply lookup_lt_Some in E2. lia.
  - f_equal. eapply correct_face_raises. exact E.
Qed.

(** X23: the orientation pass never changes which vertices a face has
    nor how many faces there are: when [_correct_face_normals] returns,
    every face of the result is the face of the input at the same
    position, kept or reversed.  The only exception it raises is
    IndexError, and it does raise it when some face has fewer than three
    vertices. *)
Theorem CubeGeometry_orientation_pass (vertices : list vec) (faces : list (list nat)) :
  (forall faces',
     CubeGeometry._correct_face_normals vertices faces = Ok faces' ->
     Forall2 kept_or_reversed faces faces') /\
  (forall e,
     CubeGeometry._correct_face_normals vertices faces = Raise e -> e = IndexError) /\
  (Exists (fun face => (List.length face < 3)%nat) faces ->
   CubeGeometry._correct_face_normals vertices faces = Raise IndexError).
Proof.
  unfold CubeGeometry._correct_face_normals. split; [| split].
  - intros faces'. apply rmap_Forall2. intros face face'. apply correct_face_kept.
  - intros e. apply rmap_raises. intros face e'. apply correct_face_raises.
  - intros Hex. apply rmap_raises_at.
    + intros face e'. apply correct_face_raises.
    + eapply List.Exists_impl; [| exact Hex]. intros face Hlen.
      apply correct_face_short. exact Hlen.
Qed.

Lemma CubeGeometry_orientation_pass_witness :
  CubeGeometry._correct_face_normals tiny_triangle [[0; 1; 2]; [0; 1]]%nat
  = Raise IndexError.
Proof.
  apply (proj2 (proj2 (CubeGeometry_orientation_pass tiny_triangle
                         [[0; 1; 2]; [0; 1]]%nat))).
  apply List.Exists_cons_tl. apply List.Exists_cons_hd. cbn. lia.
Defined.

Lemma initial_faces_length (face : list nat) :
  face ∈ CubeGeometry.initial_faces -> List.length face = 4%nat.
Proof.
  unfold CubeGeometry.initial_faces. intros Hf.
  repeat (apply elem_of_cons in Hf as [-> | Hf]; [reflexivity |]).
  by apply not_elem_of_nil in Hf.
Qed.

Lemma kept_or_reversed_elem (face face' : list nat) (v : nat) :
  kept_or_reversed face face' -> v ∈ face' -> v ∈ face.
Proof.
  intros [-> | ->] Hv; [exact Hv |].
  apply (proj2 (list_elem_of_In _ _)). apply (proj2 (in_rev _ _)).
  apply (proj1 (list_elem_of_In _ _)). exact Hv.
Qed.

(** The state the cube constructor returns, for any side length. *)
Lemma cube_state_any (L : R) (origin_point : string) (ec vc dc : string) (sw : R)
    (c : vec) :
  In (upper origin_point) CubeGeometry.vertex_names ->
  exists o s,
    CubeGeometry.lookup_vertex (CubeGeometry.standard_vertices L) (upper origin_point)
      = Ok o /\
    CubeGeometry.__init__ L origin_point ec vc dc sw c = Ok s /\
    PolyhedronBase.vertices_local s = cube_vertices L (vneg o) /\
    Forall2 kept_or_reversed CubeGeometry.initial_faces (PolyhedronBase.faces s) /\
    PolyhedronBase.center s = c /\
    reachable s.
Proof.
  intros Hin.
  destruct (cube_init_unfold L origin_point ec vc dc sw c Hin) as (o & Ho & Hinit).
  set (vs := cube_vertices L (vneg o)) in *.
  destruct (CubeGeometry._correct_face_normals vs CubeGeometry.initial_faces)
    as [faces | e] eqn:Ef.
  - assert (Hkept : Forall2 kept_or_reversed CubeGeometry.initial_faces faces).
    { unfold CubeGeometry._correct_face_normals in Ef.
      eapply rmap_Forall2; [| exact Ef]. intros face face'. apply correct_face_kept. }
    cbn [rbind] in Hinit.
    destruct (init_ok vs faces ec vc dc sw c) as [s Hs].
    { intros face' v Hf Hv.
      apply list_elem_of_lookup in Hf as [i Hi].
      destruct (Forall2_lookup_r _ _ _ _ _ Hkept Hi) as (face & Hface & Hk).
      apply (cube_face_indices L (vneg o) face).
      - left. apply list_elem_of_lookup. eauto.
      - eapply kept_or_reversed_elem; eauto. }
    exists o, s. split; [exact Ho |]. rewrite Hinit.
    destruct (init_well_formed _ _ _ _ _ _ _ _ Hs) as (_ & Hvs & Hfs & Hc & _).
    rewrite Hfs. repeat split; try assumption. eapply reach_init. exact Hs.
  - exfalso. unfold CubeGeometry._correct_face_normals in Ef.
    assert (Hok : rmap (CubeGeometry.correct_face vs (CubeGeometry.mean vs))
                    CubeGeometry.initial_faces
                  = Ok (map (fun face =>
                               if Rltb (norm (consecutive_cross vs face)) 1e-6 then face
                               else if Rltb (dot (consecutive_cross vs face)
                                               (vsub (face_center vs face)
                                                  (CubeGeometry.mean vs))) 0
                                    then rev face else face)
                          CubeGeometry.initial_faces)).
    { apply rmap_ok. intros face Hface. apply list_elem_of_In in Hface.
      apply correct_face_spec.
      - rewrite (initial_faces_length face Hface). lia.
      - intros v. apply cube_face_indices. left. exact Hface. }
    rewrite Hok in Ef. discriminate.
Qed.

(** X24: for every side length, positive or not, the cube constructor
    returns exactly when the origin point, converted to upper case, is
    one of the eight vertex names, and raises KeyError otherwise; the
    cube it returns has 8 vertices and the 6 faces of the constructor's
    list, each kept or reversed. *)
Theorem CubeGeometry_constructor_total (side_length : R) (origin_point : string)
    (edge_color vertex_color dashed_color : string) (stroke_width : R)
    (get_center : vec) :
  (In (upper origin_point) CubeGeometry.vertex_names ->
   exists s,
     CubeGeometry.__init__ side_length origin_point edge_color vertex_color
       dashed_color stroke_width get_center = Ok s /\
     List.length (PolyhedronBase.vertices_local s) = 8%nat /\
     Forall2 kept_or_reversed CubeGeometry.initial_faces (PolyhedronBase.faces s)) /\
  (~ In (upper origin_point) CubeGeometry.vertex_names ->
   CubeGeometry.__init__ side_length origin_point edge_color vertex_color
     dashed_color stroke_width get_center = Raise KeyError).
Proof.
  split.
  - intros Hin.
    destruct (cube_state_any side_length origin_point edge_color vertex_color
                dashed_color stroke_width get_center Hin)
      as (o & s & _ & Hs & Hvs & Hfs & _).
    exists s. split; [exact Hs |]. split; [| exact Hfs].
    rewrite Hvs. apply cube_vertices_length.
  - intros Hout. unfold CubeGeometry.__init__.
    rewrite (cube_unknown_origin side_length origin_point Hout). reflexivity.
Qed.

Lemma CubeGeometry_constructor_total_witness :
  (exists s, CubeGeometry.__init__ (-1) "c1" "WHITE" "YELLOW" "GRAY" 4 (V3 0 0 0) = Ok s) /\
  CubeGeometry.__init__ 2 "E" "WHITE" "YELLOW" "GRAY" 4 (V3 0 0 0) = Raise KeyError.
Proof.
  split.
  - destruct (proj1 (CubeGeometry_constructor_total (-1) "c1" "WHITE" "YELLOW" "GRAY" 4
                       (V3 0 0 0))) as (s & Hs & _).
    + replace (upper "c1") with "C1"%string by reflexivity.
      unfold CubeGeometry.vertex_names. cbn. tauto.
    + exists s. exact Hs.
  - apply (proj2 (CubeGeometry_constructor_total 2 "E" "WHITE" "YELLOW" "GRAY" 4
                    (V3 0 0 0))).
    replace (upper "E") with "E"%string by reflexivity.
    unfold CubeGeometry.vertex_names. cbn.
    intros H. repeat (destruct H as [H | H]; [discriminate |]). exact H.
Defined.

Lemma vadd_vneg (v : vec) : vadd v (vneg v) = V3 0 0 0.
Proof. unfold vadd, vneg. cbn [vx vy vz]. f_equal; ring. Qed.

(** X25: in a constructed cube the vertex named by the origin point sits
    at (0, 0, 0): at the position of that name in the list of vertex
    names the local vertex is the zero vector, and on the untransformed
    cube [get_vertex_coord] returns it; an index of 8 or more makes
    [get_vertex_coord] raise IndexError. *)
Theorem CubeGeometry_origin_vertex (side_length : R) (origin_point : string)
    (edge_color vertex_color dashed_color : string) (stroke_width : R)
    (get_center : vec) (s : PolyhedronBase.t) :
  CubeGeometry.__init__ side_length origin_point edge_color vertex_color
    dashed_color stroke_width get_center = Ok s ->
  (exists i,
     CubeGeometry.vertex_names !! i = Some (upper origin_point) /\
     PolyhedronBase.vertices_local s !! i = Some (V3 0 0 0) /\
     CubeGeometry.get_vertex_coord (PolyhedronBase.vertices_local s) i = Ok (V3 0 0 0)) /\
  (forall i, (8 <= i)%nat ->
     CubeGeometry.get_vertex_coord (PolyhedronBase.vertices_local s) i = Raise IndexError).
Proof.
  intros Hinit.
  destruct (in_dec string_dec (upper origin_point) CubeGeometry.vertex_names)
    as [Hin | Hout].
  2: { unfold CubeGeometry.__init__ in Hinit.
       rewrite (cube_unknown_origin side_length origin_point Hout) in Hinit.
       discriminate. }
  destruct (cube_state_any side_length origin_point edge_color vertex_color
              dashed_color stroke_width get_center Hin)
    as (o & s' & Ho & Hs & Hvs & _).
  rewrite Hinit in Hs. injection Hs as <-. split.
  - assert (Hi : exists i,
               CubeGeometry.vertex_names !! i = Some (upper origin_point) /\
               PolyhedronBase.vertices_local s !! i = Some (V3 0 0 0)).
    { rewrite Hvs. unfold CubeGeometry.vertex_names in Hin. cbn [In] in Hin.
      unfold cube_vertices, cube_base. cbn [map].
      destruct Hin as [H | [H | [H | [H | [H | [H | [H | [H | []]]]]]]]];
        rewrite <- H in Ho |- *; injection Ho as <-;
        [exists 0%nat | exists 1%nat | exists 2%nat | exists 3%nat
         | exists 4%nat | exists 5%nat | exists 6%nat | exists 7%nat];
        (split; [reflexivity |]); cbn [lookup list_lookup];
        rewrite vadd_vneg; reflexivity. }
    destruct Hi as (i & Hn & Hv). exists i. split; [exact Hn |]. split; [exact Hv |].
    unfold CubeGeometry.get_vertex_coord. apply index_ok. exact Hv.
  - intros i Hi. unfold CubeGeometry.get_vertex_coord, index.
    rewrite (lookup_ge_None_2 (PolyhedronBase.vertices_local s) i); [reflexivity |].
    rewrite Hvs, cube_vertices_length. exact Hi.
Qed.

Lemma CubeGeometry_origin_vertex_witness :
  exists s i,
    CubeGeometry.__init__ 2 "C" "WHITE" "YELLOW" "GRAY" 4 (V3 0 0 0) = Ok s /\
    CubeGeometry.vertex_names !! i = Some (upper "C") /\
    PolyhedronBase.vertices_local s !! i = Some (V3 0 0 0).
Proof.
  assert (Hin : In (upper "C") CubeGeometry.vertex_names).
  { replace (upper "C") with "C"%string by reflexivity.
    unfold CubeGeometry.vertex_names. cbn. tauto. }
  destruct (cube_state_any 2 "C" "WHITE" "YELLOW" "GRAY" 4 (V3 0 0 0) Hin)
    as (o & s & _ & Hs & _).
  destruct (proj1 (CubeGeometry_origin_vertex 2 "C" "WHITE" "YELLOW" "GRAY" 4 (V3 0 0 0)
                     s Hs)) as (i & Hn & Hv & _).
  exists s, i. tauto.
Defined.

Lemma initial_faces_incident (e : nat * nat) (f : nat) :
  incident CubeGeometry.initial_faces e f <-> incident cube_faces e f.
Proof.
  unfold incident. destruct f as [| f].
  - cbn [lookup list_lookup CubeGeometry.initial_faces cube_faces]. split.
    + intros (face & [= <-] & He). eexists. split; [reflexivity |].
      vm_compute in He. vm_compute.
      repeat (apply elem_of_cons in He as [-> | He]; [set_solver |]).
      by apply not_elem_of_nil in He.
    + intros (face & [= <-] & He). eexists. split; [reflexivity |].
      vm_compute in He. vm_compute.
      repeat (apply elem_of_cons in He as [-> | He]; [set_solver |]).
      by apply not_elem_of_nil in He.
  - reflexivity.
Qed.

Lemma cube_edges_NoDup : NoDup cube_edges.
Proof.
  unfold cube_edges, front_edges, back_edges, lateral_edges. cbn [app].
  repeat (apply NoDup_cons; split; [set_solver |]). apply NoDup_nil. done.
Qed.

Ltac cube_edge_faces a b :=
  exists a, b; split; [lia |];
  intros f; rewrite cube_incident, cube_face_edges; split;
  [ intros (es & Hes & He);
    do 6 (destruct f as [| f];
          [ injection Hes as <-;
            first [ left; reflexivity | right; reflexivity
                  | exfalso;
                    repeat (apply elem_of_cons in He as [He | He]; [discriminate |]);
                    by apply not_elem_of_nil in He ] |]);
    discriminate
  | intros [-> | ->]; eexists; (split; [reflexivity |]); set_solver ].

Lemma cube_edge_two_faces (e : nat * nat) :
  e ∈ cube_edges -> on_two_faces cube_faces e.
Proof.
  unfold cube_edges, front_edges, back_edges, lateral_edges, on_two_faces. cbn [app].
  intros He.
  apply elem_of_cons in He as [-> | He]; [cube_edge_faces 1%nat 2%nat |].
  apply elem_of_cons in He as [-> | He]; [cube_edge_faces 1%nat 3%nat |].
  apply elem_of_cons in He as [-> | He]; [cube_edge_faces 1%nat 4%nat |].
  apply elem_of_cons in He as [-> | He]; [cube_edge_faces 1%nat 5%nat |].
  apply elem_of_cons in He as [-> | He]; [cube_edge_faces 0%nat 2%nat |].
  apply elem_of_cons in He as [-> | He]; [cube_edge_faces 0%nat 3%nat |].
  apply elem_of_cons in He as [-> | He]; [cube_edge_faces 0%nat 4%nat |].
  apply elem_of_cons in He as [-> | He]; [cube_edge_faces 0%nat 5%nat |].
  apply elem_of_cons in He as [-> | He]; [cube_edge_faces 2%nat 5%nat |].
  apply elem_of_cons in He as [-> | He]; [cube_edge_faces 2%nat 3%nat |].
  apply elem_of_cons in He as [-> | He]; [cube_edge_faces 3%nat 4%nat |].
  apply elem_of_cons in He as [-> | He]; [cube_edge_faces 4%nat 5%nat |].
  by apply not_elem_of_nil in He.
Qed.

Lemma cube_edge_length (L : R) (off : vec) (e : nat * nat) :
  0 <= L -> e ∈ cube_edges ->
  norm (vsub (vertex (cube_vertices L off) (fst e)) (vertex (cube_vertices L off) (snd e)))
  = L.
Proof.
  intros HL He.
  unfold cube_edges, front_edges, back_edges, lateral_edges in He. cbn [app] in He.
  repeat (apply elem_of_cons in He as [-> | He];
          [apply norm_eq; [exact HL |];
           unfold cube_vertices, cube_base, vertex, vsub, vadd;
           cbn; ring |]).
  by apply not_elem_of_nil in He.
Qed.

(** X26: a cube built with a positive side length has exactly 12 edges;
    each of them joins two vertices at distance [side_length] and lies on
    exactly two faces. *)
Theorem CubeGeometry_twelve_edges (side_length : R) (origin_point : string)
    (edge_color vertex_color dashed_color : string) (stroke_width : R)
    (get_center : vec) (s : PolyhedronBase.t) :
  0 < side_length ->
  CubeGeometry.__init__ side_length origin_point edge_color vertex_color
    dashed_color stroke_width get_center = Ok s ->
  List.length (PolyhedronBase.edges s) = 12%nat /\
  (forall e, e ∈ PolyhedronBase.edges s ->
     norm (vsub (vertex (PolyhedronBase.vertices_local s) (fst e))
                (vertex (PolyhedronBase.vertices_local s) (snd e))) = side_length /\
     on_two_faces (PolyhedronBase.faces s) e).
Proof.
  intros HL Hinit.
  destruct (in_dec string_dec (upper origin_point) CubeGeometry.vertex_names)
    as [Hin | Hout].
  2: { unfold CubeGeometry.__init__ in Hinit.
       rewrite (cube_unknown_origin side_length origin_point Hout) in Hinit.
       discriminate. }
  destruct (cube_state side_length origin_point edge_color vertex_color
              dashed_color stroke_width get_center HL Hin)
    as (o & s' & _ & Hs & Hvs & Hfs & _ & Hr).
  rewrite Hinit in Hs. injection Hs as <-.
  assert (Hinc : forall e f, incident (PolyhedronBase.faces s) e f
                             <-> incident cube_faces e f).
  { intros e f. rewrite Hfs. destruct (Rltb (side_length * side_length) 1e-6);
      [apply initial_faces_incident | reflexivity]. }
  pose proof (reachable_well_formed s Hr) as (_ & _ & Hedges & _).
  assert (Hall : forall e, e ∈ PolyhedronBase.edges s <-> e ∈ cube_edges).
  { intros e. rewrite Hedges. unfold cube_edges. rewrite <- cube_edges_all.
    split; intros (f & Hf); exists f; apply Hinc; exact Hf. }
  assert (Hnd : NoDup (PolyhedronBase.edges s)).
  { inversion Hr as [vs fs ec vc dc sw c s0 Hbase | s0 cam s1 Hr0 Hup]; subst.
    - destruct (init_well_formed _ _ _ _ _ _ _ _ Hbase) as (_ & _ & _ & _ & _ & _ & _ & Ht).
      symmetry in Ht. apply topology_spec in Ht as (_ & _ & _ & Hn). exact Hn.
    - pose proof (reachable_well_formed s0 Hr0) as Hwf0.
      destruct (update_spec s0 cam Hwf0) as (objs & Hobjs & _).
      rewrite Hobjs in Hup. injection Hup as <-.
      cbn [PolyhedronBase.edges PolyhedronBase.with_edge_objects] in *.
      clear -Hr0. induction Hr0 as [vs fs ec vc dc sw c s0 Hbase | s0 cam s1 Hr0 IH Hup].
      + destruct (init_well_formed _ _ _ _ _ _ _ _ Hbase)
          as (_ & _ & _ & _ & _ & _ & _ & Ht).
        symmetry in Ht. apply topology_spec in Ht as (_ & _ & _ & Hn). exact Hn.
      + pose proof (reachable_well_formed s0 Hr0) as Hwf0.
        destruct (update_spec s0 cam Hwf0) as (objs & Hobjs & _).
        rewrite Hobjs in Hup. injection Hup as <-. exact IH. }
  split.
  - rewrite (Permutation_length (NoDup_Permutation _ _ Hnd cube_edges_NoDup Hall)).
    reflexivity.
  - intros e He. apply Hall in He. split.
    + rewrite Hvs. apply cube_edge_length; [lra | exact He].
    + destruct (cube_edge_two_faces e He) as (f1 & f2 & Hne & Hiff).
      exists f1, f2. split; [exact Hne |]. intros f. rewrite Hinc. apply Hiff.
Qed.

Lemma CubeGeometry_twelve_edges_witness :
  exists s,
    CubeGeometry.__init__ 2 "A" "WHITE" "YELLOW" "GRAY" 4 (V3 1 1 1) = Ok s /\
    List.length (PolyhedronBase.edges s) = 12%nat.
Proof.
  destruct cube_example as (s & Hs & _).
  exists s. split; [exact Hs |].
  exact (proj1 (CubeGeometry_twelve_edges 2 "A" "WHITE" "YELLOW" "GRAY" 4 (V3 1 1 1) s
                  ltac:(lra) Hs)).
Defined.

Lemma foldl_vadd_acc (a d : vec) (pts : list vec) :
  foldl vadd (vadd a d) pts = vadd (foldl vadd a pts) d.
Proof.
  revert a. induction pts as [| q pts IH]; intros a; [reflexivity |].
  cbn [foldl].
  replace (vadd (vadd a d) q) with (vadd (vadd a q) d)
    by (unfold vadd; cbn [vx vy vz]; f_equal; ring).
  apply IH.
Qed.

Lemma foldl_vadd_shift (d : vec) (pts : list vec) (acc : vec) :
  foldl vadd acc (map (fun v => vadd v d) pts)
  = vadd (foldl vadd acc pts) (vscale d (INR (List.length pts))).
Proof.
  revert acc. induction pts as [| p pts IH]; intros acc.
  - cbn [map foldl List.length INR]. unfold vadd, vscale. destruct acc as [ax ay az].
    cbn [vx vy vz]. f_equal; ring.
  - cbn [map foldl List.length]. rewrite IH. rewrite S_INR.
    replace (vadd acc (vadd p d)) with (vadd (vadd acc p) d)
      by (unfold vadd; cbn [vx vy vz]; f_equal; ring).
    rewrite foldl_vadd_acc.
    unfold vadd, vscale. cbn [vx vy vz]. f_equal; ring.
Qed.

Lemma mean_shift (d : vec) (pts : list vec) :
  pts <> [] ->
  CubeGeometry.mean (map (fun v => vadd v d) pts) = vadd (CubeGeometry.mean pts) d.
Proof.
  intros Hne. unfold CubeGeometry.mean. rewrite foldl_vadd_shift, length_map.
  assert (Hn : INR (List.length pts) <> 0).
  { apply not_0_INR. destruct pts; [congruence | cbn; lia]. }
  unfold vdiv, vadd, vscale. cbn [vx vy vz]. f_equal; field; exact Hn.
Qed.

(** X27: the geometric centre moves with the cube: for a non-empty list
    of anchor positions, shifting every anchor by [d] shifts
    [get_geometric_center] by [d].  On a constructed cube whose anchors
    are at the vertices it is (L/2, L/2, L/2) minus the standard position
    of the corner chosen as origin, so it is (L/2, L/2, L/2) only for the
    origin point A. *)
Theorem CubeGeometry_geometric_center (side_length : R) (origin_point : string)
    (edge_color vertex_color dashed_color : string) (stroke_width : R)
    (get_center : vec) (s : PolyhedronBase.t) (o : vec) :
  CubeGeometry.__init__ side_length origin_point edge_color vertex_color
    dashed_color stroke_width get_center = Ok s ->
  CubeGeometry.lookup_vertex (CubeGeometry.standard_vertices side_length)
    (upper origin_point) = Ok o ->
  (forall anchors d, anchors <> [] ->
     CubeGeometry.get_geometric_center (map (fun v => vadd v d) anchors)
     = vadd (CubeGeometry.get_geometric_center anchors) d) /\
  CubeGeometry.get_geometric_center (PolyhedronBase.vertices_local s)
  = vsub (V3 (side_length / 2) (side_length / 2) (side_length / 2)) o.
Proof.
  intros Hinit Ho. split.
  - intros anchors d Hne. unfold CubeGeometry.get_geometric_center,
      CubeGeometry.get_global_vertices. apply mean_shift. exact Hne.
  - destruct (in_dec string_dec (upper origin_point) CubeGeometry.vertex_names)
      as [Hin | Hout].
    2: { rewrite (cube_unknown_origin side_length origin_point Hout) in Ho.
         discriminate. }
    destruct (cube_state_any side_length origin_point edge_color vertex_color
                dashed_color stroke_width get_center Hin)
      as (o' & s' & Ho' & Hs & Hvs & _).
    rewrite Hinit in Hs. injection Hs as <-.
    rewrite Ho in Ho'. injection Ho' as <-.
    unfold CubeGeometry.get_geometric_center, CubeGeometry.get_global_vertices.
    rewrite Hvs, cube_mean. unfold vsub, vneg. cbn [vx vy vz]. f_equal; ring.
Qed.

Lemma CubeGeometry_geometric_center_witness :
  exists s,
    CubeGeometry.__init__ 2 "C1" "WHITE" "YELLOW" "GRAY" 4 (V3 0 0 0) = Ok s /\
    CubeGeometry.get_geometric_center (PolyhedronBase.vertices_local s)
    = vsub (V3 (2 / 2) (2 / 2) (2 / 2)) (V3 2 2 2).
Proof.
  assert (Hin : In (upper "C1") CubeGeometry.vertex_names).
  { replace (upper "C1") with "C1"%string by reflexivity.
    unfold CubeGeometry.vertex_names. cbn. tauto. }
  destruct (cube_state_any 2 "C1" "WHITE" "YELLOW" "GRAY" 4 (V3 0 0 0) Hin)
    as (o & s & Ho & Hs & _).
  exists s. split; [exact Hs |].
  assert (Ho' : CubeGeometry.lookup_vertex (CubeGeometry.standard_vertices 2) (upper "C1")
                = Ok (V3 2 2 2)) by reflexivity.
  exact (proj2 (CubeGeometry_geometric_center 2 "C1" "WHITE" "YELLOW" "GRAY" 4 (V3 0 0 0)
                  s (V3 2 2 2) Hs Ho')).
Defined.

(** ** Defaults, the drawn directrix, and the face index *)

(** X28: with neither point given and length >= 0.001, the line is the
    segment of the x-axis from the origin to (length, 0, 0): horizontal,
    not vertical, slope 0, general form y = 0, drawn from the origin to
    (length, 0, 0). *)
Theorem StandardLine_default_points (length : R) :
  0.001 <= length ->
  let l := StandardLine.__init__ None None length in
  StandardLine.p1 l = V3 0 0 0 /\
  StandardLine.p2 l = V3 length 0 0 /\
  StandardLine.is_vertical l = false /\
  StandardLine.is_horizontal l = true /\
  StandardLine.slope l = 0 /\
  StandardLine.A l = 0 /\ StandardLine.B l = 1 /\ StandardLine.C l = 0 /\
  StandardLine.line_start l = V3 0 0 0 /\
  StandardLine.line_end l = V3 length 0 0.
Proof.
  intros Hlen. cbv zeta.
  change (StandardLine.__init__ None None length)
    with (StandardLine.__init__ (Some (StandardLine.P3 0 0 0))
            (Some (StandardLine.P3 length 0 0)) length).
  pose proof (line_init_spec (StandardLine.P3 0 0 0) (StandardLine.P3 length 0 0) length)
    as H. cbv zeta in H. cbn [StandardLine.to_array vx vy vz] in H.
  destruct H as (H1 & H2 & Hv & Hh & Hs & _ & HA & HB & HC & _ & _ & Hst & Hen).
  assert (Hn : norm (vsub (V3 length 0 0) (V3 0 0 0)) = length).
  { apply norm_eq; [lra |]. cbn [vsub vx vy vz]. ring. }
  rewrite Hn in Hst, Hen.
  assert (Hdx : Rltb (Rabs (length - 0)) 0.001 = false).
  { apply Rltb_false. rewrite Rabs_pos_eq by lra. lra. }
  assert (Hdy : Rltb (Rabs (0 - 0)) 0.001 = true).
  { apply Rltb_true. replace (0 - 0) with 0 by ring. rewrite Rabs_R0. lra. }
  rewrite Hdx in Hv, Hs, HA, HB, HC. rewrite Hdy in Hh, HA, HB, HC.
  rewrite (proj2 (Rltb_false length 0.001) Hlen) in Hst, Hen.
  rewrite Rmin_left in Hst, Hen by lra.
  rewrite H1, H2, Hv, Hh, HA, HB, HC, Hst, Hen.
  repeat split; try reflexivity.
  - rewrite Hs. destruct (Rgtb (Rabs (length - 0)) 0.001); [| reflexivity].
    unfold Rdiv. ring.
  - ring.
  - unfold vsub, vadd, vdiv, vscale. cbn [vx vy vz]. f_equal; field; lra.
  - unfold vsub, vadd, vdiv, vscale. cbn [vx vy vz]. f_equal; field; lra.
Qed.

Lemma StandardLine_default_points_witness :
  let l := StandardLine.__init__ None None 10 in
  StandardLine.p1 l = V3 0 0 0 /\
  StandardLine.p2 l = V3 10 0 0 /\
  StandardLine.is_vertical l = false /\
  StandardLine.is_horizontal l = true /\
  StandardLine.slope l = 0 /\
  StandardLine.A l = 0 /\ StandardLine.B l = 1 /\ StandardLine.C l = 0 /\
  StandardLine.line_start l = V3 0 0 0 /\
  StandardLine.line_end l = V3 10 0 0.
Proof. apply (StandardLine_default_points 10). lra. Defined.

(** X29: when the parabola is constructed with its directrix shown, the
    drawn directrix is a segment of length 6 whose midpoint is the
    directrix position, it is perpendicular to the axis through the
    focus, and the directrix position is the mirror image of the focus
    position in the vertex. *)
Theorem StandardParabola_directrix_segment (str_upper : string -> string) (p : R)
    (direction : string) (show_vertex show_focus directrix_label : bool)
    (r : StandardParabola.t) :
  StandardParabola.__init__ str_upper p direction show_vertex show_focus true
    directrix_label = Ok r ->
  exists a b,
    StandardParabola.directrix r = Some (a, b) /\
    vdiv (vadd a b) 2 = StandardParabola.directrix_pos r /\
    dist a b = 6 /\
    dot (vsub a b) (StandardParabola.focus_pos r) = 0 /\
    StandardParabola.directrix_pos r = vneg (StandardParabola.focus_pos r).
Proof.
  unfold StandardParabola.__init__, StandardParabola._calculate_positions.
  assert (H6 : forall u v : vec,
             (vx u - vx v) * (vx u - vx v) + (vy u - vy v) * (vy u - vy v)
             + (vz u - vz v) * (vz u - vz v) = 6 * 6 -> dist u v = 6).
  { intros u v. apply dist_eq. lra. }
  destruct directrix_label;
  (destruct (String.eqb (str_upper direction) "RIGHT");
    [| destruct (String.eqb (str_upper direction) "LEFT");
       [| destruct (String.eqb (str_upper direction) "UP");
          [| destruct (String.eqb (str_upper direction) "DOWN"); [| discriminate]]]]);
    cbn [rbind StandardParabola.add_to_group StandardParabola._get_directrix_label];
    try discriminate;
    intros [= <-];
    cbn [StandardParabola.directrix StandardParabola.directrix_pos
         StandardParabola.focus_pos StandardParabola._create_directrix_line];
    do 2 eexists; (split; [reflexivity |]);
    rewrite ?vscale_RIGHT, ?vscale_LEFT, ?vscale_UP, ?vscale_DOWN;
    (split; [unfold vdiv, vadd; cbn [vx vy vz]; f_equal; field |]);
    (split; [apply H6; unfold vadd; cbn [vx vy vz]; field |]);
    (split; [unfold dot, vsub, vadd; cbn [vx vy vz]; field |]);
    unfold vneg; cbn [vx vy vz]; f_equal; ring.
Qed.

Lemma StandardParabola_directrix_segment_witness :
  exists r a b,
    StandardParabola.__init__ upper 2 "RIGHT" true true true false = Ok r /\
    StandardParabola.directrix r = Some (a, b) /\
    vdiv (vadd a b) 2 = StandardParabola.directrix_pos r /\
    dist a b = 6.
Proof.
  assert (Hr : exists r,
             StandardParabola.__init__ upper 2 "RIGHT" true true true false = Ok r)
    by (eexists; reflexivity).
  destruct Hr as [r Hr]. exists r.
  destruct (StandardParabola_directrix_segment upper 2 "RIGHT" true true false r Hr)
    as (a & b & H1 & H2 & H3 & _).
  exists a, b. tauto.
Defined.

(** X30: on every state a program can hold, [_is_face_visible] returns a
    flag for a face index below the number of faces and raises IndexError
    for any other index. *)
Theorem PolyhedronBase_face_visible_index (s : PolyhedronBase.t) (face_idx : nat)
    (camera_position : vec) :
  reachable s ->
  ((face_idx < PolyhedronBase.n_faces s)%nat ->
   exists visible,
     PolyhedronBase._is_face_visible s face_idx camera_position = Ok visible) /\
  ((PolyhedronBase.n_faces s <= face_idx)%nat ->
   PolyhedronBase._is_face_visible s face_idx camera_position = Raise IndexError).
Proof.
  intros Hr. pose proof (reachable_well_formed s Hr) as (Hn & Hrange & _).
  rewrite Hn. split.
  - intros Hlt. destruct (lookup_lt_is_Some_2 _ _ Hlt) as [face Hface].
    eexists. apply (is_face_visible_ok s face_idx face camera_position Hface).
    intros v Hv. eapply Hrange; [| exact Hv]. apply list_elem_of_lookup. eauto.
  - intros Hge. unfold PolyhedronBase._is_face_visible, index.
    rewrite (lookup_ge_None_2 _ _ Hge). reflexivity.
Qed.

Lemma PolyhedronBase_face_visible_index_witness :
  exists s,
    PolyhedronBase.__init__ tiny_triangle [[0; 1; 2]]%nat "WHITE" "YELLOW" "GRAY" 4
      (V3 0 0 0) = Ok s /\
    PolyhedronBase._is_face_visible s 1 (V3 0 0 10) = Raise IndexError.
Proof.
  destruct (init_ok tiny_triangle [[0; 1; 2]]%nat "WHITE" "YELLOW" "GRAY" 4
              (V3 0 0 0) tiny_triangle_indices) as [s Hs].
  exists s. split; [exact Hs |].
  apply (proj2 (PolyhedronBase_face_visible_index s 1 (V3 0 0 10)
                  (reach_init _ _ _ _ _ _ _ _ Hs))).
  destruct (init_well_formed _ _ _ _ _ _ _ _ Hs) as ((Hn & _) & _ & Hf & _).
  rewrite Hn, Hf. cbn. lia.
Defined.
